(** * Shadow subsystem (src/game/shadow.c): embedding and properties

    The C code of [shadow.c] is embedded function by function.  Single
    precision floats ([f32]) are modelled as IEEE 754 binary32 values with
    round-to-nearest-even, integers as [Z] with their wrap-around written
    out, the global workspace [gCurrShadow] and the flag byte
    [gShadowFlags] as an explicit state threaded through a small
    state-and-error monad.  Conversions from float to integer that C leaves
    undefined (out of range, infinite, NaN), reads outside the [rectangles]
    table and dereferences of a null floor end a run with [UB]. *)

From Stdlib Require Import ZArith QArith Qround Qabs Lia Lqa List Bool.
From Stdlib Require Import Floats.SpecFloat.
Import ListNotations.

Local Open Scope Z_scope.

(* ===================================================================== *)
(** ** Binary32 arithmetic *)
(* ===================================================================== *)

Module F32.

(** Every finite binary32 number is an integer multiple of the smallest
    subnormal [2^-149].  A finite value is stored as that integer count
    [n], i.e. it denotes [n * 2^-149].  The two zeros are identified: they
    compare equal in C and no divisor of this program is a negative
    zero. *)
Inductive f32 : Type :=
| NaN
| Inf (neg : bool)
| Fin (n : Z).

(** [1.0f] counted in units of [2^-149]. *)
Definition U : Z := 2 ^ 149.

(** First magnitude (in units) that no longer fits: [2^128]. *)
Definition OVF : Z := 2 ^ 277.

(** Round half to even of a rational to an integer. *)
Definition rne (x : Q) : Z :=
  let f := Qfloor x in
  match (x - inject_Z f ?= 1 # 2)%Q with
  | Lt => f
  | Gt => f + 1
  | Eq => if Z.even f then f else f + 1
  end.

(** Number of low bits (of a magnitude counted in units) that do not fit
    in a 24-bit significand. *)
Definition shift_of (a : Q) : Z := Z.max 0 (Z.log2 (Qfloor a) - 23).

(** Round a non-negative magnitude (in units) to 24 significant bits. *)
Definition round_mag (a : Q) : Z :=
  let sh := shift_of a in
  rne (a / inject_Z (2 ^ sh)) * 2 ^ sh.

Definition round_units (x : Q) : Z :=
  if Qle_bool 0 x then round_mag x else - round_mag (- x).

(** Rounding of an exact result (in units), with overflow to infinity. *)
Definition fround (x : Q) : f32 :=
  let n := round_units x in
  if Z.abs n <? OVF then Fin n else Inf (n <? 0).

(** A value of the model is a binary32 number when rounding leaves it
    alone and it is below the overflow threshold. *)
Definition is_f32 (a : f32) : bool :=
  match a with
  | Fin n => (round_units (inject_Z n) =? n) && (Z.abs n <? OVF)
  | _ => true
  end.

Definition zero : f32 := Fin 0.
Definition one : f32 := Fin U.
Definition half : f32 := Fin (2 ^ 148).

(** Conversion of a C integer to float. *)
Definition of_int (z : Z) : f32 := fround (inject_Z (z * U)).

Definition fneg (a : f32) : f32 :=
  match a with
  | NaN => NaN
  | Inf s => Inf (negb s)
  | Fin n => Fin (- n)
  end.

Definition fadd (a b : f32) : f32 :=
  match a, b with
  | NaN, _ | _, NaN => NaN
  | Inf s, Inf t => if Bool.eqb s t then Inf s else NaN
  | Inf s, Fin _ => Inf s
  | Fin _, Inf t => Inf t
  | Fin n, Fin m => fround (inject_Z (n + m))
  end.

Definition fsub (a b : f32) : f32 := fadd a (fneg b).

Definition fmul (a b : f32) : f32 :=
  match a, b with
  | NaN, _ | _, NaN => NaN
  | Inf s, Inf t => Inf (xorb s t)
  | Inf s, Fin m => if m =? 0 then NaN else Inf (xorb s (m <? 0))
  | Fin n, Inf t => if n =? 0 then NaN else Inf (xorb (n <? 0) t)
  | Fin n, Fin m => fround (inject_Z (n * m) / inject_Z U)
  end.

Definition fdiv (a b : f32) : f32 :=
  match a, b with
  | NaN, _ | _, NaN => NaN
  | Inf _, Inf _ => NaN
  | Inf s, Fin m => Inf (xorb s (m <? 0))
  | Fin _, Inf _ => Fin 0
  | Fin n, Fin m =>
      if m =? 0 then (if n =? 0 then NaN else Inf (n <? 0))
      else fround (inject_Z (n * U) / inject_Z m)
  end.

(** Comparisons; every comparison with a NaN is false. *)
Definition flt (a b : f32) : bool :=
  match a, b with
  | NaN, _ | _, NaN => false
  | Inf s, Inf t => s && negb t
  | Inf s, Fin _ => s
  | Fin _, Inf t => negb t
  | Fin n, Fin m => n <? m
  end.

Definition fle (a b : f32) : bool :=
  match a, b with
  | NaN, _ | _, NaN => false
  | Inf s, Inf t => s || negb t
  | Inf s, Fin _ => s
  | Fin _, Inf t => negb t
  | Fin n, Fin m => n <=? m
  end.

Definition fgt (a b : f32) : bool := flt b a.
Definition fge (a b : f32) : bool := fle b a.

(** Integral part of a float (truncation toward zero), when it has one. *)
Definition ftrunc (a : f32) : option Z :=
  match a with
  | Fin n => Some (Z.quot n U)
  | _ => None
  end.

(** Decoding of a binary32 bit pattern. *)
Definition of_bits (w : Z) : f32 :=
  let sgn := Z.testbit w 31 in
  let ex := Z.land (Z.shiftr w 23) 255 in
  let man := Z.land w (2 ^ 23 - 1) in
  if ex =? 255 then (if man =? 0 then Inf sgn else NaN)
  else
    let mag := if ex =? 0 then man else (man + 2 ^ 23) * 2 ^ (ex - 1) in
    Fin (if sgn then - mag else mag).

(** *** Agreement with the Standard Library's IEEE specification *)

(** Translation to [spec_float] (positive zero for the single zero). *)
Definition shift_pos_to (m : positive) (e : Z) : spec_float :=
  let sh := Z.max 0 (Z.log2 (Zpos m) - 23) in
  match Z.shiftr (Zpos m) sh with
  | Zpos m' => S754_finite false m' (e + sh)
  | _ => S754_zero false
  end.

Definition to_spec (a : f32) : spec_float :=
  match a with
  | NaN => S754_nan
  | Inf s => S754_infinity s
  | Fin 0 => S754_zero false
  | Fin (Zpos m) => shift_pos_to m (-149)
  | Fin (Zneg m) => SFopp (shift_pos_to m (-149))
  end.

Definition same_value (x y : spec_float) : bool :=
  match SFcompare x y with
  | Some Eq => true
  | None => match x, y with S754_nan, S754_nan => true | _, _ => false end
  | _ => false
  end.

Definition agree_on (a b : f32) : bool :=
  same_value (SFmul 24 128 (to_spec a) (to_spec b)) (to_spec (fmul a b))
  && same_value (SFadd 24 128 (to_spec a) (to_spec b)) (to_spec (fadd a b))
  && same_value (SFsub 24 128 (to_spec a) (to_spec b)) (to_spec (fsub a b))
  && same_value (SFdiv 24 128 (to_spec a) (to_spec b)) (to_spec (fdiv a b))
  && Bool.eqb (SFltb (to_spec a) (to_spec b)) (flt a b)
  && Bool.eqb (SFleb (to_spec a) (to_spec b)) (fle a b).

Definition samples : list f32 :=
  [ NaN; Inf false; Inf true; zero; one; half; fneg one;
    of_int 600; of_int 255; of_int 120; of_int (-135); of_int 3; of_int 7;
    of_int 65535; of_int (-65535); of_int 16777215;
    Fin 1; Fin (-1); Fin 3; Fin (2 ^ 24 - 1); Fin (2 ^ 23 + 1);
    Fin ((2 ^ 24 - 1) * 2 ^ 253); Fin (- ((2 ^ 24 - 1) * 2 ^ 253));
    Fin ((2 ^ 23 + 1) * 2 ^ 126); Fin (13421773 * 2 ^ 122);
    Fin (11184811 * 2 ^ 124); Fin (- (12345679 * 2 ^ 130)) ].

Definition agree_all : bool :=
  forallb (fun a => forallb (agree_on a) samples) samples.

End F32.

(* ===================================================================== *)
(** ** Integers, undefined behaviour and the state monad *)
(* ===================================================================== *)

Module Shadow.

Import F32.

(** Storing an [int] into a narrower integer type. *)
Definition wrap_s8 (z : Z) : Z := (z + 128) mod 256 - 128.
Definition wrap_s16 (z : Z) : Z := (z + 32768) mod 65536 - 32768.
Definition wrap_u8 (z : Z) : Z := z mod 256.

Inductive UBKind : Type :=
| UB_float_to_int   (* float value whose integral part does not fit *)
| UB_out_of_bounds  (* read outside an array *)
| UB_null_deref.    (* dereference of a null pointer *)

Inductive res (A : Type) : Type :=
| Ok (a : A)
| UB (k : UBKind).
Arguments Ok {A} a.
Arguments UB {A} k.

(** C conversion of a float to an integer type with range [lo..hi]: the
    fractional part is discarded; undefined when the integral part is not
    representable. *)
Definition f32_to_int (lo hi : Z) (a : f32) : res Z :=
  match ftrunc a with
  | Some z => if (lo <=? z) && (z <=? hi) then Ok z else UB UB_float_to_int
  | None => UB UB_float_to_int
  end.

Definition f32_to_u8 : f32 -> res Z := f32_to_int 0 255.
Definition f32_to_s16 : f32 -> res Z := f32_to_int (-32768) 32767.
Definition f32_to_s32 : f32 -> res Z := f32_to_int (- 2 ^ 31) (2 ^ 31 - 1).

(** *** Data of the engine *)

Inductive SurfaceType : Type :=
| SURFACE_ICE
| SURFACE_BURNING
| SURFACE_DEATH_PLANE
| SURFACE_OTHER (code : Z).

Record Vec3f : Type := mkVec3f { vec_x : f32; vec_y : f32; vec_z : f32 }.

(** A collision surface; [addr] stands for the identity of the object a
    [struct Surface *] points to. *)
Record Surface : Type := mkSurface {
  addr : Z;
  normal : Vec3f;
  type : SurfaceType
}.

Inductive Level : Type := LEVEL_BITFS | LEVEL_LLL | LEVEL_RR | LEVEL_OTHER (num : Z).

Inductive FlyingCarpetState : Type :=
| FLYING_CARPET_IDLE
| FLYING_CARPET_MOVING_WITHOUT_MARIO
| FLYING_CARPET_MOVING_WITH_MARIO.

Inductive MarioAnim : Type :=
| MARIO_ANIM_IDLE_ON_LEDGE
| MARIO_ANIM_FAST_LEDGE_GRAB
| MARIO_ANIM_SLOW_LEDGE_GRAB
| MARIO_ANIM_CLIMB_DOWN_LEDGE
| MARIO_ANIM_OTHER (id : Z).

Inductive ShadowSolidity : Type :=
| SHADOW_SOLIDITY_NO_SHADOW
| SHADOW_SOILDITY_ALREADY_SET
| SHADOW_SOLIDITY_NOT_YET_SET.

Inductive ShadowShapes : Type := SHADOW_SHAPE_CIRCLE | SHADOW_SHAPE_SQUARE.

Record shadowRectangle : Type := mkRect {
  halfWidth : f32;
  halfLength : f32;
  scaleWithDistance : bool
}.

(** [struct Shadow]. *)
Record ShadowT : Type := mkShadow {
  parentPos : Vec3f;
  floorHeight : f32;
  shadowScale : f32;
  floor : option Surface;
  floorPitch : Z;
  floorYaw : Z;
  solidity : Z
}.

(** The globals this file writes: [gCurrShadow] (called [s] in the
    source), [gShadowFlags] and [gCollisionFlags]. *)
Record State : Type := mkState {
  s : ShadowT;
  gShadowFlags : Z;
  gCollisionFlags : Z
}.

Record Vtx : Type := mkVtx {
  v_x : Z; v_y : Z; v_z : Z;
  v_tx : Z; v_ty : Z;
  v_r : Z; v_g : Z; v_b : Z; v_a : Z
}.

Inductive DisplayListName : Type := dl_shadow_circle | dl_shadow_square | dl_shadow_end.

Inductive Gfx : Type :=
| gSPDisplayList (dl : DisplayListName)
| gSPVertex (verts : list Vtx) (n v0 : Z)
| gSPEndDisplayList.

(** Constants and macros of headers that are not among the sources
    ([shadow.h], [surface_collision.h], [math_util.h]); they are taken as
    parameters. *)
Record Consts : Type := mkConsts {
  FLOOR_LOWER_LIMIT_MISC : f32;
  SHADOW_FLAG_WATER_BOX : Z;
  SHADOW_FLAG_WATER_SURFACE : Z;
  SHADOW_FLAG_ICE_CARPET : Z;
  SHADOW_FLAG_RAISED : Z;
  SHADOW_CIRCLE_PLAYER : Z;
  SHADOW_CIRCLE : Z;
  SHADOW_SQUARE_PERMANENT : Z;
  SHADOW_SQUARE_SCALABLE : Z;
  SHADOW_SQUARE_TOGGLABLE : Z;
  SHADOW_RECTANGLE_HARDCODED_OFFSET : Z;
  COLLISION_FLAG_RETURN_FIRST : Z;
  HD_SHADOWS : bool;
  FLT_IS_NONZERO : f32 -> bool
}.

(** What the rest of the engine provides during one build: the collision
    and water queries, the math library, the allocator's answers and the
    globals that are only read. *)
Record World : Type := mkWorld {
  sins : Z -> f32;
  coss : Z -> f32;
  atan2s : f32 -> f32 -> Z;
  sqrtf : f32 -> f32;
  roundf : f32 -> f32;
  find_floor : f32 -> f32 -> f32 -> f32 * option Surface;
  find_water_level : f32 -> f32 -> f32;
  find_water_level_and_floor : f32 -> f32 -> f32 * option Surface;
  get_surface_height_at_location : f32 -> f32 -> Surface -> f32;
  alloc_verts : bool;   (* alloc_display_list(4 * sizeof(Vtx)) != NULL *)
  alloc_gfx : bool;     (* alloc_display_list(5 * sizeof(Gfx)) != NULL *)
  gCurrLevelNum : Level;
  gCurrAreaIndex : Z;
  gFlyingCarpetState : FlyingCarpetState;
  node_is_mario : bool;         (* gCurGraphNodeObjectNode == gMarioObject *)
  node_is_mirror_mario : bool;  (* gCurGraphNodeObject == &gMirrorMario *)
  oFloor : option Surface;
  oFloorHeight : f32;
  oFaceAngleYaw : Z;
  mario_floor : option Surface;  (* gMarioState->floor *)
  mario_floorHeight : f32;       (* gMarioState->floorHeight *)
  animFrame : Z;
  animID : MarioAnim
}.

(** Modelled from the spec: [shadow.h] is missing; the flag set is "reset
    at the start of each build", so the empty set is the zero byte. *)
Definition SHADOW_FLAGS_NONE : Z := 0.

(** Modelled from the spec: the macro [FLOAT_ONE] is missing; the
    synthetic normal is "perfectly flat, upward-facing", so the word
    stored into [n[1]] is the bit pattern of [1.0f]. *)
Definition FLOAT_ONE : Z := 0x3F800000.

(** *** The monad *)

Definition M (A : Type) : Type := State -> res (A * State).

Definition ret {A} (a : A) : M A := fun st => Ok (a, st).

Definition bind {A B} (m : M A) (k : A -> M B) : M B :=
  fun st => match m st with
            | Ok (a, st') => k a st'
            | UB u => UB u
            end.

Definition lift {A} (r : res A) : M A :=
  fun st => match r with Ok a => Ok (a, st) | UB u => UB u end.

Definition get : M State := fun st => Ok (st, st).

Definition upd_s (f : ShadowT -> ShadowT) : M unit :=
  fun st => Ok (tt, mkState (f (s st)) (gShadowFlags st) (gCollisionFlags st)).

Definition upd_flags (f : Z -> Z) : M unit :=
  fun st => Ok (tt, mkState (s st) (f (gShadowFlags st)) (gCollisionFlags st)).

Definition upd_collision (f : Z -> Z) : M unit :=
  fun st => Ok (tt, mkState (s st) (gShadowFlags st) (f (gCollisionFlags st))).

Declare Scope shadow_scope.
Delimit Scope shadow_scope with shadow.
Notation "x <- m ;; k" := (bind m (fun x => k))
  (at level 61, m at next level, right associativity) : shadow_scope.
Notation "' p <- m ;; k" := (bind m (fun x => let p := x in k))
  (at level 61, p pattern, m at next level, right associativity) : shadow_scope.
Notation "m ;; k" := (bind m (fun _ => k))
  (at level 61, right associativity) : shadow_scope.
Local Open Scope shadow_scope.

(** Field assignments of [gCurrShadow]. *)
Definition set_parentPos (v : Vec3f) (w : ShadowT) : ShadowT :=
  mkShadow v (floorHeight w) (shadowScale w) (floor w) (floorPitch w) (floorYaw w) (solidity w).
Definition set_floorHeight (v : f32) (w : ShadowT) : ShadowT :=
  mkShadow (parentPos w) v (shadowScale w) (floor w) (floorPitch w) (floorYaw w) (solidity w).
Definition set_shadowScale (v : f32) (w : ShadowT) : ShadowT :=
  mkShadow (parentPos w) (floorHeight w) v (floor w) (floorPitch w) (floorYaw w) (solidity w).
Definition set_floor (v : option Surface) (w : ShadowT) : ShadowT :=
  mkShadow (parentPos w) (floorHeight w) (shadowScale w) v (floorPitch w) (floorYaw w) (solidity w).
Definition set_floorPitch (v : Z) (w : ShadowT) : ShadowT :=
  mkShadow (parentPos w) (floorHeight w) (shadowScale w) (floor w) v (floorYaw w) (solidity w).
Definition set_floorYaw (v : Z) (w : ShadowT) : ShadowT :=
  mkShadow (parentPos w) (floorHeight w) (shadowScale w) (floor w) (floorPitch w) v (solidity w).
Definition set_solidity (v : Z) (w : ShadowT) : ShadowT :=
  mkShadow (parentPos w) (floorHeight w) (shadowScale w) (floor w) (floorPitch w) (floorYaw w) v.

(** [gShadowFlags] is an [s8]; [flags |= m], [flags &= ~m] and the test
    [flags & m]. *)
Definition flag_set (m : Z) (fl : Z) : Z := wrap_s8 (Z.lor fl m).
Definition flag_clear (m : Z) (fl : Z) : Z := wrap_s8 (Z.land fl (Z.lnot m)).
Definition flag_test (fl m : Z) : bool := negb (Z.land fl m =? 0).

(** [p->field] on a possibly null surface pointer. *)
Definition deref (p : option Surface) : M Surface :=
  match p with
  | Some f => ret f
  | None => lift (UB UB_null_deref)
  end.

(** The float constants of the source. *)
Definition c600 : f32 := Fin (600 * U).
Definition c2 : f32 := Fin (2 * U).

(* ===================================================================== *)
(** ** The functions of shadow.c *)
(* ===================================================================== *)

Section Code.

Variable C : Consts.
Variable W : World.

(** The [rectangles] table. *)
Definition rectangles : list shadowRectangle :=
  [ mkRect (Fin (360 * U)) (Fin (230 * U)) true;   (* Spindels *)
    mkRect (Fin (200 * U)) (Fin (180 * U)) true ]. (* Whomps *)

(** [rectangles[idx]]: C performs the read whatever [idx] is; outside the
    two elements it is undefined. *)
Definition rectangles_at (idx : Z) : res shadowRectangle :=
  if (0 <=? idx) && (idx <? 2) then
    match nth_error rectangles (Z.to_nat idx) with
    | Some r => Ok r
    | None => UB UB_out_of_bounds
    end
  else UB UB_out_of_bounds.

(** Returns [(newZ, newX)]. *)
Definition rotate_rectangle (oldZ oldX : f32) : f32 * f32 :=
  let sinYaw := sins W (oFaceAngleYaw W) in
  let cosYaw := coss W (oFaceAngleYaw W) in
  (fsub (fmul oldZ cosYaw) (fmul oldX sinYaw),
   fadd (fmul oldZ sinYaw) (fmul oldX cosYaw)).

Definition scale_shadow_with_distance (initial distFromFloor : f32) : f32 :=
  if fle distFromFloor zero then initial
  else if fge distFromFloor c600 then fmul initial half
  else fmul initial (fsub one (fdiv (fmul distFromFloor half) c600)).

(** Returns an [s32]. *)
Definition dim_shadow_with_distance (solidity : Z) (distFromFloor : f32) : res Z :=
  if solidity <? 121 then Ok solidity
  else if fle distFromFloor zero then Ok solidity
  else if fge distFromFloor c600 then Ok 120
  else f32_to_s32
         (fadd (fdiv (fmul (of_int (120 - solidity)) distFromFloor) c600)
               (of_int solidity)).

(** Returns the water level and the pointer left in [*waterFloor] (null
    on entry, see [init_shadow]). *)
Definition get_water_level_below_shadow : M (f32 * option Surface) :=
  st <- get ;;
  let '(waterLevel, waterFloor) :=
    find_water_level_and_floor W (vec_x (parentPos (s st))) (vec_z (parentPos (s st))) in
  if flt waterLevel (FLOOR_LOWER_LIMIT_MISC C) then
    ret (FLOOR_LOWER_LIMIT_MISC C, waterFloor)
  else
    (if fge (vec_y (parentPos (s st))) waterLevel
        && fle (floorHeight (s st)) waterLevel
     then upd_flags (flag_set (SHADOW_FLAG_WATER_BOX C))
     else ret tt) ;;
    ret (waterLevel, waterFloor).

(** Lines 166-198 of [init_shadow]: the water query and the choice of the
    floor.  [None] stands for the early [return TRUE], [Some n] carries the
    local normal [n] on to the rest of the function. *)
Definition init_shadow_resolve : M (option Vec3f) :=
  '(waterLevel, waterFloor) <- get_water_level_below_shadow ;;
  st <- get ;;
  f <- deref (floor (s st)) ;;
  let n := normal f in
  if flag_test (gShadowFlags st) (SHADOW_FLAG_WATER_BOX C) then
    upd_s (set_floorHeight waterLevel) ;;
    match waterFloor with
    | Some wf =>
        upd_s (set_floor (Some wf)) ;;
        upd_flags (flag_clear (SHADOW_FLAG_WATER_BOX C)) ;;
        upd_flags (flag_set (SHADOW_FLAG_WATER_SURFACE C)) ;;
        upd_s (set_solidity 200) ;;
        ret (Some n)
    | None =>
        upd_flags (flag_clear (SHADOW_FLAG_WATER_SURFACE C)) ;;
        (* Assume that the water is flat. *)
        ret (Some (mkVec3f zero (of_bits FLOAT_ONE) zero))
    end
  else
    if fle (vec_y n) zero || flt (floorHeight (s st)) (FLOOR_LOWER_LIMIT_MISC C)
    then ret None
    else ret (Some n).

(** Lines 200-217 of [init_shadow]. *)
Definition init_shadow_attenuate (yPos : f32) (shadowScale overwriteSolidity : Z)
    (n : Vec3f) : M unit :=
  st <- get ;;
  let dy := fsub yPos (floorHeight (s st)) in
  (if negb (overwriteSolidity =? 0) then
     v <- lift (dim_shadow_with_distance overwriteSolidity dy) ;;
     upd_s (set_solidity (wrap_u8 v))
   else ret tt) ;;
  upd_s (set_shadowScale (scale_shadow_with_distance (of_int shadowScale) dy)) ;;
  let floorSteepness := fadd (fmul (vec_x n) (vec_x n)) (fmul (vec_z n) (vec_z n)) in
  if FLT_IS_NONZERO C floorSteepness then
    upd_s (set_floorPitch (wrap_s16 (0x4000 - atan2s W (sqrtf W floorSteepness) (vec_y n)))) ;;
    upd_s (set_floorYaw (atan2s W (vec_z n) (vec_x n)))
  else
    upd_s (set_floorPitch 0) ;;
    upd_s (set_floorYaw 0).

(** Returns [true] for C's [TRUE] (failure). *)
Definition init_shadow (xPos yPos zPos : f32) (shadowScale overwriteSolidity : Z) : M bool :=
  upd_s (set_parentPos (mkVec3f xPos yPos zPos)) ;;
  r <- init_shadow_resolve ;;
  match r with
  | None => ret true
  | Some n =>
      init_shadow_attenuate yPos shadowScale overwriteSolidity n ;;
      ret false
  end.

(** Returns [(textureX, textureY)]. *)
Definition get_texture_coords (vertexNum : Z) : Z * Z :=
  if HD_SHADOWS C then
    (wrap_s16 (Z.land vertexNum 1 * 127 - 63), wrap_s16 (Z.shiftr vertexNum 1 * 127 - 63))
  else
    (wrap_s16 (Z.land vertexNum 1 * 31 - 15), wrap_s16 (Z.shiftr vertexNum 1 * 31 - 15)).

(** [make_vertex] of geo_misc.c is not among the sources; it stores its
    arguments in [vertices[index]]. *)
Fixpoint store_vtx (vertices : list Vtx) (index : nat) (v : Vtx) : list Vtx :=
  match vertices, index with
  | [], _ => []
  | _ :: tl, O => v :: tl
  | hd :: tl, S i => hd :: store_vtx tl i v
  end.

Definition make_vertex (vertices : list Vtx) (index x y z tx ty r g b a : Z) : list Vtx :=
  store_vtx vertices (Z.to_nat index) (mkVtx x y z tx ty r g b a).

Definition make_shadow_vertex_at_xyz (vertices : list Vtx) (index : Z)
    (relX relY relZ : f32) (alpha : Z) : M (list Vtx) :=
  vtxY <- lift (f32_to_s16 (roundf W relY)) ;;
  let '(textureX, textureY) := get_texture_coords index in
  st <- get ;;
  (* Move the shadow up slightly while standing on a flying carpet. *)
  let vtxY := if flag_test (gShadowFlags st) (SHADOW_FLAG_RAISED C)
              then wrap_s16 (vtxY + 5) else vtxY in
  vtxX <- lift (f32_to_s16 (roundf W relX)) ;;
  vtxZ <- lift (f32_to_s16 (roundf W relZ)) ;;
  ret (make_vertex vertices index vtxX vtxY vtxZ
         (wrap_s16 (Z.shiftl textureX 5)) (wrap_s16 (Z.shiftl textureY 5))
         255 255 255 alpha).

(** Returns [(xCoord, zCoord)]. *)
Definition get_vertex_coords (index : Z) : Z * Z :=
  let xCoord := wrap_s8 (Z.land index 1 - 1) in
  let zCoord := wrap_s8 (Z.shiftr index 1 - 1) in
  (if xCoord =? 0 then 1 else xCoord, if zCoord =? 0 then 1 else zCoord).

(** Returns [(xPosVtx, yPosVtx, zPosVtx)]. *)
Definition calculate_vertex_xyz (index : Z) : M (f32 * f32 * f32) :=
  st <- get ;;
  let tiltedScale := fmul (coss W (floorPitch (s st))) (shadowScale (s st)) in
  let downwardAngle := floorYaw (s st) in
  let '(xCoordUnit, zCoordUnit) := get_vertex_coords index in
  let halfScale := fdiv (fmul (of_int xCoordUnit) (shadowScale (s st))) c2 in
  let halfTiltedScale := fdiv (fmul (of_int zCoordUnit) tiltedScale) c2 in
  let sinYaw := sins W downwardAngle in
  let cosYaw := coss W downwardAngle in
  let xPosVtx := fadd (fadd (fmul halfTiltedScale sinYaw) (fmul halfScale cosYaw))
                      (vec_x (parentPos (s st))) in
  let zPosVtx := fadd (fsub (fmul halfTiltedScale cosYaw) (fmul halfScale sinYaw))
                      (vec_z (parentPos (s st))) in
  if flag_test (gShadowFlags st) (SHADOW_FLAG_WATER_BOX C) then
    ret (xPosVtx, floorHeight (s st), zPosVtx)
  else
    f <- deref (floor (s st)) ;;
    ret (xPosVtx, get_surface_height_at_location W xPosVtx zPosVtx f, zPosVtx).

Definition make_shadow_vertex (vertices : list Vtx) (index : Z) : M (list Vtx) :=
  st <- get ;;
  let solidity := solidity (s st) in
  let solidity := if flag_test (gShadowFlags st) (SHADOW_FLAG_WATER_BOX C)
                  then 200 else solidity in
  '(px, py, pz) <- calculate_vertex_xyz index ;;
  let relX := fsub px (vec_x (parentPos (s st))) in
  let relY := fsub py (vec_y (parentPos (s st))) in
  let relZ := fsub pz (vec_z (parentPos (s st))) in
  make_shadow_vertex_at_xyz vertices index relX relY relZ solidity.

(** The four commands written at [displayListHead]. *)
Definition add_shadow_to_display_list (verts : list Vtx) (shadowShape : ShadowShapes)
    : list Gfx :=
  (match shadowShape with
   | SHADOW_SHAPE_CIRCLE => gSPDisplayList dl_shadow_circle
   | SHADOW_SHAPE_SQUARE => gSPDisplayList dl_shadow_square
   end)
  :: gSPVertex verts 4 0
  :: gSPDisplayList dl_shadow_end
  :: gSPEndDisplayList
  :: [].

Definition linearly_interpolate_solidity_positive (finalSolidity curr start end_ : Z)
    : M unit :=
  if (0 <=? curr) && (curr <? start) then
    upd_s (set_solidity 0)
  else if end_ <? curr then
    upd_s (set_solidity finalSolidity)
  else
    v <- lift (f32_to_u8 (fdiv (fmul (of_int finalSolidity) (of_int (curr - start)))
                               (of_int (end_ - start)))) ;;
    upd_s (set_solidity v).

Definition linearly_interpolate_solidity_negative (initialSolidity curr start end_ : Z)
    : M unit :=
  if (start <=? curr) && (curr <=? end_) then
    v <- lift (f32_to_u8
                 (fmul (of_int initialSolidity)
                       (fsub one (fdiv (of_int (curr - start)) (of_int (end_ - start)))))) ;;
    upd_s (set_solidity v)
  else
    upd_s (set_solidity 0).

Definition correct_shadow_solidity_for_animations (initialSolidity : Z)
    : M ShadowSolidity :=
  let animFrame := animFrame W in
  match animID W with
  | MARIO_ANIM_IDLE_ON_LEDGE =>
      ret SHADOW_SOLIDITY_NO_SHADOW
  | MARIO_ANIM_FAST_LEDGE_GRAB =>
      linearly_interpolate_solidity_positive initialSolidity animFrame 5 14 ;;
      ret SHADOW_SOILDITY_ALREADY_SET
  | MARIO_ANIM_SLOW_LEDGE_GRAB =>
      linearly_interpolate_solidity_positive initialSolidity animFrame 21 33 ;;
      ret SHADOW_SOILDITY_ALREADY_SET
  | MARIO_ANIM_CLIMB_DOWN_LEDGE =>
      linearly_interpolate_solidity_negative initialSolidity animFrame 0 5 ;;
      ret SHADOW_SOILDITY_ALREADY_SET
  | MARIO_ANIM_OTHER _ =>
      ret SHADOW_SOLIDITY_NOT_YET_SET
  end.

Definition correct_lava_shadow_height : M unit :=
  st <- get ;;
  f <- deref (floor (s st)) ;;
  let tyoe := type f in
  match gCurrLevelNum W, tyoe with
  | LEVEL_BITFS, SURFACE_BURNING =>
      if flt (floorHeight (s st)) (of_int (-3000)) then
        upd_s (set_floorHeight (of_int (-3062))) ;;
        upd_flags (flag_set (SHADOW_FLAG_WATER_BOX C))
      else if fgt (floorHeight (s st)) (of_int 3400) then
        upd_s (set_floorHeight (of_int 3492)) ;;
        upd_flags (flag_set (SHADOW_FLAG_WATER_BOX C))
      else ret tt
  | LEVEL_LLL, SURFACE_BURNING =>
      if gCurrAreaIndex W =? 1 then
        upd_s (set_floorHeight (of_int 5)) ;;
        upd_flags (flag_set (SHADOW_FLAG_WATER_BOX C))
      else ret tt
  | _, _ => ret tt
  end.

(** The buffer [alloc_display_list(4 * sizeof(Vtx))] hands out; all four
    entries are written before the buffer is used. *)
Definition fresh_verts : list Vtx :=
  repeat (mkVtx 0 0 0 0 0 0 0 0 0) 4.

(** The [for (i = 0; i < 4; i++) make_shadow_vertex(verts, i)] loop. *)
Definition make_shadow_vertices (verts : list Vtx) : M (list Vtx) :=
  v <- make_shadow_vertex verts 0 ;;
  v <- make_shadow_vertex v 1 ;;
  v <- make_shadow_vertex v 2 ;;
  make_shadow_vertex v 3.

(** [None] is the null display list ("no shadow"). *)
Definition create_shadow_player (xPos yPos zPos : f32) (shadowScale solidity : Z)
    : M (option (list Gfx)) :=
  (* Update global variables about whether Mario is on a flying carpet. *)
  (match gCurrLevelNum W with
   | LEVEL_RR =>
       st <- get ;;
       f <- deref (floor (s st)) ;;
       match type f with
       | SURFACE_DEATH_PLANE => ret tt
       | _ =>
           match gFlyingCarpetState W with
           | FLYING_CARPET_MOVING_WITHOUT_MARIO =>
               upd_flags (flag_set (Z.lor (SHADOW_FLAG_ICE_CARPET C) (SHADOW_FLAG_RAISED C)))
           | FLYING_CARPET_MOVING_WITH_MARIO =>
               upd_flags (flag_set (SHADOW_FLAG_ICE_CARPET C))
           | FLYING_CARPET_IDLE => ret tt
           end
       end
   | _ => ret tt
   end) ;;
  a <- correct_shadow_solidity_for_animations solidity ;;
  match a with
  | SHADOW_SOLIDITY_NO_SHADOW => ret None
  | _ =>
      noShadow <- (match a with
                   | SHADOW_SOILDITY_ALREADY_SET =>
                       init_shadow xPos yPos zPos shadowScale 0
                   | _ =>
                       init_shadow xPos yPos zPos shadowScale solidity
                   end) ;;
      if noShadow then ret None
      else if negb (alloc_verts W && alloc_gfx W) then ret None
      else
        correct_lava_shadow_height ;;
        verts <- make_shadow_vertices fresh_verts ;;
        ret (Some (add_shadow_to_display_list verts SHADOW_SHAPE_CIRCLE))
  end.

Definition create_shadow_circle (xPos yPos zPos : f32) (shadowScale solidity : Z)
    : M (option (list Gfx)) :=
  noShadow <- init_shadow xPos yPos zPos shadowScale solidity ;;
  if noShadow then ret None
  else if negb (alloc_verts W && alloc_gfx W) then ret None
  else
    verts <- make_shadow_vertices fresh_verts ;;
    ret (Some (add_shadow_to_display_list verts SHADOW_SHAPE_CIRCLE)).

Definition create_shadow_circle_assuming_flat_ground (xPos yPos zPos : f32)
    (shadowScale solidity : Z) : M (option (list Gfx)) :=
  st <- get ;;
  let floorHeight := floorHeight (s st) in
  let radius := of_int (Z.quot shadowScale 2) in
  if flt floorHeight (FLOOR_LOWER_LIMIT_MISC C) then ret None
  else
    let distBelowFloor := fsub floorHeight yPos in
    if negb (alloc_verts W && alloc_gfx W) then ret None
    else
      v <- make_shadow_vertex_at_xyz fresh_verts 0 (fneg radius) distBelowFloor (fneg radius) solidity ;;
      v <- make_shadow_vertex_at_xyz v 1 radius distBelowFloor (fneg radius) solidity ;;
      v <- make_shadow_vertex_at_xyz v 2 (fneg radius) distBelowFloor radius solidity ;;
      v <- make_shadow_vertex_at_xyz v 3 radius distBelowFloor radius solidity ;;
      ret (Some (add_shadow_to_display_list v SHADOW_SHAPE_CIRCLE)).

Definition create_shadow_rectangle (halfWidth halfLength relY : f32) (solidity : Z)
    : M (option (list Gfx)) :=
  if negb (alloc_verts W && alloc_gfx W) then ret None
  else
    (* Rotate the shadow based on the parent object's face angle. *)
    let '(frontLeftZ, frontLeftX) := rotate_rectangle (fneg halfLength) (fneg halfWidth) in
    let '(frontRightZ, frontRightX) := rotate_rectangle (fneg halfLength) halfWidth in
    let '(backLeftZ, backLeftX) := rotate_rectangle halfLength (fneg halfWidth) in
    let '(backRightZ, backRightX) := rotate_rectangle halfLength halfWidth in
    v <- make_shadow_vertex_at_xyz fresh_verts 0 frontLeftX relY frontLeftZ solidity ;;
    v <- make_shadow_vertex_at_xyz v 1 frontRightX relY frontRightZ solidity ;;
    v <- make_shadow_vertex_at_xyz v 2 backLeftX relY backLeftZ solidity ;;
    v <- make_shadow_vertex_at_xyz v 3 backRightX relY backRightZ solidity ;;
    ret (Some (add_shadow_to_display_list v SHADOW_SHAPE_SQUARE)).

(** Returns [(result, *shadowHeight, *solidity)]; [result = true] is C's
    [TRUE]: no shadow. *)
Definition get_shadow_height_solidity (xPos yPos zPos : f32) (solidity : Z)
    : M (bool * f32 * Z) :=
  st <- get ;;
  let shadowHeight := floorHeight (s st) in
  if flt shadowHeight (FLOOR_LOWER_LIMIT_MISC C) then
    ret (true, shadowHeight, solidity)
  else
    let waterLevel := find_water_level W xPos zPos in
    if flt waterLevel (FLOOR_LOWER_LIMIT_MISC C) then
      (* Dead if-statement. *)
      ret (false, shadowHeight, solidity)
    else if fge yPos waterLevel && fge waterLevel shadowHeight then
      upd_flags (flag_set (SHADOW_FLAG_WATER_BOX C)) ;;
      ret (false, waterLevel, 200)
    else
      ret (false, shadowHeight, solidity).

Definition create_shadow_square (xPos yPos zPos : f32) (shadowScale solidity shadowType : Z)
    : M (option (list Gfx)) :=
  '(noShadow, shadowHeight, solidity) <- get_shadow_height_solidity xPos yPos zPos solidity ;;
  if (noShadow : bool) then ret None
  else
    let distFromShadow := fsub yPos shadowHeight in
    if shadowType =? SHADOW_SQUARE_PERMANENT C then
      let shadowRadius := of_int (Z.shiftr shadowScale 1) in
      create_shadow_rectangle shadowRadius shadowRadius (fneg distFromShadow) solidity
    else if shadowType =? SHADOW_SQUARE_SCALABLE C then
      let shadowRadius :=
        fmul (scale_shadow_with_distance (of_int shadowScale) distFromShadow) half in
      create_shadow_rectangle shadowRadius shadowRadius (fneg distFromShadow) solidity
    else if shadowType =? SHADOW_SQUARE_TOGGLABLE C then
      let shadowRadius :=
        if fge distFromShadow c600 then zero else of_int (Z.shiftr shadowScale 1) in
      create_shadow_rectangle shadowRadius shadowRadius (fneg distFromShadow) solidity
    else ret None.

Definition create_shadow_hardcoded_rectangle (xPos yPos zPos : f32)
    (shadowScale solidity shadowType : Z) : M (option (list Gfx)) :=
  let idx := wrap_s8 (shadowType - SHADOW_RECTANGLE_HARDCODED_OFFSET C) in
  '(noShadow, shadowHeight, solidity) <- get_shadow_height_solidity xPos yPos zPos solidity ;;
  if (noShadow : bool) then ret None
  else
    let distFromShadow := fsub yPos shadowHeight in
    r <- lift (rectangles_at idx) ;;
    let '(halfWidth, halfLength) :=
      if scaleWithDistance r then
        (scale_shadow_with_distance (halfWidth r) distFromShadow,
         scale_shadow_with_distance (halfLength r) distFromShadow)
      else (halfWidth r, halfLength r) in
    create_shadow_rectangle halfWidth halfLength (fneg distFromShadow) solidity.

(** Lines 635-648 of [create_shadow_below_xyz]: use an existing floor
    before finding a new one.  Returns [false] for the [return NULL] taken
    when [find_floor] finds nothing. *)
Definition create_shadow_below_xyz_floor (xPos yPos zPos : f32) : M bool :=
  if node_is_mario W then
    upd_s (set_floor (mario_floor W)) ;;
    upd_s (set_floorHeight (mario_floorHeight W)) ;;
    ret true
  else if negb (node_is_mirror_mario W)
          && (match oFloor W with Some _ => true | None => false end) then
    upd_s (set_floor (oFloor W)) ;;
    upd_s (set_floorHeight (oFloorHeight W)) ;;
    ret true
  else
    upd_collision (fun fl => Z.lor fl (COLLISION_FLAG_RETURN_FIRST C)) ;;
    let '(height, fl) := find_floor W xPos yPos zPos in
    upd_s (set_floorHeight height) ;;
    upd_s (set_floor fl) ;;
    ret (match fl with Some _ => true | None => false end).

(** Lines 650-662 of [create_shadow_below_xyz]: the flag reset and the
    dispatch on [shadowType]. *)
Definition create_shadow_below_xyz_dispatch (xPos yPos zPos : f32)
    (shadowScale shadowSolidity shadowType : Z) : M (option (list Gfx)) :=
  upd_flags (fun _ => SHADOW_FLAGS_NONE) ;;
  st <- get ;;
  f <- deref (floor (s st)) ;;
  (match type f with
   | SURFACE_ICE => upd_flags (flag_set (SHADOW_FLAG_ICE_CARPET C))
   | _ => ret tt
   end) ;;
  if shadowType =? SHADOW_CIRCLE_PLAYER C then
    create_shadow_player xPos yPos zPos shadowScale shadowSolidity
  else if shadowType =? SHADOW_CIRCLE C then
    create_shadow_circle xPos yPos zPos shadowScale shadowSolidity
  else if (shadowType =? SHADOW_SQUARE_PERMANENT C)
          || (shadowType =? SHADOW_SQUARE_SCALABLE C)
          || (shadowType =? SHADOW_SQUARE_TOGGLABLE C) then
    create_shadow_square xPos yPos zPos shadowScale shadowSolidity shadowType
  else
    create_shadow_hardcoded_rectangle xPos yPos zPos shadowScale shadowSolidity shadowType.

Definition create_shadow_below_xyz (xPos yPos zPos : f32)
    (shadowScale shadowSolidity shadowType : Z) : M (option (list Gfx)) :=
  found <- create_shadow_below_xyz_floor xPos yPos zPos ;;
  if (found : bool) then
    create_shadow_below_xyz_dispatch xPos yPos zPos shadowScale shadowSolidity shadowType
  else ret None.

End Code.

End Shadow.


(* ===================================================================== *)
(** ** Vocabulary of the statements *)
(* ===================================================================== *)

Import F32 Shadow.
Local Open Scope shadow_scope.

(** Ranges of the C integer types of the arguments. *)
Definition is_u8 (z : Z) : Prop := 0 <= z <= 255.
Definition is_s16 (z : Z) : Prop := -32768 <= z <= 32767.

(** The four flags of [shadow.h] are distinct bits of the (signed) flag
    byte: non-zero masks below 128 that do not overlap. *)
Definition is_mask (m : Z) : bool := (0 <? m) && (m <? 128).

Definition disjoint (a b : Z) : bool := Z.land a b =? 0.

Definition wf_flags (C : Consts) : bool :=
  is_mask (SHADOW_FLAG_WATER_BOX C) && is_mask (SHADOW_FLAG_WATER_SURFACE C)
  && is_mask (SHADOW_FLAG_ICE_CARPET C) && is_mask (SHADOW_FLAG_RAISED C)
  && disjoint (SHADOW_FLAG_WATER_BOX C) (SHADOW_FLAG_WATER_SURFACE C)
  && disjoint (SHADOW_FLAG_WATER_BOX C) (SHADOW_FLAG_ICE_CARPET C)
  && disjoint (SHADOW_FLAG_WATER_BOX C) (SHADOW_FLAG_RAISED C)
  && disjoint (SHADOW_FLAG_WATER_SURFACE C) (SHADOW_FLAG_ICE_CARPET C)
  && disjoint (SHADOW_FLAG_WATER_SURFACE C) (SHADOW_FLAG_RAISED C)
  && disjoint (SHADOW_FLAG_ICE_CARPET C) (SHADOW_FLAG_RAISED C).

(** States that differ from [st] in one place. *)
Definition with_parentPos (x y z : f32) (st : State) : State :=
  mkState (set_parentPos (mkVec3f x y z) (s st)) (gShadowFlags st) (gCollisionFlags st).

Definition with_solidity (v : Z) (st : State) : State :=
  mkState (set_solidity v (s st)) (gShadowFlags st) (gCollisionFlags st).

Definition with_flags (fl : Z) (st : State) : State :=
  mkState (s st) fl (gCollisionFlags st).

Definition with_floor (fl : option Surface) (h : f32) (w : ShadowT) : ShadowT :=
  mkShadow (parentPos w) h (shadowScale w) fl (floorPitch w) (floorYaw w) (solidity w).

(** The output of a run, without the final state, and the state a run
    ends in. *)
Definition output_of {A} (r : res (A * State)) : res A :=
  match r with
  | Ok (a, _) => Ok a
  | UB k => UB k
  end.

Definition state_of {A} (r : res (A * State)) (default : State) : State :=
  match r with
  | Ok (_, st) => st
  | UB _ => default
  end.

(** The alphas of the vertices of a display list. *)
Definition alphas (dl : option (list Gfx)) : list Z :=
  match dl with
  | Some (_ :: gSPVertex verts _ _ :: _) => map v_a verts
  | _ => []
  end.

(** *** Distance attenuation *)

(** The rounded intermediate results of [1.0f - ((dist * 0.5f) / 600.0f)],
    in units, for a finite [dist] of [n] units. *)
Definition scale_half (n : Z) : Z := round_units (inject_Z (n * 2 ^ 148) / inject_Z U).
Definition scale_quot (n : Z) : Z :=
  round_units (inject_Z (scale_half n * U) / inject_Z (600 * U)).
Definition scale_factor (n : Z) : Z := round_units (inject_Z (U + - scale_quot n)).

(** The rounded intermediate results of
    [((120 - solidity) * dist) / 600.0f + (f32) solidity], in units, for a
    finite [dist] of [n] units. *)
Definition dim_prod (u n : Z) : Z := round_units (inject_Z ((120 - u) * n)).
Definition dim_quot (u n : Z) : Z :=
  round_units (inject_Z (dim_prod u n * U) / inject_Z (600 * U)).
Definition dim_raw (u n : Z) : Z := round_units (inject_Z (dim_quot u n + u * U)).

(** The value [dim_shadow_with_distance u] returns for a distance that is
    not a NaN, when [u >= 121]. *)
Definition dim_val (u : Z) (d : f32) : Z :=
  match d with
  | NaN => 0
  | Inf true => u
  | Inf false => 120
  | Fin n => if n <=? 0 then u
             else if 600 * U <=? n then 120
             else Z.quot (dim_raw u n) U
  end.

(** *** Animation easing *)

(** The three rounded intermediate results of the ease-out expression
    [initial * (1.0f - (f32) c / e)], in units. *)
Definition easeout_quot (c e : Z) : Z :=
  round_units (inject_Z (c * U * U) / inject_Z (e * U)).
Definition easeout_factor (c e : Z) : Z :=
  round_units (inject_Z (U + - easeout_quot c e)).
Definition easeout_raw (initial c e : Z) : Z :=
  round_units (inject_Z (initial * easeout_factor c e)).

(** *** Floor and water *)

(** The test of lines 144-147 of [get_water_level_below_shadow]: the water
    level is not below the limit, the parent is at or above it and the
    floor at or below it. *)
Definition over_water_box (C : Consts) (W : World) (x y z floorHeight : f32) : bool :=
  let '(waterLevel, _) := find_water_level_and_floor W x z in
  negb (flt waterLevel (FLOOR_LOWER_LIMIT_MISC C))
  && (fge y waterLevel && fle floorHeight waterLevel).


(** The floor and floor height lines 636-648 of [create_shadow_below_xyz]
    store, and whether the build goes on. *)
Definition floor_below (W : World) (x y z : f32) : bool * option Surface * f32 :=
  if node_is_mario W then (true, mario_floor W, mario_floorHeight W)
  else if negb (node_is_mirror_mario W)
          && (match oFloor W with Some _ => true | None => false end)
  then (true, oFloor W, oFloorHeight W)
  else let '(height, fl) := find_floor W x y z in
       (match fl with Some _ => true | None => false end, fl, height).

(** The flags after lines 650-653. *)
Definition ice_flags (C : Consts) (f : Surface) : Z :=
  match type f with
  | SURFACE_ICE => flag_set (SHADOW_FLAG_ICE_CARPET C) SHADOW_FLAGS_NONE
  | _ => SHADOW_FLAGS_NONE
  end.

(** *** Parts of the dispatcher and of the player strategy *)

(** The [switch (shadowType)] of [create_shadow_below_xyz]. *)
Definition type_switch (C : Consts) (W : World) (x y z : f32) (sc sol shadowType : Z)
    : M (option (list Gfx)) :=
  if shadowType =? SHADOW_CIRCLE_PLAYER C then
    create_shadow_player C W x y z sc sol
  else if shadowType =? SHADOW_CIRCLE C then
    create_shadow_circle C W x y z sc sol
  else if (shadowType =? SHADOW_SQUARE_PERMANENT C)
          || (shadowType =? SHADOW_SQUARE_SCALABLE C)
          || (shadowType =? SHADOW_SQUARE_TOGGLABLE C) then
    create_shadow_square C W x y z sc sol shadowType
  else
    create_shadow_hardcoded_rectangle C W x y z sc sol shadowType.

(** The flying-carpet prefix of [create_shadow_player]. *)
Definition player_carpet (C : Consts) (W : World) : M unit :=
  match gCurrLevelNum W with
  | LEVEL_RR =>
      st <- get ;;
      f <- deref (floor (s st)) ;;
      match type f with
      | SURFACE_DEATH_PLANE => ret tt
      | _ =>
          match gFlyingCarpetState W with
          | FLYING_CARPET_MOVING_WITHOUT_MARIO =>
              upd_flags (flag_set (Z.lor (SHADOW_FLAG_ICE_CARPET C) (SHADOW_FLAG_RAISED C)))
          | FLYING_CARPET_MOVING_WITH_MARIO =>
              upd_flags (flag_set (SHADOW_FLAG_ICE_CARPET C))
          | FLYING_CARPET_IDLE => ret tt
          end
      end
  | _ => ret tt
  end.

(** The rest of [create_shadow_player]. *)
Definition player_tail (C : Consts) (W : World) (x y z : f32) (sc sol : Z)
    : M (option (list Gfx)) :=
  a <- correct_shadow_solidity_for_animations W sol ;;
  match a with
  | SHADOW_SOLIDITY_NO_SHADOW => ret None
  | _ =>
      noShadow <- (match a with
                   | SHADOW_SOILDITY_ALREADY_SET => init_shadow C W x y z sc 0
                   | _ => init_shadow C W x y z sc sol
                   end) ;;
      if noShadow then ret None
      else if negb (alloc_verts W && alloc_gfx W) then ret None
      else
        correct_lava_shadow_height C W ;;
        verts <- make_shadow_vertices C W fresh_verts ;;
        ret (Some (add_shadow_to_display_list verts SHADOW_SHAPE_CIRCLE))
  end.


(** The alpha [make_shadow_vertex] emits. *)
Definition emitted_alpha (C : Consts) (st : State) : Z :=
  if flag_test (gShadowFlags st) (SHADOW_FLAG_WATER_BOX C) then 200 else solidity (s st).

(** *** Corners *)

(** The corner of the quad a pair of coordinates lies in. *)
Definition corner_of (p : Z * Z) : Z * Z := (Z.sgn (fst p), Z.sgn (snd p)).

Definition corners : list (Z * Z) := [(-1, -1); (1, -1); (-1, 1); (1, 1)].

(** *** Shadow types *)

(** The shadow types with a case of their own and the two types whose
    index into [rectangles] is valid. *)
Definition recognised_or_valid (C : Consts) : list Z :=
  [ SHADOW_CIRCLE_PLAYER C; SHADOW_CIRCLE C; SHADOW_SQUARE_PERMANENT C;
    SHADOW_SQUARE_SCALABLE C; SHADOW_SQUARE_TOGGLABLE C;
    wrap_s8 (SHADOW_RECTANGLE_HARDCODED_OFFSET C);
    wrap_s8 (SHADOW_RECTANGLE_HARDCODED_OFFSET C + 1) ].

Definition candidates : list Z := [-128; -127; -126; -125; -124; -123; -122; -121].

(** *** Independence of the earlier workspace *)

(** [reframe w r]: the run [r] with the workspace of its final state
    replaced by [w]. *)
Definition reframe {A} (w : ShadowT) (r : res (A * State)) : res (A * State) :=
  match r with
  | Ok (a, st) => Ok (a, mkState w (gShadowFlags st) (gCollisionFlags st))
  | UB k => UB k
  end.

(** A computation that reads nothing of the workspace but the floor
    height and writes nothing of it. *)
Definition frame_eq {A} (m : M A) : Prop :=
  forall w w' fl cf, floorHeight w = floorHeight w' ->
    m (mkState w fl cf) = reframe w (m (mkState w' fl cf)).

(** Two runs of [init_shadow], or of a whole build, that end alike: the
    same undefined behaviour, or both "no shadow", or the same result in
    the same final state. *)
Definition init_alike (r r' : res (bool * State)) : Prop :=
  match r, r' with
  | UB k, UB k' => k = k'
  | Ok (true, _), Ok (true, _) => True
  | Ok (false, st), Ok (false, st') => st = st'
  | _, _ => False
  end.

Definition build_alike (r r' : res (option (list Gfx) * State)) : Prop :=
  match r, r' with
  | UB k, UB k' => k = k'
  | Ok (None, _), Ok (None, _) => True
  | Ok (Some dl, st), Ok (Some dl', st') => dl = dl' /\ st = st'
  | _, _ => False
  end.

(** Workspaces that agree on the floor and its height. *)
Definition same_floor (w w' : ShadowT) : Prop :=
  floor w = floor w' /\ floorHeight w = floorHeight w'.

(** *** A concrete build configuration and concrete worlds *)

(** The values the missing headers have upstream: the flags are bits 0-3,
    the lower limit is -10000, [FLT_IS_NONZERO(x)] is [|x| > FLT_EPSILON]. *)
Definition sample_consts : Consts :=
  {| FLOOR_LOWER_LIMIT_MISC := of_int (-10000);
     SHADOW_FLAG_WATER_BOX := 1;
     SHADOW_FLAG_WATER_SURFACE := 2;
     SHADOW_FLAG_ICE_CARPET := 4;
     SHADOW_FLAG_RAISED := 8;
     SHADOW_CIRCLE_PLAYER := 99;
     SHADOW_CIRCLE := 1;
     SHADOW_SQUARE_PERMANENT := 10;
     SHADOW_SQUARE_SCALABLE := 11;
     SHADOW_SQUARE_TOGGLABLE := 12;
     SHADOW_RECTANGLE_HARDCODED_OFFSET := 50;
     COLLISION_FLAG_RETURN_FIRST := 1;
     HD_SHADOWS := false;
     FLT_IS_NONZERO := fun a => match a with
                               | NaN => false
                               | Inf _ => true
                               | Fin n => 2 ^ 126 <? Z.abs n
                               end |}.

(** [roundf]: to the nearest integer, halfway cases away from zero. *)
Definition roundf_model (a : f32) : f32 :=
  match a with
  | Fin n => Fin (Z.sgn n * ((Z.abs n + 2 ^ 148) / U) * U)
  | _ => a
  end.

Definition flat_floor : Surface := mkSurface 1 (mkVec3f zero one zero) (SURFACE_OTHER 0).
Definition lava_floor : Surface := mkSurface 2 (mkVec3f zero one zero) SURFACE_BURNING.
Definition water_surface : Surface := mkSurface 3 (mkVec3f zero one zero) (SURFACE_OTHER 13).

(** A world with one flat floor [fl] at height [h] under every point,
    water as [water] tells, and Mario (when [mario]) as the object whose
    shadow is built.  Every object faces angle 0 and every floor is flat,
    so that [sins] and [coss] are only asked about the angle 0, and
    [atan2s] and [sqrtf] are not called. *)
Definition make_world (h : f32) (fl : Surface) (water : f32 * option Surface)
    (level : Level) (mario : bool) (anim : MarioAnim) (frame : Z) : World :=
  {| sins := fun _ => zero;
     coss := fun _ => one;
     atan2s := fun _ _ => 0;
     sqrtf := fun a => a;
     roundf := roundf_model;
     find_floor := fun _ _ _ => (h, Some fl);
     find_water_level := fun _ _ => fst water;
     find_water_level_and_floor := fun _ _ => water;
     get_surface_height_at_location := fun _ _ _ => h;
     alloc_verts := true;
     alloc_gfx := true;
     gCurrLevelNum := level;
     gCurrAreaIndex := 1;
     gFlyingCarpetState := FLYING_CARPET_IDLE;
     node_is_mario := mario;
     node_is_mirror_mario := false;
     oFloor := None;
     oFloorHeight := zero;
     oFaceAngleYaw := 0;
     mario_floor := Some fl;
     mario_floorHeight := h;
     animFrame := frame;
     animID := anim |}.

Definition no_water : f32 * option Surface := (of_int (-11000), None).

(** Flat ground at height 0, no water. *)
Definition flat_world : World :=
  make_world zero flat_floor no_water (LEVEL_OTHER 9) false (MARIO_ANIM_OTHER 0) 0.

(** Water at height 100 over the ground, with and without a water-surface
    floor object. *)
Definition water_world : World :=
  make_world zero flat_floor (of_int 100, Some water_surface) (LEVEL_OTHER 9) false
    (MARIO_ANIM_OTHER 0) 0.

Definition pool_world : World :=
  make_world zero flat_floor (of_int 100, None) (LEVEL_OTHER 9) false
    (MARIO_ANIM_OTHER 0) 0.

(** A floor below the lower limit. *)
Definition deep_world : World :=
  make_world (of_int (-10500)) flat_floor no_water (LEVEL_OTHER 9) false
    (MARIO_ANIM_OTHER 0) 0.


(** Mario over the lava of Lethal Lava Land, area 1. *)
Definition lava_world : World :=
  make_world zero lava_floor no_water LEVEL_LLL true (MARIO_ANIM_OTHER 0) 0.

(** Mario over the lava of Bowser in the Fire Sea, below -3000 and above
    3400. *)
Definition bitfs_low_world : World :=
  make_world (of_int (-3100)) lava_floor no_water LEVEL_BITFS true (MARIO_ANIM_OTHER 0) 0.

Definition bitfs_high_world : World :=
  make_world (of_int 3500) lava_floor no_water LEVEL_BITFS true (MARIO_ANIM_OTHER 0) 0.

(** A workspace left by some earlier build. *)
Definition st0 : State :=
  mkState (mkShadow (mkVec3f zero zero zero) zero zero None 0 0 77) 0 0.

(** The workspace once lines 635-648 have found the ground. *)
Definition ground_state : State :=
  mkState (with_floor (Some flat_floor) zero (s st0)) 0 0.

(** The workspace once lines 635-653 have found the lava floor. *)
Definition lava_state : State :=
  mkState (with_floor (Some lava_floor) zero (s st0)) 0 0.

(** The same with the lava floor at height [h]. *)
Definition lava_state_at (h : Z) : State :=
  mkState (with_floor (Some lava_floor) (of_int h) (s st0)) 0 0.

(** Two builds in a row: first a circle shadow of solidity [sol1], then
    one of solidity 0, both for an object standing on the floor. *)
Definition two_builds (sol1 : Z) : res (option (list Gfx)) :=
  let C := sample_consts in
  let W := flat_world in
  let r1 := create_shadow_below_xyz C W zero zero zero 614 sol1 (SHADOW_CIRCLE C) st0 in
  output_of (create_shadow_below_xyz C W zero zero zero 614 0 (SHADOW_CIRCLE C)
               (state_of r1 st0)).

(** *** Vocabulary of the further properties *)

(** The vertices a display list loads. *)
Definition vertices_of (dl : list Gfx) : list Vtx :=
  match dl with
  | _ :: gSPVertex verts _ _ :: _ => verts
  | _ => []
  end.

(** The texture coordinates [make_shadow_vertex_at_xyz] stores in the
    vertex [index]. *)
Definition stored_texture (C : Consts) (index : Z) : Z * Z :=
  let '(textureX, textureY) := get_texture_coords C index in
  (wrap_s16 (Z.shiftl textureX 5), wrap_s16 (Z.shiftl textureY 5)).

(** [v] is the vertex [make_shadow_vertex_at_xyz] stores for [index] at
    the relative position [(relX, relY, relZ)] when the flag byte is
    [fl]. *)
Definition vtx_at (C : Consts) (W : World) (fl index : Z) (relX relY relZ : f32)
    (alpha : Z) (v : Vtx) : Prop :=
  exists vx vy vz,
    f32_to_s16 (roundf W relX) = Ok vx
    /\ f32_to_s16 (roundf W relY) = Ok vy
    /\ f32_to_s16 (roundf W relZ) = Ok vz
    /\ v = mkVtx vx
                 (if flag_test fl (SHADOW_FLAG_RAISED C) then wrap_s16 (vy + 5) else vy)
                 vz (fst (stored_texture C index)) (snd (stored_texture C index))
                 255 255 255 alpha.

(** The corners [create_shadow_rectangle] rotates, in the order of the
    vertices, as [(oldZ, oldX)]. *)
Definition rectangle_corners (halfWidth halfLength : f32) : list (Z * (f32 * f32)) :=
  [ (0, (fneg halfLength, fneg halfWidth)); (1, (fneg halfLength, halfWidth));
    (2, (halfLength, fneg halfWidth)); (3, (halfLength, halfWidth)) ].

(** The test of lines 565-568 of [get_shadow_height_solidity]: the water
    level is not below the limit, the object is at or above it and the
    shadow height [h] at or below it. *)
Definition water_under (C : Consts) (W : World) (x y z h : f32) : bool :=
  let waterLevel := find_water_level W x z in
  negb (flt waterLevel (FLOOR_LOWER_LIMIT_MISC C))
  && (fge y waterLevel && fge waterLevel h).

(** Neither an infinity nor a NaN. *)
Definition is_finite (a : f32) : bool :=
  match a with
  | Fin _ => true
  | _ => false
  end.

(** [post Q E r]: the run [r] ended in a state satisfying [Q], or with an
    undefined behaviour of a kind in [E]. *)
Definition post {A} (Q : A -> State -> Prop) (E : UBKind -> Prop) (r : res (A * State))
    : Prop :=
  match r with
  | Ok (a, st) => Q a st
  | UB k => E k
  end.

(** No restriction on the kind of undefined behaviour. *)
Definition any_ub (k : UBKind) : Prop := True.

(** The heights [correct_lava_shadow_height] snaps the floor to. *)
Definition lava_heights : list f32 := [of_int (-3062); of_int 3492; of_int 5].

(** What every step after the floor lookup keeps: the collision flags,
    a non-null floor in the workspace, and a property [F] of the flag
    byte. *)
Definition build_inv (F : Z -> Prop) (cf : Z) (st : State) : Prop :=
  gCollisionFlags st = cf /\ floor (s st) <> None /\ F (gShadowFlags st).

(** [F] does not depend on the two water flags. *)
Definition water_closed (C : Consts) (F : Z -> Prop) : Prop :=
  forall fl, F fl ->
    F (flag_set (SHADOW_FLAG_WATER_BOX C) fl)
    /\ F (flag_clear (SHADOW_FLAG_WATER_BOX C) fl)
    /\ F (flag_set (SHADOW_FLAG_WATER_SURFACE C) fl)
    /\ F (flag_clear (SHADOW_FLAG_WATER_SURFACE C) fl).

(** The flags after the flying-carpet prefix of [create_shadow_player],
    over the floor [f]. *)
Definition carpet_flags (C : Consts) (W : World) (f : Surface) (fl : Z) : Z :=
  match gCurrLevelNum W with
  | LEVEL_RR =>
      match type f with
      | SURFACE_DEATH_PLANE => fl
      | _ =>
          match gFlyingCarpetState W with
          | FLYING_CARPET_MOVING_WITHOUT_MARIO =>
              flag_set (Z.lor (SHADOW_FLAG_ICE_CARPET C) (SHADOW_FLAG_RAISED C)) fl
          | FLYING_CARPET_MOVING_WITH_MARIO => flag_set (SHADOW_FLAG_ICE_CARPET C) fl
          | FLYING_CARPET_IDLE => fl
          end
      end
  | _ => fl
  end.

(** The index [create_shadow_hardcoded_rectangle] reads [rectangles] at. *)
Definition hardcoded_index (C : Consts) (shadowType : Z) : Z :=
  wrap_s8 (shadowType - SHADOW_RECTANGLE_HARDCODED_OFFSET C).

(** Lines 636-640 of [create_shadow_below_xyz]: the floor is taken from
    Mario's state or from the object, without a call of [find_floor]. *)
Definition uses_known_floor (W : World) : bool :=
  node_is_mario W
  || (negb (node_is_mirror_mario W)
      && match oFloor W with Some _ => true | None => false end).

(** [gCollisionFlags] after lines 636-648. *)
Definition collision_after (C : Consts) (W : World) (cf : Z) : Z :=
  if uses_known_floor W then cf else Z.lor cf (COLLISION_FLAG_RETURN_FIRST C).

(** The shadow types with a case of their own in the dispatcher. *)
Definition recognised (C : Consts) : list Z :=
  [ SHADOW_CIRCLE_PLAYER C; SHADOW_CIRCLE C; SHADOW_SQUARE_PERMANENT C;
    SHADOW_SQUARE_SCALABLE C; SHADOW_SQUARE_TOGGLABLE C ].

(** The state of the flying carpet a build of type [shadowType] over the
    floor [f] takes into account (lines 426-435). *)
Definition carpet_seen (C : Consts) (W : World) (shadowType : Z) (f : Surface)
    : FlyingCarpetState :=
  if shadowType =? SHADOW_CIRCLE_PLAYER C then
    match gCurrLevelNum W with
    | LEVEL_RR =>
        match type f with
        | SURFACE_DEATH_PLANE => FLYING_CARPET_IDLE
        | _ => gFlyingCarpetState W
        end
    | _ => FLYING_CARPET_IDLE
    end
  else FLYING_CARPET_IDLE.

(** The test of line 651. *)
Definition is_ice (f : Surface) : bool :=
  match type f with
  | SURFACE_ICE => true
  | _ => false
  end.

(** Sky level with the carpet moving without Mario. *)
Definition carpet_world : World :=
  {| sins := fun _ => zero;
     coss := fun _ => one;
     atan2s := fun _ _ => 0;
     sqrtf := fun a => a;
     roundf := roundf_model;
     find_floor := fun _ _ _ => (zero, Some flat_floor);
     find_water_level := fun _ _ => of_int (-11000);
     find_water_level_and_floor := fun _ _ => no_water;
     get_surface_height_at_location := fun _ _ _ => zero;
     alloc_verts := true;
     alloc_gfx := true;
     gCurrLevelNum := LEVEL_RR;
     gCurrAreaIndex := 1;
     gFlyingCarpetState := FLYING_CARPET_MOVING_WITHOUT_MARIO;
     node_is_mario := true;
     node_is_mirror_mario := false;
     oFloor := None;
     oFloorHeight := zero;
     oFaceAngleYaw := 0;
     mario_floor := Some flat_floor;
     mario_floorHeight := zero;
     animFrame := 0;
     animID := MARIO_ANIM_OTHER 0 |}.

(** Mario with no floor under him recorded in his state. *)
Definition floorless_mario_world : World :=
  {| sins := fun _ => zero;
     coss := fun _ => one;
     atan2s := fun _ _ => 0;
     sqrtf := fun a => a;
     roundf := roundf_model;
     find_floor := fun _ _ _ => (zero, Some flat_floor);
     find_water_level := fun _ _ => of_int (-11000);
     find_water_level_and_floor := fun _ _ => no_water;
     get_surface_height_at_location := fun _ _ _ => zero;
     alloc_verts := true;
     alloc_gfx := true;
     gCurrLevelNum := LEVEL_OTHER 9;
     gCurrAreaIndex := 1;
     gFlyingCarpetState := FLYING_CARPET_IDLE;
     node_is_mario := true;
     node_is_mirror_mario := false;
     oFloor := Some flat_floor;
     oFloorHeight := zero;
     oFaceAngleYaw := 0;
     mario_floor := None;
     mario_floorHeight := zero;
     animFrame := 0;
     animID := MARIO_ANIM_OTHER 0 |}.

(** An object over a place where [find_floor] finds nothing. *)
Definition void_world : World :=
  {| sins := fun _ => zero;
     coss := fun _ => one;
     atan2s := fun _ _ => 0;
     sqrtf := fun a => a;
     roundf := roundf_model;
     find_floor := fun _ _ _ => (of_int (-11000), None);
     find_water_level := fun _ _ => of_int (-11000);
     find_water_level_and_floor := fun _ _ => no_water;
     get_surface_height_at_location := fun _ _ _ => zero;
     alloc_verts := true;
     alloc_gfx := true;
     gCurrLevelNum := LEVEL_OTHER 9;
     gCurrAreaIndex := 1;
     gFlyingCarpetState := FLYING_CARPET_IDLE;
     node_is_mario := false;
     node_is_mirror_mario := false;
     oFloor := None;
     oFloorHeight := zero;
     oFaceAngleYaw := 0;
     mario_floor := Some flat_floor;
     mario_floorHeight := zero;
     animFrame := 0;
     animID := MARIO_ANIM_OTHER 0 |}.

(** The shape of the shadow of a build of type [shadowType]. *)
Definition shape_of (C : Consts) (shadowType : Z) : ShadowShapes :=
  if (shadowType =? SHADOW_CIRCLE_PLAYER C) || (shadowType =? SHADOW_CIRCLE C)
  then SHADOW_SHAPE_CIRCLE else SHADOW_SHAPE_SQUARE.

(** The texture coordinates of the four corners as stored in the
    vertices: [-15 << 5] and [16 << 5], or [-63 << 5] and [64 << 5] with
    [HD_SHADOWS]. *)
Definition texture_corners (C : Consts) : list (Z * Z) :=
  if HD_SHADOWS C
  then [(-2016, -2016); (2048, -2016); (-2016, 2048); (2048, 2048)]
  else [(-480, -480); (512, -480); (-480, 512); (512, 512)].

(** [verts] are four vertices built by [make_shadow_vertex_at_xyz], for
    the indices 0 to 3 in this order, with the alpha [a], under the flags
    [fl]. *)
Definition quad_of (C : Consts) (W : World) (fl a : Z) (verts : list Vtx) : Prop :=
  Forall2 (fun i v => exists relX relY relZ, vtx_at C W fl i relX relY relZ a v)
    [0; 1; 2; 3] verts.

(** Flat ground, with a display-list pool that has run out. *)
Definition starved_world : World :=
  {| sins := fun _ => zero;
     coss := fun _ => one;
     atan2s := fun _ _ => 0;
     sqrtf := fun a => a;
     roundf := roundf_model;
     find_floor := fun _ _ _ => (zero, Some flat_floor);
     find_water_level := fun _ _ => of_int (-11000);
     find_water_level_and_floor := fun _ _ => no_water;
     get_surface_height_at_location := fun _ _ _ => zero;
     alloc_verts := true;
     alloc_gfx := false;
     gCurrLevelNum := LEVEL_OTHER 9;
     gCurrAreaIndex := 1;
     gFlyingCarpetState := FLYING_CARPET_IDLE;
     node_is_mario := false;
     node_is_mirror_mario := false;
     oFloor := None;
     oFloorHeight := zero;
     oFaceAngleYaw := 0;
     mario_floor := Some flat_floor;
     mario_floorHeight := zero;
     animFrame := 0;
     animID := MARIO_ANIM_OTHER 0 |}.

(** The animations during which [correct_shadow_solidity_for_animations]
    sets the solidity itself. *)
Definition is_ledge_animation (a : MarioAnim) : bool :=
  match a with
  | MARIO_ANIM_FAST_LEDGE_GRAB | MARIO_ANIM_SLOW_LEDGE_GRAB
  | MARIO_ANIM_CLIMB_DOWN_LEDGE => true
  | _ => false
  end.

(** Mario high above flat ground, late in the fast ledge grab. *)
Definition ledge_world : World :=
  make_world zero flat_floor no_water (LEVEL_OTHER 9) true MARIO_ANIM_FAST_LEDGE_GRAB 20.

(** Mario hanging idle on a ledge. *)
Definition idle_ledge_world : World :=
  make_world zero flat_floor no_water (LEVEL_OTHER 9) true MARIO_ANIM_IDLE_ON_LEDGE 3.


(* ===================================================================== *)
(** ** Rounding to binary32 *)
(* ===================================================================== *)

(** On every pair of the sample values the model computes what the
    Standard Library's [SpecFloat] computes for binary32 (precision 24,
    maximal exponent 128). *)
Lemma model_agrees_with_SpecFloat : agree_all = true.
Proof. vm_compute. reflexivity. Qed.

Lemma samples_are_binary32 : forallb is_f32 samples = true.
Proof. vm_compute. reflexivity. Qed.

Lemma rne_floor_bounds (x : Q) : Qfloor x <= rne x <= Qfloor x + 1.
Proof.
  unfold rne. destruct (_ ?= _)%Q; [destruct (Z.even _)| |]; lia.
Qed.

Lemma rne_mono (x y : Q) : (x <= y)%Q -> rne x <= rne y.
Proof.
  intros Hxy.
  pose proof (Qfloor_resp_le _ _ Hxy) as Hf.
  destruct (Z.eq_dec (Qfloor x) (Qfloor y)) as [E | N].
  - unfold rne. rewrite E.
    destruct (Qcompare_spec (x - inject_Z (Qfloor y)) (1 # 2)) as [H1 | H1 | H1];
    destruct (Qcompare_spec (y - inject_Z (Qfloor y)) (1 # 2)) as [H2 | H2 | H2];
    try destruct (Z.even (Qfloor y)); try lia; exfalso; lra.
  - pose proof (rne_floor_bounds x). pose proof (rne_floor_bounds y). lia.
Qed.

Lemma rne_comp (x y : Q) : (x == y)%Q -> rne x = rne y.
Proof.
  intros E. apply Z.le_antisymm; apply rne_mono; rewrite E; apply Qle_refl.
Qed.

Lemma rne_Z (z : Z) : rne (inject_Z z) = z.
Proof.
  unfold rne. rewrite Qfloor_Z.
  destruct (Qcompare_spec (inject_Z z - inject_Z z) (1 # 2)) as [H | H | H];
    try reflexivity; exfalso; lra.
Qed.

Lemma rne_le_Z (x : Q) (z : Z) : (x <= inject_Z z)%Q -> rne x <= z.
Proof. intros H. rewrite <- (rne_Z z). now apply rne_mono. Qed.

Lemma rne_ge_Z (x : Q) (z : Z) : (inject_Z z <= x)%Q -> z <= rne x.
Proof. intros H. rewrite <- (rne_Z z). now apply rne_mono. Qed.

Lemma pow2_pos (k : Z) : 0 <= k -> 0 < 2 ^ k.
Proof. intros; now apply Z.pow_pos_nonneg. Qed.

Lemma inject_pow2_pos (k : Z) : 0 <= k -> (0 < inject_Z (2 ^ k))%Q.
Proof.
  intros H. change 0%Q with (inject_Z 0). rewrite <- Zlt_Qlt. now apply pow2_pos.
Qed.

Lemma shift_of_nonneg (a : Q) : 0 <= shift_of a.
Proof. unfold shift_of; lia. Qed.

Lemma Qdiv_le_Z (a : Q) (m p : Z) :
  0 < p -> (a <= inject_Z (m * p))%Q -> (a / inject_Z p <= inject_Z m)%Q.
Proof.
  intros Hp H. apply Qle_shift_div_r.
  - change 0%Q with (inject_Z 0). now rewrite <- Zlt_Qlt.
  - now rewrite <- inject_Z_mult.
Qed.

Lemma Qdiv_ge_Z (a : Q) (m p : Z) :
  0 < p -> (inject_Z (m * p) <= a)%Q -> (inject_Z m <= a / inject_Z p)%Q.
Proof.
  intros Hp H. apply Qle_shift_div_l.
  - change 0%Q with (inject_Z 0). now rewrite <- Zlt_Qlt.
  - now rewrite <- inject_Z_mult.
Qed.

(** A multiple of the rounding step bounds the rounded value as it bounds
    the exact one. *)
Lemma round_mag_grid_le (a : Q) (m : Z) :
  (a <= inject_Z (m * 2 ^ shift_of a))%Q -> round_mag a <= m * 2 ^ shift_of a.
Proof.
  intros H. unfold round_mag.
  pose proof (pow2_pos _ (shift_of_nonneg a)) as Hp.
  apply Z.mul_le_mono_nonneg_r; [lia|].
  apply rne_le_Z. now apply Qdiv_le_Z.
Qed.

Lemma round_mag_grid_ge (a : Q) (m : Z) :
  (inject_Z (m * 2 ^ shift_of a) <= a)%Q -> m * 2 ^ shift_of a <= round_mag a.
Proof.
  intros H. unfold round_mag.
  pose proof (pow2_pos _ (shift_of_nonneg a)) as Hp.
  apply Z.mul_le_mono_nonneg_r; [lia|].
  apply rne_ge_Z. now apply Qdiv_ge_Z.
Qed.

Lemma Qfloor_nonneg (a : Q) : (0 <= a)%Q -> 0 <= Qfloor a.
Proof. intros H. change 0 with (Qfloor 0). now apply Qfloor_resp_le. Qed.

Lemma round_mag_nonneg (a : Q) : (0 <= a)%Q -> 0 <= round_mag a.
Proof.
  intros H. change 0 with (0 * 2 ^ shift_of a).
  apply round_mag_grid_ge. simpl. exact H.
Qed.

(** Below the next power of two. *)
Lemma below_next_pow2 (a : Q) :
  (0 <= a)%Q -> (a <= inject_Z (2 ^ (Z.log2 (Qfloor a) + 1)))%Q.
Proof.
  intros H. pose proof (Qfloor_nonneg a H) as Hf.
  apply Qle_trans with (inject_Z (Qfloor a + 1)).
  - apply Qlt_le_weak, Qlt_floor.
  - rewrite <- Zle_Qle.
    destruct (Z.eq_dec (Qfloor a) 0) as [E | N].
    + rewrite E. simpl. lia.
    + pose proof (Z.log2_spec (Qfloor a)). lia.
Qed.

Lemma round_mag_mono (a b : Q) :
  (0 <= a)%Q -> (a <= b)%Q -> round_mag a <= round_mag b.
Proof.
  intros Ha Hab.
  assert (Hb : (0 <= b)%Q) by (eapply Qle_trans; eauto).
  pose proof (Qfloor_nonneg a Ha) as Hfa.
  pose proof (Qfloor_resp_le _ _ Hab) as Hf.
  pose proof (Z.log2_le_mono _ _ Hf) as Hl.
  pose proof (Z.log2_nonneg (Qfloor a)) as Hka.
  destruct (Z.eq_dec (shift_of a) (shift_of b)) as [E | N].
  - unfold round_mag. rewrite E.
    pose proof (inject_pow2_pos _ (shift_of_nonneg b)) as Hp.
    apply Z.mul_le_mono_nonneg_r; [pose proof (pow2_pos _ (shift_of_nonneg b)); lia|].
    apply rne_mono. unfold Qdiv. apply Qmult_le_compat_r; [assumption|].
    apply Qlt_le_weak, Qinv_lt_0_compat, Hp.
  - set (ka := Z.log2 (Qfloor a)) in *. set (kb := Z.log2 (Qfloor b)) in *.
    assert (Hsa : shift_of a = Z.max 0 (ka - 23)) by reflexivity.
    assert (Hsb : shift_of b = Z.max 0 (kb - 23)) by reflexivity.
    assert (Hkb : 24 <= kb /\ ka + 1 <= kb) by lia.
    apply Z.le_trans with (2 ^ kb).
    + apply Z.le_trans with (2 ^ (ka + 1)).
      * replace (2 ^ (ka + 1)) with (2 ^ (ka + 1 - shift_of a) * 2 ^ shift_of a)
          by (rewrite <- Z.pow_add_r; [f_equal|..]; lia).
        apply round_mag_grid_le.
        rewrite <- Z.pow_add_r by lia.
        replace (ka + 1 - shift_of a + shift_of a) with (ka + 1) by lia.
        now apply below_next_pow2.
      * apply Z.pow_le_mono_r; lia.
    + replace (2 ^ kb) with (2 ^ 23 * 2 ^ shift_of b)
        by (rewrite <- Z.pow_add_r; [f_equal|..]; lia).
      apply round_mag_grid_ge.
      rewrite <- Z.pow_add_r by lia.
      replace (23 + shift_of b) with kb by lia.
      apply Qle_trans with (inject_Z (Qfloor b)); [|apply Qfloor_le].
      rewrite <- Zle_Qle.
      assert (0 < Qfloor b).
      { destruct (Z.eq_dec (Qfloor b) 0) as [E0|]; [|lia].
        unfold kb in Hkb. rewrite E0 in Hkb. simpl in Hkb. lia. }
      pose proof (Z.log2_spec (Qfloor b)). unfold kb. lia.
Qed.

(** Numbers with a significand of at most 24 bits are left alone. *)
Lemma round_mag_exact (m e : Z) :
  0 <= m < 2 ^ 24 -> 0 <= e -> round_mag (inject_Z (m * 2 ^ e)) = m * 2 ^ e.
Proof.
  intros Hm He.
  set (a := inject_Z (m * 2 ^ e)).
  assert (Hsh : shift_of a <= e).
  { unfold shift_of, a. rewrite Qfloor_Z.
    destruct (Z.eq_dec m 0) as [-> | N]; [simpl; lia|].
    rewrite Z.log2_mul_pow2 by lia.
    assert (Z.log2 m < 24) by (apply Z.log2_lt_pow2; lia). lia. }
  pose proof (shift_of_nonneg a) as Hs0.
  assert (E : m * 2 ^ e = (m * 2 ^ (e - shift_of a)) * 2 ^ shift_of a).
  { rewrite <- Z.mul_assoc, <- Z.pow_add_r by lia. do 2 f_equal. lia. }
  rewrite E. apply Z.le_antisymm.
  - apply round_mag_grid_le. rewrite <- E. apply Qle_refl.
  - apply round_mag_grid_ge. rewrite <- E. apply Qle_refl.
Qed.

Lemma round_units_mono (x y : Q) :
  (x <= y)%Q -> round_units x <= round_units y.
Proof.
  intros Hxy. unfold round_units.
  destruct (Qle_bool 0 x) eqn:Ex; destruct (Qle_bool 0 y) eqn:Ey.
  - apply Qle_bool_iff in Ex. now apply round_mag_mono.
  - apply Qle_bool_iff in Ex.
    assert (Qle_bool 0 y = true) by (apply Qle_bool_iff; eapply Qle_trans; eauto).
    congruence.
  - apply Qle_bool_iff in Ey.
    assert (Hx : (0 <= - x)%Q).
    { destruct (Qlt_le_dec x 0) as [L | L]; [lra|].
      apply Qle_bool_iff in L. congruence. }
    pose proof (round_mag_nonneg _ Hx). pose proof (round_mag_nonneg _ Ey). lia.
  - assert (Hy : (0 <= - y)%Q).
    { destruct (Qlt_le_dec y 0) as [L | L]; [lra|].
      apply Qle_bool_iff in L. congruence. }
    assert (H : round_mag (- y) <= round_mag (- x)) by (apply round_mag_mono; lra).
    lia.
Qed.

Lemma round_units_exact (m e : Z) :
  Z.abs m < 2 ^ 24 -> 0 <= e -> round_units (inject_Z (m * 2 ^ e)) = m * 2 ^ e.
Proof.
  intros Hm He. unfold round_units.
  pose proof (pow2_pos e He) as Hp.
  destruct (Qle_bool 0 (inject_Z (m * 2 ^ e))) eqn:E.
  - apply Qle_bool_iff in E. change 0%Q with (inject_Z 0) in E.
    rewrite <- Zle_Qle in E. apply round_mag_exact; nia.
  - assert (m < 0).
    { destruct (Z_lt_le_dec m 0) as [L | L]; [exact L|].
      assert (Qle_bool 0 (inject_Z (m * 2 ^ e)) = true); [|congruence].
      apply Qle_bool_iff. change 0%Q with (inject_Z 0). rewrite <- Zle_Qle. nia. }
    change (- inject_Z (m * 2 ^ e))%Q with (inject_Z (- (m * 2 ^ e))).
    replace (- (m * 2 ^ e)) with ((- m) * 2 ^ e) by ring.
    rewrite round_mag_exact; lia.
Qed.

Lemma round_units_0 : round_units 0 = 0.
Proof. reflexivity. Qed.

(** Rounding stays between representable bounds. *)
Lemma round_units_between (lo hi : Z) (x : Q) :
  round_units (inject_Z lo) = lo -> round_units (inject_Z hi) = hi ->
  (inject_Z lo <= x)%Q -> (x <= inject_Z hi)%Q ->
  lo <= round_units x <= hi.
Proof.
  intros Hlo Hhi H1 H2. split.
  - rewrite <- Hlo. now apply round_units_mono.
  - rewrite <- Hhi. now apply round_units_mono.
Qed.

Lemma fround_fin (x : Q) :
  Z.abs (round_units x) < OVF -> fround x = Fin (round_units x).
Proof.
  intros H. unfold fround. apply Z.ltb_lt in H. now rewrite H.
Qed.

Lemma fround_between (lo hi : Z) (x : Q) :
  round_units (inject_Z lo) = lo -> round_units (inject_Z hi) = hi ->
  - OVF < lo -> hi < OVF ->
  (inject_Z lo <= x)%Q -> (x <= inject_Z hi)%Q ->
  fround x = Fin (round_units x) /\ lo <= round_units x <= hi.
Proof.
  intros Hlo Hhi L H H1 H2.
  pose proof (round_units_between lo hi x Hlo Hhi H1 H2) as B.
  split; [apply fround_fin; lia | exact B].
Qed.

Lemma fround_mono (x y : Q) :
  (x <= y)%Q -> fle (fround x) (fround y) = true.
Proof.
  intros Hxy. pose proof (round_units_mono x y Hxy) as H.
  unfold fround.
  destruct (Z.ltb_spec (Z.abs (round_units x)) OVF);
  destruct (Z.ltb_spec (Z.abs (round_units y)) OVF); simpl.
  - now apply Z.leb_le.
  - destruct (Z.ltb_spec (round_units y) 0); [lia | reflexivity].
  - destruct (Z.ltb_spec (round_units x) 0); [reflexivity | lia].
  - destruct (Z.ltb_spec (round_units x) 0);
    destruct (Z.ltb_spec (round_units y) 0); simpl; try reflexivity; lia.
Qed.

Lemma of_int_exact (z : Z) : Z.abs z < 2 ^ 24 -> of_int z = Fin (z * U).
Proof.
  intros H. unfold of_int. unfold U at 1.
  assert (OVF = 2 ^ 24 * 2 ^ 253) by reflexivity.
  rewrite fround_fin; rewrite round_units_exact by lia; [reflexivity|].
  unfold U. change (2 ^ 149) with 713623846352979940529142984724747568191373312.
  rewrite H0. change (2 ^ 253) with (2 ^ 104 * 713623846352979940529142984724747568191373312).
  lia.
Qed.


(* ===================================================================== *)
(** ** The flag byte *)
(* ===================================================================== *)

Lemma wrap_s8_mod z : wrap_s8 z mod 256 = z mod 256.
Proof. unfold wrap_s8. Z.div_mod_to_equations. lia. Qed.

Lemma land_wrap_s8 x m : 0 <= m < 256 -> Z.land (wrap_s8 x) m = Z.land x m.
Proof.
  intros Hm.
  assert (E : forall a, Z.land a m = Z.land (a mod 256) m).
  { intros a. change 256 with (2 ^ 8). rewrite <- Z.land_ones by lia.
    rewrite <- Z.land_assoc. f_equal.
    destruct (Z.eq_dec m 0) as [-> | N]; [reflexivity|].
    rewrite Z.land_comm. symmetry. apply Z.land_ones_low; [lia|].
    apply Z.log2_lt_pow2; lia. }
  rewrite (E (wrap_s8 x)), (E x). now rewrite wrap_s8_mod.
Qed.

Lemma is_mask_range m : is_mask m = true -> 0 < m < 128.
Proof. unfold is_mask. lia. Qed.

Ltac bitwise :=
  apply Z.bits_inj'; intros i Hi;
  repeat match goal with
         | H : Z.land _ _ = 0 |- _ =>
             apply (f_equal (fun z => Z.testbit z i)) in H;
             rewrite Z.land_spec, Z.bits_0 in H
         end;
  rewrite ?Z.land_spec, ?Z.lor_spec, ?Z.lnot_spec, ?Z.bits_0 by lia;
  repeat match goal with
         | |- context [Z.testbit ?a i] => destruct (Z.testbit a i)
         end; simpl in *; congruence.

Lemma land_lor_same f m : Z.land (Z.lor f m) m = m.
Proof. bitwise. Qed.

Lemma land_clear_same f m : Z.land (Z.land f (Z.lnot m)) m = 0.
Proof. bitwise. Qed.

Lemma land_lor_other f m m' : Z.land m' m = 0 -> Z.land (Z.lor f m') m = Z.land f m.
Proof. intros H. bitwise. Qed.

Lemma land_clear_other f m m' :
  Z.land m' m = 0 -> Z.land (Z.land f (Z.lnot m')) m = Z.land f m.
Proof. intros H. bitwise. Qed.

Lemma flag_test_set_same m fl : is_mask m = true -> flag_test (flag_set m fl) m = true.
Proof.
  intros H. apply is_mask_range in H. unfold flag_test, flag_set.
  rewrite land_wrap_s8 by lia. rewrite land_lor_same.
  destruct (Z.eqb_spec m 0); [lia | reflexivity].
Qed.

Lemma flag_test_clear_same m fl : is_mask m = true -> flag_test (flag_clear m fl) m = false.
Proof.
  intros H. apply is_mask_range in H. unfold flag_test, flag_clear.
  rewrite land_wrap_s8 by lia. now rewrite land_clear_same.
Qed.

Lemma flag_test_set_other m m' fl :
  is_mask m = true -> Z.land m' m = 0 ->
  flag_test (flag_set m' fl) m = flag_test fl m.
Proof.
  intros H D. apply is_mask_range in H. unfold flag_test, flag_set.
  rewrite land_wrap_s8 by lia. now rewrite land_lor_other.
Qed.

Lemma flag_test_clear_other m m' fl :
  is_mask m = true -> Z.land m' m = 0 ->
  flag_test (flag_clear m' fl) m = flag_test fl m.
Proof.
  intros H D. apply is_mask_range in H. unfold flag_test, flag_clear.
  rewrite land_wrap_s8 by lia. now rewrite land_clear_other.
Qed.

Lemma flag_test_none m : flag_test SHADOW_FLAGS_NONE m = false.
Proof. reflexivity. Qed.


(* ===================================================================== *)
(** ** The water box in init_shadow (claim C5) *)
(* ===================================================================== *)

Lemma wf_flags_unpack C :
  wf_flags C = true ->
  let wb := SHADOW_FLAG_WATER_BOX C in
  let ws := SHADOW_FLAG_WATER_SURFACE C in
  let ic := SHADOW_FLAG_ICE_CARPET C in
  let ra := SHADOW_FLAG_RAISED C in
  (is_mask wb = true /\ is_mask ws = true /\ is_mask ic = true /\ is_mask ra = true)
  /\ Z.land wb ws = 0 /\ Z.land wb ic = 0 /\ Z.land wb ra = 0
  /\ Z.land ws ic = 0 /\ Z.land ws ra = 0 /\ Z.land ic ra = 0.
Proof.
  unfold wf_flags, disjoint. intros H.
  repeat (apply andb_prop in H; destruct H as [H ?]).
  repeat match goal with H : (_ =? _) = true |- _ => apply Z.eqb_eq in H end.
  cbv zeta. unfold is_mask at 1. rewrite H, H9. simpl. tauto.
Qed.

Lemma of_bits_FLOAT_ONE : of_bits FLOAT_ONE = one.
Proof. reflexivity. Qed.

Ltac run :=
  unfold bind, ret, get, lift, deref, upd_s, upd_flags, upd_collision;
  repeat match goal with
         | |- context [s (?f _ _)] => progress unfold f
         | |- context [gShadowFlags (?f _ _)] => progress unfold f
         end;
  cbn [s gShadowFlags gCollisionFlags
       parentPos floorHeight shadowScale floor floorPitch floorYaw solidity
       set_parentPos set_floorHeight set_shadowScale set_floor set_floorPitch
       set_floorYaw set_solidity vec_x vec_y vec_z normal type addr
       negb andb orb fst snd].

Lemma flat_steepness : fadd (fmul zero zero) (fmul zero zero) = zero.
Proof. reflexivity. Qed.

Lemma init_shadow_attenuate_flat C W y sc ov st1 st2 :
  FLT_IS_NONZERO C zero = false ->
  init_shadow_attenuate C W y sc ov (mkVec3f zero one zero) st1 = Ok (tt, st2) ->
  floorPitch (s st2) = 0 /\ floorYaw (s st2) = 0.
Proof.
  intros Hz. unfold init_shadow_attenuate. cbn [vec_x vec_y vec_z].
  rewrite flat_steepness, Hz. run.
  destruct (negb (ov =? 0)); run.
  - destruct (dim_shadow_with_distance ov _); run; [|discriminate].
    intros E; inversion E; subst; simpl; auto.
  - intros E; inversion E; subst; simpl; auto.
Qed.

(** C5.  When the water query marks a water box (the water level is not
    below the limit, the parent is at or above it and the floor at or
    below it), the resolve step of [init_shadow] takes the water level as
    floor height and: if the query returned a water-surface floor, makes it
    the floor of the workspace, clears the water-box flag, sets the
    water-surface flag and stores solidity 200; otherwise keeps the flag,
    and replaces the normal of the floor by the flat (0, 1, 0), so that
    pitch and yaw come out as 0.  [init_shadow] then goes on with the
    attenuation step. *)
Theorem init_shadow_water_box C W x y z sc ov st f wl wfl :
  wf_flags C = true ->
  floor (s st) = Some f ->
  find_water_level_and_floor W x z = (wl, wfl) ->
  flt wl (FLOOR_LOWER_LIMIT_MISC C) = false ->
  fge y wl = true ->
  fle (floorHeight (s st)) wl = true ->
  exists n st1,
    init_shadow_resolve C W (with_parentPos x y z st) = Ok (Some n, st1)
    /\ floorHeight (s st1) = wl
    /\ match wfl with
       | Some w =>
           n = normal f
           /\ floor (s st1) = Some w
           /\ flag_test (gShadowFlags st1) (SHADOW_FLAG_WATER_BOX C) = false
           /\ flag_test (gShadowFlags st1) (SHADOW_FLAG_WATER_SURFACE C) = true
           /\ solidity (s st1) = 200
       | None =>
           n = mkVec3f zero one zero
           /\ floor (s st1) = Some f
           /\ flag_test (gShadowFlags st1) (SHADOW_FLAG_WATER_BOX C) = true
           /\ flag_test (gShadowFlags st1) (SHADOW_FLAG_WATER_SURFACE C) = false
           /\ (FLT_IS_NONZERO C zero = false ->
               forall r st2, init_shadow C W x y z sc ov st = Ok (r, st2) ->
                 r = false /\ floorPitch (s st2) = 0 /\ floorYaw (s st2) = 0)
       end
    /\ init_shadow C W x y z sc ov st
       = (init_shadow_attenuate C W y sc ov n ;; ret false) st1.
Proof.
  intros Hwf Hf Hw Hlim Hy Hfh.
  destruct (wf_flags_unpack C Hwf) as ((Mwb & Mws & Mic & Mra) & Dws & Dic & Dra & _).
  assert (Dsw : Z.land (SHADOW_FLAG_WATER_SURFACE C) (SHADOW_FLAG_WATER_BOX C) = 0)
    by (now rewrite Z.land_comm).
  unfold init_shadow, init_shadow_resolve, get_water_level_below_shadow, with_parentPos.
  run. rewrite Hw, Hlim. simpl. rewrite Hy, Hfh. run. rewrite Hf. run.
  rewrite flag_test_set_same by assumption.
  destruct wfl as [w |]; run.
  - eexists _, _. split; [reflexivity|]. simpl.
    split; [reflexivity|]. split; [|reflexivity].
    split; [reflexivity|]. split; [reflexivity|]. split; [|split; [|reflexivity]].
    + rewrite flag_test_set_other by assumption. now apply flag_test_clear_same.
    + now apply flag_test_set_same.
  - eexists _, _. split; [reflexivity|]. simpl.
    split; [reflexivity|]. split; [|reflexivity].
    split; [now rewrite of_bits_FLOAT_ONE|]. split; [exact Hf|]. split; [|split].
    + rewrite flag_test_clear_other by assumption. now apply flag_test_set_same.
    + now apply flag_test_clear_same.
    + intros Hz r st2.
      destruct (init_shadow_attenuate C W y sc ov _ _) as [[[] st3] | k] eqn:E;
        [|discriminate].
      intros E'; inversion E'; subst. split; [reflexivity|].
      apply (init_shadow_attenuate_flat _ _ _ _ _ _ _ Hz E).
Qed.


(* ===================================================================== *)
(** ** Integers in binary32 and the ease-in ramp (claim C3) *)
(* ===================================================================== *)

Lemma round_units_comp (x y : Q) : (x == y)%Q -> round_units x = round_units y.
Proof.
  intros E. apply Z.le_antisymm; apply round_units_mono; rewrite E; apply Qle_refl.
Qed.

Lemma fround_comp (x y : Q) : (x == y)%Q -> fround x = fround y.
Proof. intros E. unfold fround. now rewrite (round_units_comp x y E). Qed.

Lemma U_pos : 0 < U.
Proof. reflexivity. Qed.

Lemma U_eq : U = 2 ^ 149.
Proof. reflexivity. Qed.

Lemma OVF_eq : OVF = 2 ^ 24 * 2 ^ 104 * U.
Proof. reflexivity. Qed.

Global Opaque U OVF.

(** Integers below [2^24] in magnitude are binary32 numbers. *)
Lemma round_units_int (z : Z) : Z.abs z < 2 ^ 24 -> round_units (inject_Z (z * U)) = z * U.
Proof. intros H. rewrite U_eq. apply round_units_exact; lia. Qed.

Lemma int_below_OVF (z : Z) : Z.abs z <= 2 ^ 24 -> - OVF < z * U /\ z * U < OVF.
Proof.
  intros H. rewrite OVF_eq. pose proof U_pos.
  assert (2 ^ 24 * 2 ^ 104 * U = 2 ^ 24 * U + (2 ^ 24 * (2 ^ 104 - 1)) * U) by ring.
  assert (0 < 2 ^ 24 * (2 ^ 104 - 1)) by reflexivity.
  nia.
Qed.

(** Rounding of a value lying between two small integers. *)
Lemma fround_int_between (lo hi : Z) (x : Q) :
  Z.abs lo < 2 ^ 24 -> Z.abs hi < 2 ^ 24 ->
  (inject_Z (lo * U) <= x)%Q -> (x <= inject_Z (hi * U))%Q ->
  fround x = Fin (round_units x) /\ lo * U <= round_units x <= hi * U.
Proof.
  intros Hlo Hhi H1 H2.
  apply fround_between; auto using round_units_int.
  - apply int_below_OVF; lia.
  - apply int_below_OVF; lia.
Qed.

Lemma fround_int (z : Z) : Z.abs z < 2 ^ 24 -> fround (inject_Z (z * U)) = Fin (z * U).
Proof.
  intros H.
  destruct (fround_int_between z z (inject_Z (z * U)) H H) as [E _]; try apply Qle_refl.
  rewrite E. now rewrite round_units_int.
Qed.

Lemma Qdiv_U (a : Z) : (inject_Z (a * U) / inject_Z U == inject_Z a)%Q.
Proof.
  rewrite inject_Z_mult. field.
  intros E. pose proof U_pos as P. rewrite Zlt_Qlt in P. rewrite E in P.
  now apply Qlt_irrefl in P.
Qed.

Lemma inject_Z_pos (a : Z) : 0 < a -> (0 < inject_Z a)%Q.
Proof. intros H. now rewrite Zlt_Qlt in H. Qed.

Lemma inject_Z_nonzero (a : Z) : 0 < a -> ~ (inject_Z a == 0)%Q.
Proof.
  intros H E. apply inject_Z_pos in H. rewrite E in H. now apply Qlt_irrefl in H.
Qed.

Lemma fmul_int_l (c n : Z) :
  Z.abs c < 2 ^ 24 -> fmul (of_int c) (Fin n) = fround (inject_Z (c * n)).
Proof.
  intros H. unfold of_int. rewrite fround_int by assumption. unfold fmul.
  apply fround_comp. replace (c * U * n) with (c * n * U) by ring. apply Qdiv_U.
Qed.

Lemma U_split : U = 65536 * 2 ^ 133.
Proof. reflexivity. Qed.

Lemma quot_between (r q : Z) : q * U <= r < (q + 1) * U -> 0 <= q -> Z.quot r U = q.
Proof.
  intros H Hq. pose proof U_pos.
  rewrite Z.quot_div_nonneg by nia.
  symmetry. apply Z.div_unique with (r - q * U); lia.
Qed.

(** The quotient of the ease-in ramp, computed in binary32 and truncated,
    is the integer quotient. *)
Lemma easein_value (final a b : Z) :
  0 <= final <= 255 -> 0 <= a <= b -> 1 <= b <= 65535 ->
  f32_to_u8 (fdiv (fmul (of_int final) (of_int a)) (of_int b)) = Ok (final * a / b).
Proof.
  intros Hf Ha Hb.
  assert (Ea : of_int a = Fin (a * U)) by (apply fround_int; lia).
  assert (Eb : of_int b = Fin (b * U)) by (apply fround_int; lia).
  rewrite Ea, Eb. rewrite fmul_int_l by lia.
  set (p := final * a).
  assert (Hp : 0 <= p <= 255 * 65535) by (unfold p; nia).
  replace (final * (a * U)) with (p * U) by (unfold p; ring).
  rewrite fround_int by lia.
  set (q := p / b).
  assert (Hq : q * b <= p <= q * b + b - 1).
  { unfold q. pose proof (Z.div_mod p b ltac:(lia)).
    pose proof (Z.mod_pos_bound p b ltac:(lia)). nia. }
  assert (Hq0 : 0 <= q <= final).
  { split; [apply Z.div_pos; lia|]. unfold q.
    apply Z.div_le_upper_bound; [lia|]. unfold p. nia. }
  pose proof U_pos as HU.
  unfold fdiv. destruct (Z.eqb_spec (b * U) 0) as [E | _]; [nia|].
  set (x := (inject_Z (p * U * U) / inject_Z (b * U))%Q).
  set (T := 2 ^ 133) in *.
  assert (HT : 0 < T) by reflexivity.
  set (g := ((q + 1) * 65536 - 1) * T).
  assert (Hlo : (inject_Z (q * U) <= x)%Q).
  { apply Qdiv_ge_Z; [nia|]. rewrite <- Zle_Qle. nia. }
  assert (Hhi : (x <= inject_Z g)%Q).
  { apply Qdiv_le_Z; [nia|]. rewrite <- Zle_Qle.
    unfold g. rewrite U_split. fold T.
    assert (p * 65536 <= ((q + 1) * 65536 - 1) * b) by nia.
    nia. }
  assert (Rlo : round_units (inject_Z (q * U)) = q * U) by (apply round_units_int; lia).
  assert (Rhi : round_units (inject_Z g) = g).
  { unfold g, T. apply round_units_exact; lia. }
  assert (Hg : g < (q + 1) * U).
  { unfold g. rewrite U_split. fold T. nia. }
  assert (Hovf : (q + 1) * U < OVF) by (apply int_below_OVF; lia).
  destruct (fround_between (q * U) g x Rlo Rhi) as [E B]; auto; try nia.
  rewrite E. unfold f32_to_u8, f32_to_int, ftrunc.
  rewrite (quot_between _ q) by lia.
  destruct (Z.leb_spec 0 q); [|lia]. destruct (Z.leb_spec q 255); [|lia]. reflexivity.
Qed.

Lemma positive_ramp (final curr start end_ : Z) (st : State) :
  is_u8 final -> is_s16 curr -> is_s16 start -> is_s16 end_ ->
  start < end_ -> start <= curr <= end_ ->
  linearly_interpolate_solidity_positive final curr start end_ st
  = Ok (tt, with_solidity (final * (curr - start) / (end_ - start)) st).
Proof.
  unfold is_u8, is_s16. intros Hf Hc Hs He Hlt Hin.
  unfold linearly_interpolate_solidity_positive.
  destruct (Z.ltb_spec curr start); [lia|]. rewrite andb_false_r.
  destruct (Z.ltb_spec end_ curr); [lia|].
  unfold bind, lift. rewrite easein_value by lia. reflexivity.
Qed.

Lemma positive_before (final curr start end_ : Z) (st : State) :
  0 <= curr < start ->
  linearly_interpolate_solidity_positive final curr start end_ st
  = Ok (tt, with_solidity 0 st).
Proof.
  intros H. unfold linearly_interpolate_solidity_positive.
  destruct (Z.leb_spec 0 curr); [|lia]. destruct (Z.ltb_spec curr start); [|lia].
  reflexivity.
Qed.

Lemma positive_after (final curr start end_ : Z) (st : State) :
  start <= end_ -> end_ < curr ->
  linearly_interpolate_solidity_positive final curr start end_ st
  = Ok (tt, with_solidity final st).
Proof.
  intros Hle H. unfold linearly_interpolate_solidity_positive.
  destruct (Z.ltb_spec curr start); [lia|]. rewrite andb_false_r.
  destruct (Z.ltb_spec end_ curr); [|lia]. reflexivity.
Qed.

(** C3 (as amended).  For [start <= end],
    [linearly_interpolate_solidity_positive] stores 0 for every frame with
    [0 <= frame < start] and [finalSolidity] for every frame beyond [end];
    for [start < end] it stores the integer quotient
    [finalSolidity * (frame - start) / (end - start)] on [start..end],
    which is 0 at [start], [finalSolidity] at [end] and non-decreasing in
    the frame. *)
Theorem linearly_interpolate_solidity_positive_spec
    (final curr start end_ : Z) (st : State) :
  is_u8 final -> is_s16 curr -> is_s16 start -> is_s16 end_ -> start <= end_ ->
  (0 <= curr < start ->
     linearly_interpolate_solidity_positive final curr start end_ st
     = Ok (tt, with_solidity 0 st))
  /\ (end_ < curr ->
     linearly_interpolate_solidity_positive final curr start end_ st
     = Ok (tt, with_solidity final st))
  /\ (start < end_ -> start <= curr <= end_ ->
     linearly_interpolate_solidity_positive final curr start end_ st
     = Ok (tt, with_solidity (final * (curr - start) / (end_ - start)) st))
  /\ (start < end_ ->
     linearly_interpolate_solidity_positive final start start end_ st
     = Ok (tt, with_solidity 0 st)
     /\ linearly_interpolate_solidity_positive final end_ start end_ st
        = Ok (tt, with_solidity final st))
  /\ (start < end_ -> forall c1 c2, start <= c1 -> c1 <= c2 -> c2 <= end_ ->
     exists v1 v2,
       linearly_interpolate_solidity_positive final c1 start end_ st
       = Ok (tt, with_solidity v1 st)
       /\ linearly_interpolate_solidity_positive final c2 start end_ st
          = Ok (tt, with_solidity v2 st)
       /\ 0 <= v1 /\ v1 <= v2 /\ v2 <= final).
Proof.
  intros Hf Hc Hs He Hle. pose proof Hf as Hf'. pose proof Hs as Hs'. pose proof He as He'.
  unfold is_u8, is_s16 in Hf', Hs', He'.
  split; [|split; [|split; [|split]]].
  - intros H. now apply positive_before.
  - intros H. now apply positive_after.
  - intros Hlt Hin. now apply positive_ramp.
  - intros Hlt. split.
    + rewrite positive_ramp by (auto; lia).
      replace (start - start) with 0 by lia. now rewrite Z.mul_0_r.
    + rewrite positive_ramp by (auto; lia).
      rewrite Z.div_mul by lia. reflexivity.
  - intros Hlt c1 c2 H1 H12 H2.
    exists (final * (c1 - start) / (end_ - start)), (final * (c2 - start) / (end_ - start)).
    split; [apply positive_ramp; auto; unfold is_s16; lia|].
    split; [apply positive_ramp; auto; unfold is_s16; lia|].
    split; [apply Z.div_pos; nia|].
    split; [apply Z.div_le_mono; nia|].
    apply Z.div_le_upper_bound; nia.
Qed.

(** Frame [-1] lies before [start = 5], and frame [5] is [start] when
    [start = end = 5]; neither run stores 0. *)
Lemma linearly_interpolate_solidity_positive_counterexample :
  linearly_interpolate_solidity_positive 255 (-1) 5 14 st0 = UB UB_float_to_int
  /\ linearly_interpolate_solidity_positive 255 5 5 5 st0 = UB UB_float_to_int.
Proof. split; vm_compute; reflexivity. Qed.


(* ===================================================================== *)
(** ** The ease-out ramp (claim C4) *)
(* ===================================================================== *)

Lemma round_units_U : round_units (inject_Z U) = U.
Proof. replace U with (1 * U) by ring. now apply round_units_int. Qed.

Lemma easeout_quot_bounds (c e : Z) :
  0 <= c <= e -> 0 < e -> 0 <= easeout_quot c e <= U.
Proof.
  intros Hc He. pose proof U_pos. unfold easeout_quot.
  apply round_units_between.
  - reflexivity.
  - apply round_units_U.
  - apply (Qdiv_ge_Z _ 0); [nia|]. rewrite <- Zle_Qle. nia.
  - replace U with (U * 1) at 4 by ring.
    apply Qdiv_le_Z; [nia|]. rewrite <- Zle_Qle. nia.
Qed.

Lemma easeout_quot_mono (c1 c2 e : Z) :
  c1 <= c2 -> 0 < e -> easeout_quot c1 e <= easeout_quot c2 e.
Proof.
  intros Hc He. pose proof U_pos. unfold easeout_quot. apply round_units_mono.
  unfold Qdiv. apply Qmult_le_compat_r.
  - rewrite <- Zle_Qle. nia.
  - apply Qlt_le_weak, Qinv_lt_0_compat, inject_Z_pos. nia.
Qed.

Lemma easeout_quot_0 (e : Z) : 0 < e -> easeout_quot 0 e = 0.
Proof.
  intros He. pose proof U_pos. unfold easeout_quot.
  rewrite (round_units_comp _ 0); [reflexivity|].
  simpl. unfold Qdiv. now rewrite Qmult_0_l.
Qed.

Lemma easeout_quot_end (e : Z) : 0 < e -> easeout_quot e e = U.
Proof.
  intros He. pose proof U_pos. unfold easeout_quot.
  rewrite (round_units_comp _ (inject_Z U)); [apply round_units_U|].
  replace (e * U * U) with (U * (e * U)) by ring.
  rewrite inject_Z_mult. field. apply inject_Z_nonzero. nia.
Qed.

Lemma easeout_factor_bounds (c e : Z) :
  0 <= c <= e -> 0 < e -> 0 <= easeout_factor c e <= U.
Proof.
  intros Hc He. pose proof (easeout_quot_bounds c e Hc He). unfold easeout_factor.
  apply round_units_between.
  - reflexivity.
  - apply round_units_U.
  - rewrite <- Zle_Qle. lia.
  - rewrite <- Zle_Qle. lia.
Qed.

Lemma easeout_factor_anti (c1 c2 e : Z) :
  c1 <= c2 -> 0 < e -> easeout_factor c2 e <= easeout_factor c1 e.
Proof.
  intros Hc He. pose proof (easeout_quot_mono c1 c2 e Hc He).
  unfold easeout_factor. apply round_units_mono. rewrite <- Zle_Qle. lia.
Qed.

Lemma easeout_raw_bounds (initial c e : Z) :
  is_u8 initial -> 0 <= c <= e -> 0 < e ->
  0 <= easeout_raw initial c e <= initial * U.
Proof.
  unfold is_u8. intros Hi Hc He. pose proof (easeout_factor_bounds c e Hc He).
  unfold easeout_raw. change 0 with (0 * U) at 1.
  apply round_units_between; try (apply round_units_int; lia);
    rewrite <- Zle_Qle; nia.
Qed.

Lemma easeout_raw_anti (initial c1 c2 e : Z) :
  is_u8 initial -> c1 <= c2 -> 0 < e ->
  easeout_raw initial c2 e <= easeout_raw initial c1 e.
Proof.
  unfold is_u8. intros Hi Hc He. pose proof (easeout_factor_anti c1 c2 e Hc He).
  unfold easeout_raw. apply round_units_mono. rewrite <- Zle_Qle. nia.
Qed.

Lemma easeout_raw_0 (initial e : Z) :
  is_u8 initial -> 0 < e -> easeout_raw initial 0 e = initial * U.
Proof.
  unfold is_u8. intros Hi He. unfold easeout_raw, easeout_factor.
  rewrite easeout_quot_0 by assumption.
  replace (U + - 0) with U by ring. rewrite round_units_U.
  apply round_units_int. lia.
Qed.

Lemma easeout_raw_end (initial e : Z) :
  0 < e -> easeout_raw initial e e = 0.
Proof.
  intros He. unfold easeout_raw, easeout_factor.
  rewrite easeout_quot_end by assumption.
  replace (U + - U) with 0 by ring. change (round_units (inject_Z 0)) with 0.
  now rewrite Z.mul_0_r.
Qed.

(** The float expression of the ease-out ramp is the finite value
    [easeout_raw]. *)
Lemma easeout_expr (initial c e : Z) :
  is_u8 initial -> 0 <= c <= e -> 1 <= e <= 65535 ->
  fmul (of_int initial) (fsub one (fdiv (of_int c) (of_int e)))
  = Fin (easeout_raw initial c e).
Proof.
  intros Hi Hc He. pose proof Hi as Hi'. unfold is_u8 in Hi'. pose proof U_pos as HU.
  assert (Ec : of_int c = Fin (c * U)) by (apply fround_int; lia).
  assert (Ee : of_int e = Fin (e * U)) by (apply fround_int; lia).
  rewrite Ec, Ee. unfold fdiv.
  destruct (Z.eqb_spec (e * U) 0) as [E | _]; [nia|].
  pose proof (easeout_quot_bounds c e Hc ltac:(lia)) as B1.
  pose proof (int_below_OVF 1 ltac:(lia)) as O1.
  pose proof (int_below_OVF initial ltac:(lia)) as Oi.
  rewrite fround_fin by (fold (easeout_quot c e); lia).
  fold (easeout_quot c e).
  unfold fsub, fneg, fadd, one.
  pose proof (easeout_factor_bounds c e Hc ltac:(lia)) as B2.
  rewrite fround_fin by (fold (easeout_factor c e); lia).
  fold (easeout_factor c e).
  rewrite fmul_int_l by lia.
  pose proof (easeout_raw_bounds initial c e Hi Hc ltac:(lia)) as B3.
  rewrite fround_fin by (fold (easeout_raw initial c e); lia).
  reflexivity.
Qed.

Lemma quot_bounds (r hi : Z) : 0 <= r <= hi * U -> 0 <= Z.quot r U <= hi.
Proof.
  intros H. pose proof U_pos. rewrite Z.quot_div_nonneg by lia. split.
  - apply Z.div_pos; lia.
  - apply Z.div_le_upper_bound; lia.
Qed.

(** The value the ease-out ramp stores: the truncation of the binary32
    value of the expression. *)
Lemma easeout_cast (initial c e : Z) :
  is_u8 initial -> 0 <= c <= e -> 1 <= e <= 65535 ->
  f32_to_u8 (fmul (of_int initial) (fsub one (fdiv (of_int c) (of_int e))))
  = Ok (Z.quot (easeout_raw initial c e) U).
Proof.
  intros Hi Hc He. rewrite easeout_expr by assumption.
  pose proof (easeout_raw_bounds initial c e Hi Hc ltac:(lia)) as B.
  pose proof (quot_bounds _ _ B) as Q. unfold is_u8 in Hi.
  unfold f32_to_u8, f32_to_int, ftrunc.
  destruct (Z.leb_spec 0 (Z.quot (easeout_raw initial c e) U)); [|lia].
  destruct (Z.leb_spec (Z.quot (easeout_raw initial c e) U) 255); [|lia].
  reflexivity.
Qed.

Lemma negative_ramp (initial curr start end_ : Z) (st : State) :
  is_u8 initial -> is_s16 curr -> is_s16 start -> is_s16 end_ ->
  start < end_ -> start <= curr <= end_ ->
  linearly_interpolate_solidity_negative initial curr start end_ st
  = Ok (tt, with_solidity (Z.quot (easeout_raw initial (curr - start) (end_ - start)) U) st).
Proof.
  intros Hi Hc Hs He Hlt Hin. unfold is_s16 in *.
  unfold linearly_interpolate_solidity_negative.
  destruct (Z.leb_spec start curr); [|lia]. destruct (Z.leb_spec curr end_); [|lia].
  simpl andb. cbv iota. unfold bind, lift.
  rewrite easeout_cast by (auto; lia). reflexivity.
Qed.

(** C4.  With [start = 0] and a last frame [end] after it (the one call
    passes 0 and 5), [linearly_interpolate_solidity_negative] stores
    [initialSolidity] at frame 0 and 0 at frame [end]; on [0..end] it
    stores the truncated binary32 value of
    [initialSolidity * (1 - frame / end)], which lies between 0 and
    [initialSolidity] and does not increase with the frame; for every
    [start] and [end] it stores 0 for every frame outside [start..end],
    the frames before [start] included. *)
Theorem linearly_interpolate_solidity_negative_spec (initial end_ : Z) (st : State) :
  is_u8 initial -> is_s16 end_ -> 0 < end_ ->
  linearly_interpolate_solidity_negative initial 0 0 end_ st
  = Ok (tt, with_solidity initial st)
  /\ linearly_interpolate_solidity_negative initial end_ 0 end_ st
     = Ok (tt, with_solidity 0 st)
  /\ (forall c1 c2, 0 <= c1 -> c1 <= c2 -> c2 <= end_ ->
      exists v1 v2,
        linearly_interpolate_solidity_negative initial c1 0 end_ st
        = Ok (tt, with_solidity v1 st)
        /\ linearly_interpolate_solidity_negative initial c2 0 end_ st
           = Ok (tt, with_solidity v2 st)
        /\ f32_to_u8 (fmul (of_int initial) (fsub one (fdiv (of_int c1) (of_int end_))))
           = Ok v1
        /\ f32_to_u8 (fmul (of_int initial) (fsub one (fdiv (of_int c2) (of_int end_))))
           = Ok v2
        /\ 0 <= v2 /\ v2 <= v1 /\ v1 <= initial)
  /\ (forall curr start e, curr < start \/ e < curr ->
      linearly_interpolate_solidity_negative initial curr start e st
      = Ok (tt, with_solidity 0 st)).
Proof.
  intros Hi He Hpos. pose proof Hi as Hi'. pose proof He as He'.
  unfold is_u8, is_s16 in Hi', He'. pose proof U_pos as HU.
  assert (S0 : is_s16 0) by (unfold is_s16; lia).
  split; [|split; [|split]].
  - rewrite negative_ramp by (auto; unfold is_s16; lia).
    replace (0 - 0) with 0 by lia. replace (end_ - 0) with end_ by lia.
    rewrite easeout_raw_0 by (auto; lia).
    rewrite Z.quot_mul by lia. reflexivity.
  - rewrite negative_ramp by (auto; unfold is_s16; lia).
    replace (end_ - 0) with end_ by lia.
    rewrite easeout_raw_end by lia. reflexivity.
  - intros c1 c2 H1 H12 H2.
    exists (Z.quot (easeout_raw initial c1 end_) U),
           (Z.quot (easeout_raw initial c2 end_) U).
    split; [rewrite negative_ramp by (auto; unfold is_s16; lia);
            now rewrite !Z.sub_0_r|].
    split; [rewrite negative_ramp by (auto; unfold is_s16; lia);
            now rewrite !Z.sub_0_r|].
    split; [apply easeout_cast; auto; lia|].
    split; [apply easeout_cast; auto; lia|].
    pose proof (easeout_raw_bounds initial c1 end_ Hi ltac:(lia) ltac:(lia)) as B1.
    pose proof (easeout_raw_bounds initial c2 end_ Hi ltac:(lia) ltac:(lia)) as B2.
    pose proof (easeout_raw_anti initial c1 c2 end_ Hi ltac:(lia) ltac:(lia)) as A.
    pose proof (quot_bounds _ _ B1). pose proof (quot_bounds _ _ B2).
    split; [lia|]. split; [|lia].
    rewrite !Z.quot_div_nonneg by lia. apply Z.div_le_mono; lia.
  - intros curr start e H. unfold linearly_interpolate_solidity_negative.
    destruct (Z.leb_spec start curr); destruct (Z.leb_spec curr e); try reflexivity; lia.
Qed.

(** Ranges no caller passes.  With [start = 0] and [end = -1] the range is
    empty, so frame 0 is outside it and gets solidity 0; with [end = 0]
    frame 0 is both ends of the range and the quotient is [0 / 0]. *)
Lemma linearly_interpolate_solidity_negative_degenerate :
  linearly_interpolate_solidity_negative 255 0 0 (-1) st0 = Ok (tt, with_solidity 0 st0)
  /\ linearly_interpolate_solidity_negative 255 0 0 0 st0 = UB UB_float_to_int.
Proof.
  split; [reflexivity | vm_compute; reflexivity].
Qed.


(* ===================================================================== *)
(** ** Dimming with distance (claim C2) *)
(* ===================================================================== *)

Section Dim.

Variables u : Z.

Hypothesis Hu : 121 <= u <= 255.

Lemma dim_prod_bounds n : 0 <= n <= 600 * U -> (120 - u) * 600 * U <= dim_prod u n <= 0.
Proof.
  intros Hn. pose proof U_pos. unfold dim_prod. change 0 with (0 * U).
  apply round_units_between; try (apply round_units_int; lia);
    rewrite <- Zle_Qle; nia.
Qed.

Lemma dim_prod_anti n1 n2 : n1 <= n2 -> dim_prod u n2 <= dim_prod u n1.
Proof.
  intros H. unfold dim_prod. apply round_units_mono. rewrite <- Zle_Qle. nia.
Qed.

Lemma dim_quot_bounds n : 0 <= n <= 600 * U -> (120 - u) * U <= dim_quot u n <= 0.
Proof.
  intros Hn. pose proof U_pos. pose proof (dim_prod_bounds n Hn). unfold dim_quot.
  change 0 with (0 * U).
  apply round_units_between; try (apply round_units_int; lia).
  - apply Qdiv_ge_Z; [lia|]. rewrite <- Zle_Qle. nia.
  - apply Qdiv_le_Z; [lia|]. rewrite <- Zle_Qle. nia.
Qed.

Lemma dim_quot_anti n1 n2 : n1 <= n2 -> dim_quot u n2 <= dim_quot u n1.
Proof.
  intros H. pose proof U_pos. pose proof (dim_prod_anti n1 n2 H).
  unfold dim_quot. apply round_units_mono.
  unfold Qdiv. apply Qmult_le_compat_r.
  - rewrite <- Zle_Qle. nia.
  - apply Qlt_le_weak, Qinv_lt_0_compat, inject_Z_pos. lia.
Qed.

Lemma dim_raw_bounds n : 0 <= n <= 600 * U -> 120 * U <= dim_raw u n <= u * U.
Proof.
  intros Hn. pose proof (dim_quot_bounds n Hn). unfold dim_raw.
  apply round_units_between; try (apply round_units_int; lia);
    rewrite <- Zle_Qle; lia.
Qed.

Lemma dim_raw_anti n1 n2 : n1 <= n2 -> dim_raw u n2 <= dim_raw u n1.
Proof.
  intros H. pose proof (dim_quot_anti n1 n2 H).
  unfold dim_raw. apply round_units_mono. rewrite <- Zle_Qle. lia.
Qed.

Lemma dim_expr n :
  0 <= n <= 600 * U ->
  fadd (fdiv (fmul (of_int (120 - u)) (Fin n)) c600) (of_int u) = Fin (dim_raw u n).
Proof.
  intros Hn. pose proof U_pos as HU.
  rewrite fmul_int_l by lia.
  pose proof (dim_prod_bounds n Hn) as B1.
  pose proof (int_below_OVF ((120 - u) * 600) ltac:(lia)) as O1.
  rewrite fround_fin by (fold (dim_prod u n); lia). fold (dim_prod u n).
  unfold c600, fdiv. destruct (Z.eqb_spec (600 * U) 0) as [E | _]; [lia|].
  pose proof (dim_quot_bounds n Hn) as B2.
  pose proof (int_below_OVF (120 - u) ltac:(lia)) as O2.
  rewrite fround_fin by (fold (dim_quot u n); lia). fold (dim_quot u n).
  unfold of_int. rewrite fround_int by lia. unfold fadd.
  pose proof (dim_raw_bounds n Hn) as B3.
  pose proof (int_below_OVF u ltac:(lia)) as O3.
  rewrite fround_fin by (fold (dim_raw u n); lia). reflexivity.
Qed.

Lemma dim_val_bounds d : d <> NaN -> 120 <= dim_val u d <= u.
Proof.
  intros Hd. destruct d as [| [|] | n]; cbn [dim_val]; try lia; [congruence|].
  destruct (Z.leb_spec n 0); [lia|]. destruct (Z.leb_spec (600 * U) n); [lia|].
  pose proof (dim_raw_bounds n ltac:(lia)) as B.
  pose proof U_pos. rewrite Z.quot_div_nonneg by lia. split.
  - apply Z.div_le_lower_bound; lia.
  - apply Z.div_le_upper_bound; lia.
Qed.

Lemma dim_shadow_with_distance_val d :
  d <> NaN -> dim_shadow_with_distance u d = Ok (dim_val u d).
Proof.
  intros Hd. unfold dim_shadow_with_distance.
  destruct (Z.ltb_spec u 121); [lia|].
  destruct d as [| [|] | n]; cbn [dim_val]; try reflexivity; [congruence|].
  pose proof (dim_val_bounds (Fin n) ltac:(discriminate)) as B. cbn [dim_val] in B.
  unfold fge. unfold c600 at 1. unfold zero. cbn [fle].
  destruct (Z.leb_spec n 0); [reflexivity|].
  destruct (Z.leb_spec (600 * U) n); [reflexivity|].
  rewrite dim_expr by lia.
  unfold f32_to_s32, f32_to_int, ftrunc.
  destruct (Z.leb_spec (- 2 ^ 31) (Z.quot (dim_raw u n) U)); [|lia].
  destruct (Z.leb_spec (Z.quot (dim_raw u n) U) (2 ^ 31 - 1)); [|lia].
  reflexivity.
Qed.

Lemma dim_val_anti d1 d2 : fle d1 d2 = true -> dim_val u d2 <= dim_val u d1.
Proof.
  intros H.
  pose proof U_pos as HU.
  destruct d1 as [| [|] | n1]; destruct d2 as [| [|] | n2]; cbn [fle] in H;
    try discriminate;
    try (pose proof (dim_val_bounds (Fin n1) ltac:(discriminate)));
    try (pose proof (dim_val_bounds (Fin n2) ltac:(discriminate)));
    cbn [dim_val] in *; try lia.
  apply Z.leb_le in H.
  destruct (Z.leb_spec n1 0); destruct (Z.leb_spec n2 0); try lia;
  destruct (Z.leb_spec (600 * U) n1); destruct (Z.leb_spec (600 * U) n2); try lia.
  pose proof (dim_raw_anti n1 n2 H). pose proof (dim_raw_bounds n1 ltac:(lia)).
  pose proof (dim_raw_bounds n2 ltac:(lia)).
  rewrite !Z.quot_div_nonneg by lia. apply Z.div_le_mono; lia.
Qed.

End Dim.

Lemma fle_not_nan_l a b : fle a b = true -> a <> NaN.
Proof. destruct a; simpl; congruence. Qed.

Lemma fle_not_nan_r a b : fle a b = true -> b <> NaN.
Proof. destruct a as [| [|] |], b; simpl; congruence. Qed.

Lemma flt_not_fle a b : flt a b = true -> fle b a = false.
Proof.
  destruct a as [| [|] | n], b as [| [|] | m]; simpl; try congruence.
  intros H. apply Z.ltb_lt in H. apply Z.leb_gt. exact H.
Qed.

Lemma flt_not_nan_l a b : flt a b = true -> a <> NaN.
Proof. destruct a; simpl; congruence. Qed.

(** C2.  [dim_shadow_with_distance u d] returns [u] for every [d] when
    [u < 121]; for [u >= 121] it returns [u] for every [d <= 0] (in
    particular at 0), exactly 120 for every [d >= 600], the truncated
    binary32 value of [(120 - u) * d / 600 + u], which lies between 120 and
    [u], for [0 < d < 600], and it is non-increasing in [d]. *)
Theorem dim_shadow_with_distance_spec (u : Z) :
  is_u8 u ->
  (u < 121 -> forall d, dim_shadow_with_distance u d = Ok u)
  /\ (121 <= u ->
      (forall d, fle d zero = true -> dim_shadow_with_distance u d = Ok u)
      /\ dim_shadow_with_distance u zero = Ok u
      /\ (forall d, fge d c600 = true -> dim_shadow_with_distance u d = Ok 120)
      /\ (forall d, flt zero d = true -> flt d c600 = true ->
          exists v,
            dim_shadow_with_distance u d = Ok v
            /\ f32_to_s32 (fadd (fdiv (fmul (of_int (120 - u)) d) c600) (of_int u)) = Ok v
            /\ 120 <= v <= u)
      /\ (forall d1 d2, fle d1 d2 = true ->
          exists v1 v2,
            dim_shadow_with_distance u d1 = Ok v1
            /\ dim_shadow_with_distance u d2 = Ok v2
            /\ 120 <= v2 /\ v2 <= v1 /\ v1 <= u)).
Proof.
  unfold is_u8. intros Hu. split.
  - intros H d. unfold dim_shadow_with_distance.
    destruct (Z.ltb_spec u 121); [reflexivity | lia].
  - intros H. assert (Hu' : 121 <= u <= 255) by lia.
    split; [|split; [|split; [|split]]].
    + intros d Hd. unfold dim_shadow_with_distance.
      destruct (Z.ltb_spec u 121); [lia|]. now rewrite Hd.
    + unfold dim_shadow_with_distance.
      destruct (Z.ltb_spec u 121); [lia|]. reflexivity.
    + intros d Hd. unfold dim_shadow_with_distance.
      destruct (Z.ltb_spec u 121); [lia|]. rewrite Hd.
      destruct (fle d zero) eqn:E; [|reflexivity].
      exfalso. pose proof U_pos.
      unfold fge, c600, zero in *.
      destruct d as [| [|] | n]; cbn [fle] in *; try discriminate.
      apply Z.leb_le in E. apply Z.leb_le in Hd. lia.
    + intros d H0 H6. exists (dim_val u d).
      assert (Hn : d <> NaN) by (destruct d; simpl in *; congruence).
      assert (E : dim_shadow_with_distance u d = Ok (dim_val u d))
        by (now apply dim_shadow_with_distance_val).
      split; [exact E|]. split; [|now apply dim_val_bounds].
      rewrite <- E. unfold dim_shadow_with_distance.
      destruct (Z.ltb_spec u 121); [lia|].
      rewrite (flt_not_fle _ _ H0). unfold fge. now rewrite (flt_not_fle _ _ H6).
    + intros d1 d2 Hd. exists (dim_val u d1), (dim_val u d2).
      pose proof (fle_not_nan_l _ _ Hd). pose proof (fle_not_nan_r _ _ Hd).
      split; [now apply dim_shadow_with_distance_val|].
      split; [now apply dim_shadow_with_distance_val|].
      pose proof (dim_val_bounds u Hu' d1 ltac:(auto)).
      pose proof (dim_val_bounds u Hu' d2 ltac:(auto)).
      pose proof (dim_val_anti u Hu' d1 d2 Hd). lia.
Qed.


(* ===================================================================== *)
(** ** Scaling with distance (claim C1) *)
(* ===================================================================== *)

Lemma U_double : U = 2 * 2 ^ 148.
Proof. reflexivity. Qed.

Lemma round_units_half : round_units (inject_Z (2 ^ 148)) = 2 ^ 148.
Proof. replace (2 ^ 148) with (1 * 2 ^ 148) by ring. apply round_units_exact; lia. Qed.

Lemma scale_half_bounds n : 0 <= n <= 600 * U -> 0 <= scale_half n <= 300 * U.
Proof.
  intros Hn. pose proof U_pos. unfold scale_half. change 0 with (0 * U) at 1.
  apply round_units_between; try (apply round_units_int; lia).
  - apply Qdiv_ge_Z; [lia|]. rewrite <- Zle_Qle. nia.
  - apply Qdiv_le_Z; [lia|]. rewrite <- Zle_Qle.
    pose proof U_double as D. set (h := 2 ^ 148) in *. nia.
Qed.

Lemma scale_half_mono n1 n2 : n1 <= n2 -> scale_half n1 <= scale_half n2.
Proof.
  intros H. pose proof U_pos. unfold scale_half. apply round_units_mono.
  unfold Qdiv. apply Qmult_le_compat_r.
  - rewrite <- Zle_Qle. apply Z.mul_le_mono_nonneg_r; [|exact H]. apply Z.pow_nonneg. lia.
  - apply Qlt_le_weak, Qinv_lt_0_compat, inject_Z_pos. lia.
Qed.

Lemma scale_quot_bounds n : 0 <= n <= 600 * U -> 0 <= scale_quot n <= 2 ^ 148.
Proof.
  intros Hn. pose proof U_pos. pose proof (scale_half_bounds n Hn). unfold scale_quot.
  apply round_units_between.
  - reflexivity.
  - apply round_units_half.
  - apply (Qdiv_ge_Z _ 0); [lia|]. rewrite <- Zle_Qle. nia.
  - apply Qdiv_le_Z; [lia|]. rewrite <- Zle_Qle.
    pose proof U_double as D. set (h := 2 ^ 148) in *. nia.
Qed.

Lemma scale_quot_mono n1 n2 : n1 <= n2 -> scale_quot n1 <= scale_quot n2.
Proof.
  intros H. pose proof U_pos. pose proof (scale_half_mono n1 n2 H).
  unfold scale_quot. apply round_units_mono.
  unfold Qdiv. apply Qmult_le_compat_r.
  - rewrite <- Zle_Qle. nia.
  - apply Qlt_le_weak, Qinv_lt_0_compat, inject_Z_pos. lia.
Qed.

Lemma scale_factor_bounds n : 0 <= n <= 600 * U -> 2 ^ 148 <= scale_factor n <= U.
Proof.
  intros Hn. pose proof (scale_quot_bounds n Hn). unfold scale_factor.
  apply round_units_between.
  - apply round_units_half.
  - apply round_units_U.
  - rewrite <- Zle_Qle. pose proof U_double as D. set (h := 2 ^ 148) in *. lia.
  - rewrite <- Zle_Qle. lia.
Qed.

Lemma scale_factor_anti n1 n2 : n1 <= n2 -> scale_factor n2 <= scale_factor n1.
Proof.
  intros H. pose proof (scale_quot_mono n1 n2 H).
  unfold scale_factor. apply round_units_mono. rewrite <- Zle_Qle. lia.
Qed.

Lemma half_pos : 0 < 2 ^ 148.
Proof. reflexivity. Qed.

Lemma scale_factor_expr n :
  0 <= n <= 600 * U ->
  fsub one (fdiv (fmul (Fin n) half) c600) = Fin (scale_factor n).
Proof.
  intros Hn. pose proof U_pos as HU. pose proof half_pos as HH.
  unfold half, fmul.
  pose proof (scale_half_bounds n Hn) as B1.
  pose proof (int_below_OVF 300 ltac:(lia)) as O1.
  rewrite fround_fin by (fold (scale_half n); lia). fold (scale_half n).
  unfold c600, fdiv. destruct (Z.eqb_spec (600 * U) 0) as [E | _]; [lia|].
  pose proof (scale_quot_bounds n Hn) as B2.
  pose proof (int_below_OVF 1 ltac:(lia)) as O2.
  assert (2 ^ 148 < U) by (rewrite U_double; lia).
  rewrite fround_fin by (fold (scale_quot n); lia). fold (scale_quot n).
  unfold fsub, fneg, fadd, one.
  pose proof (scale_factor_bounds n Hn) as B3.
  rewrite fround_fin by (fold (scale_factor n); lia). reflexivity.
Qed.

(** The three branches, for a finite distance of [n] units. *)
Lemma scale_shadow_with_distance_fin initial n :
  scale_shadow_with_distance initial (Fin n)
  = if n <=? 0 then initial
    else if 600 * U <=? n then fmul initial half
    else fmul initial (Fin (scale_factor n)).
Proof.
  unfold scale_shadow_with_distance, fge. unfold c600 at 1. unfold zero. cbn [fle].
  destruct (Z.leb_spec n 0); [reflexivity|].
  destruct (Z.leb_spec (600 * U) n); [reflexivity|].
  now rewrite scale_factor_expr by lia.
Qed.

(** Multiplication by a non-negative binary32 number is monotone. *)
Lemma fmul_mono_r initial a b :
  fle zero initial = true -> 0 < a -> a <= b ->
  fle (fmul initial (Fin a)) (fmul initial (Fin b)) = true.
Proof.
  intros Hs Ha Hab. pose proof U_pos as HU.
  destruct initial as [| [|] | m]; try discriminate.
  - cbn [fmul]. destruct (Z.eqb_spec a 0); [lia|]. destruct (Z.eqb_spec b 0); [lia|].
    destruct (Z.ltb_spec a 0); [lia|]. destruct (Z.ltb_spec b 0); [lia|]. reflexivity.
  - unfold zero in Hs. cbn [fle] in Hs. apply Z.leb_le in Hs.
    cbn [fmul]. apply fround_mono.
    unfold Qdiv. apply Qmult_le_compat_r.
    + rewrite <- Zle_Qle. nia.
    + apply Qlt_le_weak, Qinv_lt_0_compat, inject_Z_pos. lia.
Qed.

Lemma fmul_one_r initial : is_f32 initial = true -> fmul initial one = initial.
Proof.
  intros Hs. pose proof U_pos as HU. destruct initial as [| sg | m]; [reflexivity| |].
  - unfold one. cbn [fmul]. destruct (Z.eqb_spec U 0); [lia|].
    destruct (Z.ltb_spec U 0); [lia|]. now rewrite xorb_false_r.
  - unfold one. cbn [fmul]. cbn [is_f32] in Hs.
    apply andb_prop in Hs. destruct Hs as [E L].
    apply Z.eqb_eq in E. apply Z.ltb_lt in L.
    rewrite (fround_comp _ (inject_Z m)) by apply Qdiv_U.
    rewrite fround_fin by (rewrite E; exact L). now rewrite E.
Qed.

Lemma fle_refl initial : initial <> NaN -> fle initial initial = true.
Proof.
  destruct initial as [| [|] | m]; cbn [fle]; try reflexivity; [congruence|].
  intros _. apply Z.leb_refl.
Qed.

Lemma scale_shadow_with_distance_mono initial d1 d2 :
  is_f32 initial = true -> fle zero initial = true -> fle d1 d2 = true ->
  fle (scale_shadow_with_distance initial d2) (scale_shadow_with_distance initial d1) = true.
Proof.
  intros Hv Hs Hd. pose proof U_pos as HU. pose proof half_pos as HH.
  assert (Hn : initial <> NaN) by (eapply fle_not_nan_r; eauto).
  assert (HU2 : 2 ^ 148 < U) by (rewrite U_double; lia).
  assert (Hhalf : fle (fmul initial half) initial = true).
  { rewrite <- (fmul_one_r initial Hv) at 2. unfold half, one. apply fmul_mono_r; auto; lia. }
  assert (Hfac : forall n, 0 <= n <= 600 * U ->
                   fle (fmul initial (Fin (scale_factor n))) initial = true
                   /\ fle (fmul initial half) (fmul initial (Fin (scale_factor n))) = true).
  { intros n Hb. pose proof (scale_factor_bounds n Hb). split.
    - rewrite <- (fmul_one_r initial Hv) at 2. unfold one. apply fmul_mono_r; auto; lia.
    - unfold half. apply fmul_mono_r; auto; lia. }
  assert (Hrefl1 : fle initial initial = true) by (now apply fle_refl).
  assert (Hrefl2 : fle (fmul initial half) (fmul initial half) = true)
    by (unfold half; apply fmul_mono_r; auto; lia).
  assert (Einf : scale_shadow_with_distance initial (Inf false) = fmul initial half) by reflexivity.
  assert (Eninf : scale_shadow_with_distance initial (Inf true) = initial) by reflexivity.
  destruct d1 as [| [|] | n1]; destruct d2 as [| [|] | n2]; cbn [fle] in Hd;
    try discriminate;
    rewrite ?Einf, ?Eninf, ?scale_shadow_with_distance_fin; auto.
  - destruct (Z.leb_spec n2 0); auto. destruct (Z.leb_spec (600 * U) n2); auto.
    apply Hfac; lia.
  - destruct (Z.leb_spec n1 0); auto. destruct (Z.leb_spec (600 * U) n1); auto.
    apply Hfac; lia.
  - apply Z.leb_le in Hd.
    destruct (Z.leb_spec n1 0); destruct (Z.leb_spec n2 0); try lia; auto;
    destruct (Z.leb_spec (600 * U) n1); destruct (Z.leb_spec (600 * U) n2);
      try lia; auto; try (apply Hfac; lia).
    pose proof (scale_factor_bounds n2 ltac:(lia)).
    apply fmul_mono_r; auto; [lia|]. now apply scale_factor_anti.
Qed.

(** C1 (as amended).  [scale_shadow_with_distance s d] is [s] for every
    [d <= 0] (in particular at 0), is [s * 0.5f] at [d = 600] and for every
    [d] beyond 600, is the linear fall-off [s * (1 - (d * 0.5) / 600)]
    in between, and, for every binary32 scale [s >= 0], is non-increasing
    in [d]. *)
Theorem scale_shadow_with_distance_spec (initial : f32) :
  (forall d, fle d zero = true -> scale_shadow_with_distance initial d = initial)
  /\ scale_shadow_with_distance initial zero = initial
  /\ scale_shadow_with_distance initial c600 = fmul initial half
  /\ (forall d, fgt d c600 = true -> scale_shadow_with_distance initial d = fmul initial half)
  /\ (forall d, flt zero d = true -> flt d c600 = true ->
      scale_shadow_with_distance initial d
      = fmul initial (fsub one (fdiv (fmul d half) c600)))
  /\ (is_f32 initial = true -> fle zero initial = true ->
      forall d1 d2, fle d1 d2 = true ->
        fle (scale_shadow_with_distance initial d2) (scale_shadow_with_distance initial d1) = true).
Proof.
  pose proof U_pos as HU.
  split; [|split; [|split; [|split; [|split]]]].
  - intros d Hd. unfold scale_shadow_with_distance. now rewrite Hd.
  - reflexivity.
  - unfold c600 at 1. rewrite (scale_shadow_with_distance_fin initial (600 * U)).
    destruct (Z.leb_spec (600 * U) 0); [lia|]. now rewrite Z.leb_refl.
  - intros d Hd. unfold fgt, c600 in Hd.
    destruct d as [| [|] | n]; cbn [flt] in Hd; try discriminate; [reflexivity|].
    apply Z.ltb_lt in Hd. rewrite scale_shadow_with_distance_fin.
    destruct (Z.leb_spec n 0); [lia|]. destruct (Z.leb_spec (600 * U) n); [reflexivity|lia].
  - intros d H0 H6. unfold zero, c600 in H0, H6.
    destruct d as [| [|] | n]; cbn [flt] in H0, H6; try discriminate.
    apply Z.ltb_lt in H0. apply Z.ltb_lt in H6.
    unfold scale_shadow_with_distance, fge. unfold c600 at 1. unfold zero. cbn [fle].
    destruct (Z.leb_spec n 0); [lia|]. destruct (Z.leb_spec (600 * U) n); [lia|]. reflexivity.
  - intros Hv Hs d1 d2 Hd. now apply scale_shadow_with_distance_mono.
Qed.

(** For the negative scale [-2.0f] the result grows with the distance:
    [-2.0f] at distance 0, [-1.0f] at distance 600. *)
Lemma scale_shadow_with_distance_counterexample :
  fle zero c600 = true
  /\ scale_shadow_with_distance (of_int (-2)) zero = of_int (-2)
  /\ scale_shadow_with_distance (of_int (-2)) c600 = of_int (-1)
  /\ fle (scale_shadow_with_distance (of_int (-2)) c600)
         (scale_shadow_with_distance (of_int (-2)) zero) = false.
Proof. repeat split; vm_compute; reflexivity. Qed.


(* ===================================================================== *)
(** ** Corners and the rectangle table (claims C7 and C9) *)
(* ===================================================================== *)

(** C7.  [get_vertex_coords] maps the indices 0, 1, 2, 3 to the corners
    (-1,-1), (1,-1), (-1,1), (1,1), one index per corner, and the texture
    coordinates [get_texture_coords] gives an index lie in the same
    corner, with either texture size. *)
Theorem vertex_corner_mapping (C : Consts) :
  map get_vertex_coords [0; 1; 2; 3] = corners
  /\ NoDup (map get_vertex_coords [0; 1; 2; 3])
  /\ map (fun i => corner_of (get_texture_coords C i)) [0; 1; 2; 3]
     = map get_vertex_coords [0; 1; 2; 3].
Proof.
  split; [reflexivity|]. split.
  - change (map get_vertex_coords [0; 1; 2; 3]) with corners. unfold corners.
    repeat constructor; simpl; intuition congruence.
  - unfold get_texture_coords. destruct (HD_SHADOWS C); reflexivity.
Qed.

Lemma candidate_outside (l : list Z) :
  (length l < length candidates)%nat -> exists k, In k candidates /\ ~ In k l.
Proof.
  intros Hlen.
  destruct (Forall_Exists_dec (fun k => In k l) (fun k => in_dec Z.eq_dec k l) candidates)
    as [Hall | Hex].
  - exfalso.
    assert (Hincl : incl candidates l) by (intros k Hk; rewrite Forall_forall in Hall; auto).
    assert (Hnd : NoDup candidates).
    { unfold candidates. repeat constructor; simpl; intuition lia. }
    pose proof (NoDup_incl_length Hnd Hincl). lia.
  - apply Exists_exists in Hex. exact Hex.
Qed.

Lemma wrap_s8_zero k o : -128 <= k <= 127 -> wrap_s8 (k - o) = 0 -> k = wrap_s8 o.
Proof. unfold wrap_s8. intros. Z.div_mod_to_equations. lia. Qed.

Lemma wrap_s8_one k o : -128 <= k <= 127 -> wrap_s8 (k - o) = 1 -> k = wrap_s8 (o + 1).
Proof. unfold wrap_s8. intros. Z.div_mod_to_equations. lia. Qed.

Lemma wrap_s8_range z : -128 <= wrap_s8 z <= 127.
Proof. unfold wrap_s8. Z.div_mod_to_equations. lia. Qed.

(** C9.  Whatever the constants of [shadow.h] are, some [s8] shadow type
    is none of the five types with a case of their own and has an index
    [shadowType - SHADOW_RECTANGLE_HARDCODED_OFFSET] outside 0..1; for it
    the read of [rectangles] is out of bounds, and every build that finds a
    floor not below the lower limit performs that read. *)
Theorem hardcoded_rectangle_unguarded (C : Consts) :
  exists shadowType,
    -128 <= shadowType <= 127
    /\ ~ In shadowType
         [ SHADOW_CIRCLE_PLAYER C; SHADOW_CIRCLE C; SHADOW_SQUARE_PERMANENT C;
           SHADOW_SQUARE_SCALABLE C; SHADOW_SQUARE_TOGGLABLE C ]
    /\ ~ In (wrap_s8 (shadowType - SHADOW_RECTANGLE_HARDCODED_OFFSET C)) [0; 1]
    /\ rectangles_at (wrap_s8 (shadowType - SHADOW_RECTANGLE_HARDCODED_OFFSET C))
       = UB UB_out_of_bounds
    /\ forall W x y z sc sol st st1 f,
         create_shadow_below_xyz_floor C W x y z st = Ok (true, st1) ->
         floor (s st1) = Some f ->
         flt (floorHeight (s st1)) (FLOOR_LOWER_LIMIT_MISC C) = false ->
         create_shadow_below_xyz C W x y z sc sol shadowType st = UB UB_out_of_bounds.
Proof.
  destruct (candidate_outside (recognised_or_valid C)) as (k & Hk & Hout);
    [simpl; lia|].
  exists k.
  assert (Hr : -128 <= k <= 127) by (unfold candidates in Hk; simpl in Hk; lia).
  unfold recognised_or_valid in Hout. simpl in Hout.
  assert (Hidx : ~ In (wrap_s8 (k - SHADOW_RECTANGLE_HARDCODED_OFFSET C)) [0; 1]).
  { simpl. intros [E | [E | []]]; symmetry in E.
    - apply wrap_s8_zero in E; [intuition congruence | lia].
    - apply wrap_s8_one in E; [intuition congruence | lia]. }
  assert (Eat : rectangles_at (wrap_s8 (k - SHADOW_RECTANGLE_HARDCODED_OFFSET C))
                = UB UB_out_of_bounds).
  { unfold rectangles_at. simpl in Hidx.
    destruct (Z.leb_spec 0 (wrap_s8 (k - SHADOW_RECTANGLE_HARDCODED_OFFSET C)));
    destruct (Z.ltb_spec (wrap_s8 (k - SHADOW_RECTANGLE_HARDCODED_OFFSET C)) 2);
      simpl; try reflexivity. exfalso. lia. }
  split; [exact Hr|]. split; [simpl; tauto|]. split; [exact Hidx|]. split; [exact Eat|].
  intros W x y z sc sol st st1 f Hfloor Hf Hh.
  unfold create_shadow_below_xyz, bind. rewrite Hfloor.
  unfold create_shadow_below_xyz_dispatch. run. rewrite Hf. run.
  destruct (Z.eqb_spec k (SHADOW_CIRCLE_PLAYER C)); [exfalso; intuition congruence|].
  destruct (Z.eqb_spec k (SHADOW_CIRCLE C)); [exfalso; intuition congruence|].
  destruct (Z.eqb_spec k (SHADOW_SQUARE_PERMANENT C)); [exfalso; intuition congruence|].
  destruct (Z.eqb_spec k (SHADOW_SQUARE_SCALABLE C)); [exfalso; intuition congruence|].
  destruct (Z.eqb_spec k (SHADOW_SQUARE_TOGGLABLE C)); [exfalso; intuition congruence|].
  simpl orb. cbv iota.
  unfold create_shadow_hardcoded_rectangle, get_shadow_height_solidity.
  rewrite Eat.
  destruct (type f); run; rewrite Hh;
    destruct (flt (find_water_level W x z) (FLOOR_LOWER_LIMIT_MISC C)); run; try reflexivity;
    destruct (fge y (find_water_level W x z) && fge (find_water_level W x z) (floorHeight (s st1)));
    run; reflexivity.
Qed.


(* ===================================================================== *)
(** ** Builds over an invalid floor *)
(* ===================================================================== *)

Lemma f32_to_int_ub lo hi a k : f32_to_int lo hi a = UB k -> k = UB_float_to_int.
Proof.
  unfold f32_to_int. destruct (ftrunc a); [destruct (_ && _)|]; congruence.
Qed.




(** The water query never fails; it leaves the workspace alone and either
    marks the water box or leaves the flags as they were. *)
Lemma get_water_level_below_shadow_run (C : Consts) (W : World) (st : State) :
  exists wl wfl,
    get_water_level_below_shadow C W st
    = Ok ((wl, wfl),
          if over_water_box C W (vec_x (parentPos (s st))) (vec_y (parentPos (s st)))
               (vec_z (parentPos (s st))) (floorHeight (s st))
          then with_flags (flag_set (SHADOW_FLAG_WATER_BOX C) (gShadowFlags st)) st
          else st).
Proof.
  unfold get_water_level_below_shadow, over_water_box. run.
  destruct (find_water_level_and_floor W _ _) as [wl wfl].
  destruct (flt wl (FLOOR_LOWER_LIMIT_MISC C)); run; [eauto|].
  destruct (fge _ wl && fle _ wl); run; eauto.
Qed.


Section Rejected.

Variable C : Consts.

Variable W : World.

Hypothesis Hwf : wf_flags C = true.

Variables (x y z : f32) (sc sol : Z) (f : Surface).












End Rejected.

Section PlayerRejected.

Variable C : Consts.

Variable W : World.

Hypothesis Hwf : wf_flags C = true.

Variables (x y z : f32) (sc sol : Z) (f : Surface).






End PlayerRejected.


(* ===================================================================== *)
(** ** Vertices and their alpha *)
(* ===================================================================== *)

Lemma bind_ok_inv {A B} (m : M A) (k : A -> M B) st b st' :
  bind m k st = Ok (b, st') ->
  exists a st1, m st = Ok (a, st1) /\ k a st1 = Ok (b, st').
Proof.
  unfold bind. destruct (m st) as [[a st1] | u]; [eauto | discriminate].
Qed.

Lemma lift_ok_inv {A} (r : res A) st a st' :
  lift r st = Ok (a, st') -> r = Ok a /\ st' = st.
Proof. unfold lift. destruct r; intros E; inversion E; auto. Qed.

Lemma ret_ok_inv {A} (a b : A) st st' : ret a st = Ok (b, st') -> b = a /\ st' = st.
Proof. unfold ret. intros E; inversion E; auto. Qed.

Section Vertices.

Variable C : Consts.

Variable W : World.

Lemma make_shadow_vertex_at_xyz_inv verts index relX relY relZ alpha st verts' st' :
  make_shadow_vertex_at_xyz C W verts index relX relY relZ alpha st = Ok (verts', st') ->
  st' = st /\ exists v, verts' = store_vtx verts (Z.to_nat index) v /\ v_a v = alpha.
Proof.
  unfold make_shadow_vertex_at_xyz. intros E.
  apply bind_ok_inv in E. destruct E as (vy & st1 & E1 & E).
  apply lift_ok_inv in E1. destruct E1 as [_ ->].
  destruct (get_texture_coords C index) as [tx ty].
  apply bind_ok_inv in E. destruct E as (st2 & st3 & E2 & E).
  inversion E2; subst. clear E2.
  apply bind_ok_inv in E. destruct E as (vx & st4 & E3 & E).
  apply lift_ok_inv in E3. destruct E3 as [_ ->].
  apply bind_ok_inv in E. destruct E as (vz & st5 & E4 & E).
  apply lift_ok_inv in E4. destruct E4 as [_ ->].
  apply ret_ok_inv in E. destruct E as [-> ->].
  split; [reflexivity|]. unfold make_vertex. eexists. split; reflexivity.
Qed.

Lemma calculate_vertex_xyz_inv index st p st' :
  calculate_vertex_xyz C W index st = Ok (p, st') -> st' = st.
Proof.
  unfold calculate_vertex_xyz. run.
  destruct (get_vertex_coords index) as [xc zc].
  destruct (flag_test _ _); run; [intros E; now inversion E|].
  destruct (floor (s st)); run; intros E; now inversion E.
Qed.

Lemma make_shadow_vertex_inv verts index st verts' st' :
  make_shadow_vertex C W verts index st = Ok (verts', st') ->
  st' = st
  /\ exists v, verts' = store_vtx verts (Z.to_nat index) v /\ v_a v = emitted_alpha C st.
Proof.
  unfold make_shadow_vertex. intros E.
  apply bind_ok_inv in E. destruct E as (st1 & st2 & E1 & E).
  inversion E1; subst. clear E1.
  apply bind_ok_inv in E. destruct E as ([[px py] pz] & st3 & E1 & E).
  apply calculate_vertex_xyz_inv in E1. subst st3.
  apply make_shadow_vertex_at_xyz_inv in E. exact E.
Qed.

Lemma make_shadow_vertices_inv st verts st' :
  make_shadow_vertices C W fresh_verts st = Ok (verts, st') ->
  st' = st
  /\ length verts = 4%nat
  /\ Forall (fun v => v_a v = emitted_alpha C st) verts.
Proof.
  unfold make_shadow_vertices. intros E.
  apply bind_ok_inv in E. destruct E as (l0 & st0 & E0 & E).
  apply make_shadow_vertex_inv in E0. destruct E0 as (-> & v0 & -> & A0).
  apply bind_ok_inv in E. destruct E as (l1 & st1 & E1 & E).
  apply make_shadow_vertex_inv in E1. destruct E1 as (-> & v1 & -> & A1).
  apply bind_ok_inv in E. destruct E as (l2 & st2 & E2 & E).
  apply make_shadow_vertex_inv in E2. destruct E2 as (-> & v2 & -> & A2).
  apply make_shadow_vertex_inv in E. destruct E as (-> & v3 & -> & A3).
  split; [reflexivity|]. split; [reflexivity|].
  simpl. repeat constructor; assumption.
Qed.

Lemma store_vtx_nth verts i v :
  (i < length verts)%nat -> nth_error (store_vtx verts i v) i = Some v.
Proof.
  revert i. induction verts as [| hd tl IH]; intros i Hi; simpl in Hi; [lia|].
  destruct i as [| i]; simpl; [reflexivity|]. apply IH. lia.
Qed.

Lemma create_shadow_player_inv x y z sc sol st dl st' :
  create_shadow_player C W x y z sc sol st = Ok (Some dl, st') ->
  exists verts,
    dl = add_shadow_to_display_list verts SHADOW_SHAPE_CIRCLE
    /\ length verts = 4%nat
    /\ Forall (fun v => v_a v = emitted_alpha C st') verts.
Proof.
  unfold create_shadow_player. intros E.
  apply bind_ok_inv in E. destruct E as ([] & st1 & _ & E).
  apply bind_ok_inv in E. destruct E as (a & st2 & _ & E).
  assert (H : forall ov,
             (noShadow <- init_shadow C W x y z sc ov ;;
              if noShadow then ret None
              else if negb (alloc_verts W && alloc_gfx W) then ret None
              else
                correct_lava_shadow_height C W ;;
                verts <- make_shadow_vertices C W fresh_verts ;;
                ret (Some (add_shadow_to_display_list verts SHADOW_SHAPE_CIRCLE))) st2
             = Ok (Some dl, st') ->
             exists verts,
               dl = add_shadow_to_display_list verts SHADOW_SHAPE_CIRCLE
               /\ length verts = 4%nat
               /\ Forall (fun v => v_a v = emitted_alpha C st') verts).
  { intros ov E'.
    apply bind_ok_inv in E'. destruct E' as (ns & st3 & _ & E').
    destruct ns; [apply ret_ok_inv in E'; destruct E'; discriminate|].
    destruct (negb (alloc_verts W && alloc_gfx W));
      [apply ret_ok_inv in E'; destruct E'; discriminate|].
    apply bind_ok_inv in E'. destruct E' as ([] & st4 & _ & E').
    apply bind_ok_inv in E'. destruct E' as (verts & st5 & Ev & E').
    apply ret_ok_inv in E'. destruct E' as [E' ->]. inversion E'; subst.
    apply make_shadow_vertices_inv in Ev. destruct Ev as (-> & L & F).
    exists verts. auto. }
  destruct a; [apply ret_ok_inv in E; destruct E; discriminate | |]; eapply H; exact E.
Qed.

Lemma correct_lava_shadow_height_marks st f :
  is_mask (SHADOW_FLAG_WATER_BOX C) = true ->
  floor (s st) = Some f -> type f = SURFACE_BURNING ->
  (gCurrLevelNum W = LEVEL_LLL /\ gCurrAreaIndex W = 1)
  \/ (gCurrLevelNum W = LEVEL_BITFS
      /\ (flt (floorHeight (s st)) (of_int (-3000)) = true
          \/ fgt (floorHeight (s st)) (of_int 3400) = true)) ->
  exists st',
    correct_lava_shadow_height C W st = Ok (tt, st')
    /\ flag_test (gShadowFlags st') (SHADOW_FLAG_WATER_BOX C) = true.
Proof.
  intros Hm Hf Ht Hc. unfold correct_lava_shadow_height. run. rewrite Hf. run. rewrite Ht.
  destruct Hc as [[-> ->] | [-> Hc]]; run.
  - eexists. split; [reflexivity|]. simpl. now apply flag_test_set_same.
  - destruct (flt (floorHeight (s st)) (of_int (-3000))) eqn:E1; run.
    + eexists. split; [reflexivity|]. simpl. now apply flag_test_set_same.
    + destruct Hc as [Hc | Hc]; [discriminate|]. rewrite Hc. run.
      eexists. split; [reflexivity|]. simpl. now apply flag_test_set_same.
Qed.

Lemma correct_lava_shadow_height_keeps st st' :
  is_mask (SHADOW_FLAG_WATER_BOX C) = true ->
  correct_lava_shadow_height C W st = Ok (tt, st') ->
  flag_test (gShadowFlags st) (SHADOW_FLAG_WATER_BOX C) = true ->
  flag_test (gShadowFlags st') (SHADOW_FLAG_WATER_BOX C) = true.
Proof.
  intros Hm. unfold correct_lava_shadow_height. run.
  destruct (floor (s st)) as [f |]; run; [|discriminate].
  destruct (gCurrLevelNum W); destruct (type f); run;
    try (intros E; inversion E; subst; auto; fail).
  - destruct (flt (floorHeight (s st)) (of_int (-3000))); run.
    + intros E; inversion E; subst. intros _. simpl. now apply flag_test_set_same.
    + destruct (fgt (floorHeight (s st)) (of_int 3400)); run;
        intros E; inversion E; subst; auto. intros _. simpl. now apply flag_test_set_same.
  - destruct (gCurrAreaIndex W =? 1); run; intros E; inversion E; subst; auto.
    intros _. simpl. now apply flag_test_set_same.
Qed.

End Vertices.


(* ===================================================================== *)
(** ** Independence of the earlier workspace *)
(* ===================================================================== *)

Lemma frame_ret {A} (a : A) : frame_eq (ret a).
Proof. intros w w' fl cf _. reflexivity. Qed.

Lemma frame_lift {A} (r : res A) : frame_eq (lift r).
Proof. intros w w' fl cf _. unfold lift. destruct r; reflexivity. Qed.

Lemma frame_upd_flags f : frame_eq (upd_flags f).
Proof. intros w w' fl cf _. reflexivity. Qed.

Lemma frame_bind {A B} (m : M A) (k : A -> M B) :
  frame_eq m -> (forall a, frame_eq (k a)) -> frame_eq (bind m k).
Proof.
  intros Hm Hk w w' fl cf Hh. unfold bind.
  rewrite (Hm w w' fl cf Hh).
  pose proof (Hm w' w' fl cf eq_refl) as Hself.
  destruct (m (mkState w' fl cf)) as [[a st1] | u]; [|reflexivity].
  cbn [reframe] in *. inversion Hself as [Hst]. rewrite <- Hst at 2.
  cbn [gShadowFlags gCollisionFlags].
  apply (Hk a w w' _ _ Hh).
Qed.

Lemma frame_self {A} (m : M A) w fl cf a st' :
  frame_eq m -> m (mkState w fl cf) = Ok (a, st') -> s st' = w.
Proof.
  intros Hm E. pose proof (Hm w w fl cf eq_refl) as H. rewrite E in H.
  cbn [reframe] in H. inversion H as [Hst]. rewrite Hst. reflexivity.
Qed.

Section Frame.

Variable C : Consts.

Variable W : World.

Lemma frame_make_shadow_vertex_at_xyz verts index relX relY relZ alpha :
  frame_eq (make_shadow_vertex_at_xyz C W verts index relX relY relZ alpha).
Proof.
  intros w w' fl cf _. unfold make_shadow_vertex_at_xyz. run.
  destruct (f32_to_s16 (roundf W relY)); [|reflexivity].
  destruct (get_texture_coords C index). run.
  destruct (f32_to_s16 (roundf W relX)); [|reflexivity]. run.
  destruct (f32_to_s16 (roundf W relZ)); reflexivity.
Qed.

Lemma frame_get_shadow_height_solidity x y z sol :
  frame_eq (get_shadow_height_solidity C W x y z sol).
Proof.
  intros w w' fl cf Hh. unfold get_shadow_height_solidity. run. rewrite Hh.
  destruct (flt (floorHeight w') (FLOOR_LOWER_LIMIT_MISC C)); [reflexivity|].
  destruct (flt (find_water_level W x z) (FLOOR_LOWER_LIMIT_MISC C)); [reflexivity|].
  destruct (fge y (find_water_level W x z) && fge (find_water_level W x z) (floorHeight w'));
    reflexivity.
Qed.

Lemma frame_create_shadow_rectangle hw hl relY sol :
  frame_eq (create_shadow_rectangle C W hw hl relY sol).
Proof.
  unfold create_shadow_rectangle.
  destruct (negb (alloc_verts W && alloc_gfx W)); [apply frame_ret|].
  repeat match goal with
         | |- context [rotate_rectangle ?W' ?a ?b] => destruct (rotate_rectangle W' a b)
         end.
  repeat (apply frame_bind; [apply frame_make_shadow_vertex_at_xyz | intros ?]).
  apply frame_ret.
Qed.

Lemma frame_create_shadow_square x y z sc sol ty :
  frame_eq (create_shadow_square C W x y z sc sol ty).
Proof.
  unfold create_shadow_square.
  apply frame_bind; [apply frame_get_shadow_height_solidity|].
  intros [[ns h] sol']. destruct ns; [apply frame_ret|].
  repeat match goal with
         | |- context [if ?b then _ else _] => destruct b
         end; first [apply frame_create_shadow_rectangle | apply frame_ret].
Qed.

Lemma frame_create_shadow_hardcoded_rectangle x y z sc sol ty :
  frame_eq (create_shadow_hardcoded_rectangle C W x y z sc sol ty).
Proof.
  unfold create_shadow_hardcoded_rectangle.
  apply frame_bind; [apply frame_get_shadow_height_solidity|].
  intros [[ns h] sol']. destruct ns; [apply frame_ret|].
  apply frame_bind; [apply frame_lift|]. intros r.
  destruct (scaleWithDistance r); apply frame_create_shadow_rectangle.
Qed.

End Frame.

Section Overwrite.

Variable C : Consts.

Variable W : World.

Lemma init_shadow_alike x y z sc ov w w' fl cf :
  same_floor w w' -> ov <> 0 \/ solidity w = solidity w' ->
  init_alike (init_shadow C W x y z sc ov (mkState w fl cf))
             (init_shadow C W x y z sc ov (mkState w' fl cf)).
Proof.
  intros [Hf Hh] Hs.
  destruct w as [pp fh ss ff fp fy so], w' as [pp' fh' ss' ff' fp' fy' so'].
  cbn [floor floorHeight solidity] in *. subst ff' fh'.
  assert (Hso : (ov =? 0) = true -> so = so').
  { intros E. apply Z.eqb_eq in E. destruct Hs; [contradiction | assumption]. }
  clear Hs.
  unfold init_shadow, init_shadow_resolve, get_water_level_below_shadow,
    init_shadow_attenuate. run.
  destruct (find_water_level_and_floor W x z) as [wl wfl].
  destruct (flt wl (FLOOR_LOWER_LIMIT_MISC C)); run;
    [|destruct (fge y wl && fle fh wl); run];
    (destruct ff as [f |]; run; [|reflexivity]);
    (destruct (flag_test _ (SHADOW_FLAG_WATER_BOX C)); run;
     [destruct wfl as [wf |]; run
     |destruct (fle (vec_y (normal f)) zero || flt fh (FLOOR_LOWER_LIMIT_MISC C)); run;
      [exact I|]]);
    (destruct (ov =? 0); run;
     [try rewrite (Hso eq_refl)
     |destruct (dim_shadow_with_distance ov _); run; [|reflexivity]]);
    destruct (FLT_IS_NONZERO C _); reflexivity.
Qed.

Lemma build_alike_refl r : build_alike r r.
Proof. destruct r as [[[dl |] st] | k]; simpl; auto. Qed.

(** What follows a successful [init_shadow] in the circle strategy. *)
Lemma create_shadow_circle_alike x y z sc sol w w' fl cf :
  same_floor w w' -> sol <> 0 ->
  build_alike (create_shadow_circle C W x y z sc sol (mkState w fl cf))
              (create_shadow_circle C W x y z sc sol (mkState w' fl cf)).
Proof.
  intros Hf Hs.
  pose proof (init_shadow_alike x y z sc sol w w' fl cf Hf (or_introl Hs)) as A.
  unfold create_shadow_circle, bind.
  destruct (init_shadow C W x y z sc sol (mkState w fl cf)) as [[[|] st1] | k];
  destruct (init_shadow C W x y z sc sol (mkState w' fl cf)) as [[[|] st1'] | k'];
    cbn [init_alike] in A; try contradiction; try exact A; try exact I.
  destruct A. apply build_alike_refl.
Qed.

Lemma after_init_alike (m : M bool) (k : M (option (list Gfx))) st st' :
  init_alike (m st) (m st') ->
  build_alike ((noShadow <- m ;; if noShadow then ret None else k) st)
              ((noShadow <- m ;; if noShadow then ret None else k) st').
Proof.
  intros A. unfold bind.
  destruct (m st) as [[[|] st1] | u]; destruct (m st') as [[[|] st1'] | u'];
    cbn [init_alike] in A; try contradiction; try exact A; try exact I.
  destruct A. apply build_alike_refl.
Qed.

(** The animation corrector reads nothing of the workspace: it either
    stores a solidity that does not depend on it or leaves it alone. *)
Lemma correct_shadow_solidity_for_animations_frame sol :
  exists r : res (ShadowSolidity * option Z),
    r <> Ok (SHADOW_SOILDITY_ALREADY_SET, None) /\
    forall w fl cf,
      correct_shadow_solidity_for_animations W sol (mkState w fl cf)
      = match r with
        | Ok (a, Some v) => Ok (a, mkState (set_solidity v w) fl cf)
        | Ok (a, None) => Ok (a, mkState w fl cf)
        | UB k => UB k
        end.
Proof.
  unfold correct_shadow_solidity_for_animations,
    linearly_interpolate_solidity_positive, linearly_interpolate_solidity_negative.
  destruct (animID W).
  - exists (Ok (SHADOW_SOLIDITY_NO_SHADOW, None)). split; [discriminate | reflexivity].
  - destruct ((0 <=? animFrame W) && (animFrame W <? 5));
      [exists (Ok (SHADOW_SOILDITY_ALREADY_SET, Some 0)); (split; [discriminate | reflexivity])|].
    destruct (14 <? animFrame W);
      [exists (Ok (SHADOW_SOILDITY_ALREADY_SET, Some sol)); (split; [discriminate | reflexivity])|].
    destruct (f32_to_u8 (fdiv (fmul (of_int sol) (of_int (animFrame W - 5)))
                              (of_int (14 - 5)))) as [v | k] eqn:E.
    + exists (Ok (SHADOW_SOILDITY_ALREADY_SET, Some v)). split; [discriminate | intros; run; reflexivity].
    + exists (UB k). split; [discriminate | intros; run; reflexivity].
  - destruct ((0 <=? animFrame W) && (animFrame W <? 21));
      [exists (Ok (SHADOW_SOILDITY_ALREADY_SET, Some 0)); (split; [discriminate | reflexivity])|].
    destruct (33 <? animFrame W);
      [exists (Ok (SHADOW_SOILDITY_ALREADY_SET, Some sol)); (split; [discriminate | reflexivity])|].
    destruct (f32_to_u8 (fdiv (fmul (of_int sol) (of_int (animFrame W - 21)))
                              (of_int (33 - 21)))) as [v | k] eqn:E.
    + exists (Ok (SHADOW_SOILDITY_ALREADY_SET, Some v)). split; [discriminate | intros; run; reflexivity].
    + exists (UB k). split; [discriminate | intros; run; reflexivity].
  - destruct ((0 <=? animFrame W) && (animFrame W <=? 5));
      [|exists (Ok (SHADOW_SOILDITY_ALREADY_SET, Some 0)); (split; [discriminate | reflexivity])].
    destruct (f32_to_u8 (fmul (of_int sol)
                (fsub one (fdiv (of_int (animFrame W - 0)) (of_int (5 - 0))))))
      as [v | k] eqn:E.
    + exists (Ok (SHADOW_SOILDITY_ALREADY_SET, Some v)). split; [discriminate | intros; run; reflexivity].
    + exists (UB k). split; [discriminate | intros; run; reflexivity].
  - exists (Ok (SHADOW_SOLIDITY_NOT_YET_SET, None)). split; [discriminate | reflexivity].
Qed.

Lemma player_tail_alike x y z sc sol w w' fl cf :
  same_floor w w' -> sol <> 0 ->
  build_alike (player_tail C W x y z sc sol (mkState w fl cf))
              (player_tail C W x y z sc sol (mkState w' fl cf)).
Proof.
  intros Hf Hs.
  destruct (correct_shadow_solidity_for_animations_frame sol) as (r & Hwf & Hr).
  assert (Hset : forall v, same_floor (set_solidity v w) (set_solidity v w')).
  { intros v. exact Hf. }
  unfold player_tail. unfold bind at 1. rewrite (Hr w).
  match goal with |- build_alike _ (bind ?m ?k ?st) =>
    change (bind m k st) with (match m st with Ok (a, st') => k a st' | UB u => UB u end)
  end.
  rewrite (Hr w').
  destruct r as [[a [v |]] | k]; [| |reflexivity];
    destruct a; try exact I; try congruence;
    apply after_init_alike, init_shadow_alike; auto.
Qed.

Lemma create_shadow_below_xyz_floor_run x y z (cf : Z) :
  exists cf',
    (forall w' fl',
       create_shadow_below_xyz_floor C W x y z (mkState w' fl' cf)
       = Ok (fst (fst (floor_below W x y z)),
             mkState (with_floor (snd (fst (floor_below W x y z)))
                                 (snd (floor_below W x y z)) w') fl' cf')).
Proof.
  unfold create_shadow_below_xyz_floor, floor_below.
  destruct (node_is_mario W); [exists cf; reflexivity|].
  destruct (negb (node_is_mirror_mario W)
            && match oFloor W with Some _ => true | None => false end);
    [exists cf; reflexivity|].
  destruct (find_floor W x y z) as [h f].
  exists (Z.lor cf (COLLISION_FLAG_RETURN_FIRST C)). reflexivity.
Qed.

Lemma create_shadow_player_split x y z sc sol :
  create_shadow_player C W x y z sc sol
  = (player_carpet C W ;; player_tail C W x y z sc sol).
Proof. reflexivity. Qed.

Lemma player_carpet_frame w w' fl cf :
  floor w = floor w' ->
  (exists k, player_carpet C W (mkState w fl cf) = UB k
             /\ player_carpet C W (mkState w' fl cf) = UB k)
  \/ (exists fl1, player_carpet C W (mkState w fl cf) = Ok (tt, mkState w fl1 cf)
                  /\ player_carpet C W (mkState w' fl cf) = Ok (tt, mkState w' fl1 cf)).
Proof.
  intros Hf. unfold player_carpet.
  destruct (gCurrLevelNum W); try (right; exists fl; split; reflexivity).
  run. rewrite <- Hf.
  destruct (floor w) as [f |]; run; [|left; eauto].
  right.
  destruct (type f); destruct (gFlyingCarpetState W); run; eauto.
Qed.

Lemma create_shadow_player_alike x y z sc sol w w' fl cf :
  same_floor w w' -> sol <> 0 ->
  build_alike (create_shadow_player C W x y z sc sol (mkState w fl cf))
              (create_shadow_player C W x y z sc sol (mkState w' fl cf)).
Proof.
  intros Hf Hs. rewrite create_shadow_player_split. unfold bind.
  destruct (player_carpet_frame w w' fl cf (proj1 Hf))
    as [(k & -> & ->) | (fl1 & -> & ->)]; [reflexivity|].
  now apply player_tail_alike.
Qed.

Lemma create_shadow_below_xyz_dispatch_run x y z sc sol ty w fl cf :
  create_shadow_below_xyz_dispatch C W x y z sc sol ty (mkState w fl cf)
  = match floor w with
    | None => UB UB_null_deref
    | Some f => type_switch C W x y z sc sol ty (mkState w (ice_flags C f) cf)
    end.
Proof.
  unfold create_shadow_below_xyz_dispatch, ice_flags. fold (type_switch C W x y z sc sol ty).
  run. destruct (floor w) as [f |]; [|reflexivity].
  unfold ret. destruct (type f); reflexivity.
Qed.

Lemma create_shadow_below_xyz_run x y z sc sol ty (cf : Z) :
  exists cf',
    forall w fl,
      create_shadow_below_xyz C W x y z sc sol ty (mkState w fl cf)
      = let '(found, fl0, h) := floor_below W x y z in
        if found then
          match fl0 with
          | None => UB UB_null_deref
          | Some f =>
              type_switch C W x y z sc sol ty (mkState (with_floor fl0 h w) (ice_flags C f) cf')
          end
        else Ok (None, mkState (with_floor fl0 h w) fl cf').
Proof.
  destruct (create_shadow_below_xyz_floor_run x y z cf) as [cf' E].
  exists cf'. intros w fl. unfold create_shadow_below_xyz, bind. rewrite E.
  destruct (floor_below W x y z) as [[found fl0] h]. cbn [fst snd].
  destruct found; [|reflexivity].
  rewrite create_shadow_below_xyz_dispatch_run. reflexivity.
Qed.

Lemma create_shadow_below_xyz_alike x y z sc sol ty w w' fl fl' cf :
  ty = SHADOW_CIRCLE_PLAYER C \/ ty = SHADOW_CIRCLE C -> sol <> 0 ->
  build_alike (create_shadow_below_xyz C W x y z sc sol ty (mkState w fl cf))
              (create_shadow_below_xyz C W x y z sc sol ty (mkState w' fl' cf)).
Proof.
  intros Hty Hs.
  destruct (create_shadow_below_xyz_run x y z sc sol ty cf) as [cf' E].
  rewrite !E. destruct (floor_below W x y z) as [[found fl0] h].
  destruct found; [|exact I].
  destruct fl0 as [f |]; [|reflexivity].
  assert (Hf : same_floor (with_floor (Some f) h w) (with_floor (Some f) h w'))
    by (split; reflexivity).
  unfold type_switch.
  destruct (Z.eqb_spec ty (SHADOW_CIRCLE_PLAYER C)).
  - now apply create_shadow_player_alike.
  - destruct Hty as [-> | ->]; [contradiction|]. rewrite Z.eqb_refl.
    now apply create_shadow_circle_alike.
Qed.

Lemma create_shadow_below_xyz_frame x y z sc sol ty w w' fl fl' cf :
  ty <> SHADOW_CIRCLE_PLAYER C -> ty <> SHADOW_CIRCLE C ->
  let r := create_shadow_below_xyz C W x y z sc sol ty (mkState w fl cf) in
  let r' := create_shadow_below_xyz C W x y z sc sol ty (mkState w' fl' cf) in
  output_of r = output_of r'
  /\ forall o st', r = Ok (o, st') ->
       s st' = with_floor (snd (fst (floor_below W x y z))) (snd (floor_below W x y z)) w.
Proof.
  intros Hp Hc r r'. subst r r'.
  destruct (create_shadow_below_xyz_run x y z sc sol ty cf) as [cf' E].
  rewrite !E. destruct (floor_below W x y z) as [[found fl0] h]. cbn [fst snd].
  destruct found; [|split; [reflexivity | intros o st' H; now inversion H]].
  destruct fl0 as [f |]; [|split; [reflexivity | discriminate]].
  assert (F : frame_eq (type_switch C W x y z sc sol ty)).
  { unfold type_switch.
    destruct (Z.eqb_spec ty (SHADOW_CIRCLE_PLAYER C)); [contradiction|].
    destruct (Z.eqb_spec ty (SHADOW_CIRCLE C)); [contradiction|].
    destruct (_ || _); [apply frame_create_shadow_square
                       | apply frame_create_shadow_hardcoded_rectangle]. }
  split.
  - rewrite (F (with_floor (Some f) h w) (with_floor (Some f) h w') _ _ eq_refl).
    destruct (type_switch C W x y z sc sol ty _) as [[o st1] | k]; reflexivity.
  - intros o st' H. apply (frame_self _ _ _ _ _ _ F H).
Qed.

End Overwrite.


(* ===================================================================== *)
(** ** Invalid floors (claim C6) *)
(* ===================================================================== *)



(* ===================================================================== *)
(** ** Alpha over a water box (claim C10) *)
(* ===================================================================== *)

Lemma player_carpet_workspace (C : Consts) (W : World) st st1 :
  player_carpet C W st = Ok (tt, st1) -> s st1 = s st.
Proof.
  unfold player_carpet.
  destruct (gCurrLevelNum W); run; try (intros E; inversion E; reflexivity).
  destruct (floor (s st)) as [f |]; run; [|discriminate].
  destruct (type f); destruct (gFlyingCarpetState W); run;
    intros E; inversion E; reflexivity.
Qed.

Lemma correct_shadow_solidity_for_animations_floor (W : World) sol st a st1 :
  correct_shadow_solidity_for_animations W sol st = Ok (a, st1) ->
  floor (s st1) = floor (s st) /\ floorHeight (s st1) = floorHeight (s st).
Proof.
  destruct (correct_shadow_solidity_for_animations_frame W sol) as (r & _ & Hr).
  destruct st as [w fl cf]. rewrite Hr.
  destruct r as [[a' [v |]] | k]; intros E; inversion E; subst; split; reflexivity.
Qed.

(** The stages a player build that returns a display list went through. *)
Lemma create_shadow_player_stages (C : Consts) (W : World) x y z sc sol st dl st' :
  create_shadow_player C W x y z sc sol st = Ok (Some dl, st') ->
  exists st2 ov st3,
    floor (s st2) = floor (s st)
    /\ floorHeight (s st2) = floorHeight (s st)
    /\ init_shadow C W x y z sc ov st2 = Ok (false, st3)
    /\ correct_lava_shadow_height C W st3 = Ok (tt, st').
Proof.
  rewrite create_shadow_player_split. intros E.
  apply bind_ok_inv in E. destruct E as ([] & st1 & Ec & E).
  apply player_carpet_workspace in Ec.
  unfold player_tail in E.
  apply bind_ok_inv in E. destruct E as (a & st2 & Ea & E).
  apply correct_shadow_solidity_for_animations_floor in Ea. rewrite Ec in Ea.
  assert (H : forall ov,
             (noShadow <- init_shadow C W x y z sc ov ;;
              if noShadow then ret None
              else if negb (alloc_verts W && alloc_gfx W) then ret None
              else
                correct_lava_shadow_height C W ;;
                verts <- make_shadow_vertices C W fresh_verts ;;
                ret (Some (add_shadow_to_display_list verts SHADOW_SHAPE_CIRCLE))) st2
             = Ok (Some dl, st') ->
             exists st3, init_shadow C W x y z sc ov st2 = Ok (false, st3)
                         /\ correct_lava_shadow_height C W st3 = Ok (tt, st')).
  { intros ov E'.
    apply bind_ok_inv in E'. destruct E' as (ns & st3 & Ei & E').
    destruct ns; [apply ret_ok_inv in E'; destruct E'; discriminate|].
    destruct (negb (alloc_verts W && alloc_gfx W));
      [apply ret_ok_inv in E'; destruct E'; discriminate|].
    apply bind_ok_inv in E'. destruct E' as ([] & st4 & El & E').
    apply bind_ok_inv in E'. destruct E' as (verts & st5 & Ev & E').
    apply ret_ok_inv in E'. destruct E' as [_ ->].
    apply make_shadow_vertices_inv in Ev. destruct Ev as (-> & _).
    exists st3. auto. }
  destruct a; [apply ret_ok_inv in E; destruct E; discriminate | |];
    destruct (H _ E) as (st3 & Ei & El); exists st2; eexists; exists st3;
    (split; [apply Ea | split; [apply Ea | split; [exact Ei | exact El]]]).
Qed.

(** Over a water box without a water-surface floor [init_shadow] succeeds
    and leaves the water-box flag set. *)
Lemma init_shadow_floorless_water_box (C : Consts) (W : World) x y z sc ov st f r st' :
  wf_flags C = true ->
  floor (s st) = Some f ->
  over_water_box C W x y z (floorHeight (s st)) = true ->
  snd (find_water_level_and_floor W x z) = None ->
  init_shadow C W x y z sc ov st = Ok (r, st') ->
  r = false /\ flag_test (gShadowFlags st') (SHADOW_FLAG_WATER_BOX C) = true.
Proof.
  intros Hwf Hf Hw Hn.
  destruct (wf_flags_unpack C Hwf) as ((Mwb & Mws & Mic & Mra) & Dws & Dic & Dra & _).
  assert (Dsw : Z.land (SHADOW_FLAG_WATER_SURFACE C) (SHADOW_FLAG_WATER_BOX C) = 0)
    by (now rewrite Z.land_comm).
  unfold over_water_box in Hw.
  unfold init_shadow, init_shadow_resolve, get_water_level_below_shadow,
    init_shadow_attenuate.
  run. destruct (find_water_level_and_floor W x z) as [wl wfl].
  cbn [snd] in Hn. subst wfl.
  apply andb_prop in Hw. destruct Hw as [Hlim Hbox].
  apply negb_true_iff in Hlim. rewrite Hlim, Hbox. run. rewrite Hf. run.
  rewrite flag_test_set_same by assumption. run.
  assert (Hfl : flag_test (flag_clear (SHADOW_FLAG_WATER_SURFACE C)
                             (flag_set (SHADOW_FLAG_WATER_BOX C) (gShadowFlags st)))
                  (SHADOW_FLAG_WATER_BOX C) = true).
  { rewrite flag_test_clear_other by assumption. now apply flag_test_set_same. }
  destruct (negb (ov =? 0)); run;
    [destruct (dim_shadow_with_distance ov _); run; [|discriminate]|];
    destruct (FLT_IS_NONZERO C _); run;
    intros E; inversion E; subst; split; auto.
Qed.

Lemma correct_lava_shadow_height_floor (C : Consts) (W : World) st st' :
  correct_lava_shadow_height C W st = Ok (tt, st') -> floor (s st') = floor (s st).
Proof.
  unfold correct_lava_shadow_height. run.
  destruct (floor (s st)) as [f |] eqn:Ef; run; [|discriminate].
  assert (Hset : forall h, floor (set_floorHeight h (s st)) = Some f)
    by (intros h; exact Ef).
  destruct (gCurrLevelNum W); destruct (type f); run;
    try (intros E; inversion E; subst; auto; fail).
  - destruct (flt (floorHeight (s st)) (of_int (-3000))); run;
      [intros E; inversion E; subst; apply Hset|].
    destruct (fgt (floorHeight (s st)) (of_int 3400)); run;
      intros E; inversion E; subst; auto; apply Hset.
  - destruct (gCurrAreaIndex W =? 1); run; intros E; inversion E; subst; auto; apply Hset.
Qed.

(** In BITFS, over a burning floor, a floor height below -3000 or above
    3400 after the lava correction means that the correction has set the
    water-box flag. *)
Lemma correct_lava_shadow_height_bitfs (C : Consts) (W : World) st st' f :
  is_mask (SHADOW_FLAG_WATER_BOX C) = true ->
  gCurrLevelNum W = LEVEL_BITFS ->
  floor (s st) = Some f -> type f = SURFACE_BURNING ->
  correct_lava_shadow_height C W st = Ok (tt, st') ->
  flt (floorHeight (s st')) (of_int (-3000)) = true
  \/ fgt (floorHeight (s st')) (of_int 3400) = true ->
  flag_test (gShadowFlags st') (SHADOW_FLAG_WATER_BOX C) = true.
Proof.
  intros Hm Hl Hf Ht. unfold correct_lava_shadow_height. run. rewrite Hf. run.
  rewrite Ht, Hl. run.
  destruct (flt (floorHeight (s st)) (of_int (-3000))) eqn:E1; run.
  - intros E _. injection E as <-. cbn [gShadowFlags]. now apply flag_test_set_same.
  - destruct (fgt (floorHeight (s st)) (of_int 3400)) eqn:E2; run.
    + intros E _. injection E as <-. cbn [gShadowFlags]. now apply flag_test_set_same.
    + intros E H. injection E as <-. rewrite E1, E2 in H. destruct H; discriminate.
Qed.

(** Where no water-surface floor exists, a successful [init_shadow]
    either leaves the water-box flag set or keeps the floor and the floor
    height it was given. *)
Lemma init_shadow_without_surface (C : Consts) (W : World) x y z sc ov st st' :
  wf_flags C = true ->
  snd (find_water_level_and_floor W x z) = None ->
  init_shadow C W x y z sc ov st = Ok (false, st') ->
  flag_test (gShadowFlags st') (SHADOW_FLAG_WATER_BOX C) = true
  \/ (floor (s st') = floor (s st) /\ floorHeight (s st') = floorHeight (s st)).
Proof.
  intros Hwf Hn.
  destruct (wf_flags_unpack C Hwf) as ((Mwb & Mws & Mic & Mra) & Dws & Dic & Dra & _).
  assert (Dsw : Z.land (SHADOW_FLAG_WATER_SURFACE C) (SHADOW_FLAG_WATER_BOX C) = 0)
    by (now rewrite Z.land_comm).
  unfold init_shadow, init_shadow_resolve, get_water_level_below_shadow,
    init_shadow_attenuate.
  run. destruct (find_water_level_and_floor W x z) as [wl wfl].
  cbn [snd] in Hn. subst wfl.
  destruct (flt wl (FLOOR_LOWER_LIMIT_MISC C)); run;
    [| destruct (fge y wl && fle (floorHeight (s st)) wl); run ].
  all: destruct (flag_test _ (SHADOW_FLAG_WATER_BOX C)) eqn:Hfl; run.
  all: destruct (floor (s st)) as [f |] eqn:Ef; run; try discriminate.
  all: try (destruct (fle (vec_y (normal f)) zero || _); run; [discriminate|]).
  all: try (destruct (negb (ov =? 0)); run;
            [destruct (dim_shadow_with_distance ov _); run; [|discriminate]|];
            destruct (FLT_IS_NONZERO C _); run;
            intros E; injection E as <-; cbn [gShadowFlags s floor floorHeight];
            first [ right; split; [exact Ef | reflexivity]
                  | left; rewrite flag_test_clear_other by assumption; exact Hfl ]).
Qed.

(** C10.  A vertex built while the water-box flag is set carries alpha
    200 whatever solidity the workspace holds.  The lava correction sets
    that flag over burning floors (in LLL area 1, and in BITFS below -3000
    or above 3400) and never clears it.  Hence a player shadow whose
    display list was built with the flag set has four vertices of alpha
    200, whatever solidity the caller asked for and whatever the dimming
    made of it.  End to end, every display list [create_shadow_player]
    returns has four vertices of alpha 200: over the burning floor of LLL
    area 1; over a burning floor of BITFS whose height is below -3000 or
    above 3400, be it the height the build started from (where no
    water-surface floor exists) or the height it ended with; and over a
    water box without a water-surface floor. *)
Theorem water_box_alpha_200 (C : Consts) (W : World) :
  wf_flags C = true ->
  (forall verts index st verts' st',
     flag_test (gShadowFlags st) (SHADOW_FLAG_WATER_BOX C) = true ->
     (Z.to_nat index < length verts)%nat ->
     make_shadow_vertex C W verts index st = Ok (verts', st') ->
     exists v, nth_error verts' (Z.to_nat index) = Some v /\ v_a v = 200)
  /\ (forall st f,
        floor (s st) = Some f -> type f = SURFACE_BURNING ->
        (gCurrLevelNum W = LEVEL_LLL /\ gCurrAreaIndex W = 1)
        \/ (gCurrLevelNum W = LEVEL_BITFS
            /\ (flt (floorHeight (s st)) (of_int (-3000)) = true
                \/ fgt (floorHeight (s st)) (of_int 3400) = true)) ->
        exists st',
          correct_lava_shadow_height C W st = Ok (tt, st')
          /\ flag_test (gShadowFlags st') (SHADOW_FLAG_WATER_BOX C) = true)
  /\ (forall st st',
        correct_lava_shadow_height C W st = Ok (tt, st') ->
        flag_test (gShadowFlags st) (SHADOW_FLAG_WATER_BOX C) = true ->
        flag_test (gShadowFlags st') (SHADOW_FLAG_WATER_BOX C) = true)
  /\ (forall x y z sc sol st dl st',
        create_shadow_player C W x y z sc sol st = Ok (Some dl, st') ->
        flag_test (gShadowFlags st') (SHADOW_FLAG_WATER_BOX C) = true ->
        exists verts,
          dl = add_shadow_to_display_list verts SHADOW_SHAPE_CIRCLE
          /\ length verts = 4%nat
          /\ Forall (fun v => v_a v = 200) verts)
  /\ (forall x y z sc sol st dl st' f,
        create_shadow_player C W x y z sc sol st = Ok (Some dl, st') ->
        gCurrLevelNum W = LEVEL_LLL -> gCurrAreaIndex W = 1 ->
        floor (s st') = Some f -> type f = SURFACE_BURNING ->
        alphas (Some dl) = [200; 200; 200; 200])
  /\ (forall x y z sc sol st dl st' f,
        create_shadow_player C W x y z sc sol st = Ok (Some dl, st') ->
        floor (s st) = Some f ->
        over_water_box C W x y z (floorHeight (s st)) = true ->
        snd (find_water_level_and_floor W x z) = None ->
        alphas (Some dl) = [200; 200; 200; 200])
  /\ (forall x y z sc sol st dl st' f,
        create_shadow_player C W x y z sc sol st = Ok (Some dl, st') ->
        gCurrLevelNum W = LEVEL_BITFS ->
        floor (s st') = Some f -> type f = SURFACE_BURNING ->
        flt (floorHeight (s st')) (of_int (-3000)) = true
        \/ fgt (floorHeight (s st')) (of_int 3400) = true ->
        alphas (Some dl) = [200; 200; 200; 200])
  /\ (forall x y z sc sol st dl st' f,
        create_shadow_player C W x y z sc sol st = Ok (Some dl, st') ->
        floor (s st) = Some f -> type f = SURFACE_BURNING ->
        snd (find_water_level_and_floor W x z) = None ->
        (gCurrLevelNum W = LEVEL_LLL /\ gCurrAreaIndex W = 1)
        \/ (gCurrLevelNum W = LEVEL_BITFS
            /\ (flt (floorHeight (s st)) (of_int (-3000)) = true
                \/ fgt (floorHeight (s st)) (of_int 3400) = true)) ->
        alphas (Some dl) = [200; 200; 200; 200]).
Proof.
  intros Hwf.
  destruct (wf_flags_unpack C Hwf) as ((Mwb & _) & _).
  assert (Hplayer : forall x y z sc sol st dl st',
            create_shadow_player C W x y z sc sol st = Ok (Some dl, st') ->
            flag_test (gShadowFlags st') (SHADOW_FLAG_WATER_BOX C) = true ->
            exists verts,
              dl = add_shadow_to_display_list verts SHADOW_SHAPE_CIRCLE
              /\ length verts = 4%nat
              /\ Forall (fun v => v_a v = 200) verts).
  { intros x y z sc sol st dl st' E Hfl.
    destruct (create_shadow_player_inv C W x y z sc sol st dl st' E) as (verts & Hdl & L & F).
    exists verts. split; [exact Hdl|]. split; [exact L|].
    unfold emitted_alpha in F. now rewrite Hfl in F. }
  assert (Halphas : forall x y z sc sol st dl st',
            create_shadow_player C W x y z sc sol st = Ok (Some dl, st') ->
            flag_test (gShadowFlags st') (SHADOW_FLAG_WATER_BOX C) = true ->
            alphas (Some dl) = [200; 200; 200; 200]).
  { intros x y z sc sol st dl st' E Hfl.
    destruct (Hplayer x y z sc sol st dl st' E Hfl) as (verts & -> & L & F).
    cbn [alphas add_shadow_to_display_list].
    destruct verts as [| v0 [| v1 [| v2 [| v3 [| v4 tl]]]]]; try discriminate.
    inversion F as [| ? ? A0 F1]; subst. inversion F1 as [| ? ? A1 F2]; subst.
    inversion F2 as [| ? ? A2 F3]; subst. inversion F3 as [| ? ? A3 F4]; subst.
    cbn [map]. now rewrite A0, A1, A2, A3. }
  split; [|split; [|split; [|split; [|split; [|split; [|split]]]]]].
  - intros verts index st verts' st' Hfl Hi E.
    apply make_shadow_vertex_inv in E. destruct E as (_ & v & -> & Hv).
    exists v. split; [now apply store_vtx_nth|].
    rewrite Hv. unfold emitted_alpha. now rewrite Hfl.
  - intros st f Hf Ht Hc. now apply (correct_lava_shadow_height_marks C W st f).
  - intros st st' E Hfl. now apply (correct_lava_shadow_height_keeps C W st st').
  - exact Hplayer.
  - intros x y z sc sol st dl st' f E Hl Ha Hf Ht.
    destruct (create_shadow_player_stages C W x y z sc sol st dl st' E)
      as (st2 & ov & st3 & _ & _ & _ & El).
    apply (Halphas x y z sc sol st dl st' E).
    pose proof (correct_lava_shadow_height_floor C W st3 st' El) as Hfloor.
    rewrite Hf in Hfloor. symmetry in Hfloor.
    destruct (correct_lava_shadow_height_marks C W st3 f Mwb Hfloor Ht
                (or_introl (conj Hl Ha))) as (st4 & E4 & H4).
    rewrite El in E4. inversion E4; subst. exact H4.
  - intros x y z sc sol st dl st' f E Hf Hw Hn.
    destruct (create_shadow_player_stages C W x y z sc sol st dl st' E)
      as (st2 & ov & st3 & Hf2 & Hh2 & Ei & El).
    apply (Halphas x y z sc sol st dl st' E).
    apply (correct_lava_shadow_height_keeps C W st3 st' Mwb El).
    rewrite <- Hf2 in Hf. rewrite <- Hh2 in Hw.
    apply (init_shadow_floorless_water_box C W x y z sc ov st2 f false st3 Hwf Hf Hw Hn Ei).
  - intros x y z sc sol st dl st' f E Hl Hf Ht Hh.
    destruct (create_shadow_player_stages C W x y z sc sol st dl st' E)
      as (st2 & ov & st3 & _ & _ & _ & El).
    apply (Halphas x y z sc sol st dl st' E).
    pose proof (correct_lava_shadow_height_floor C W st3 st' El) as Hfloor.
    rewrite Hf in Hfloor. symmetry in Hfloor.
    apply (correct_lava_shadow_height_bitfs C W st3 st' f Mwb Hl Hfloor Ht El Hh).
  - intros x y z sc sol st dl st' f E Hf Ht Hn Hc.
    destruct (create_shadow_player_stages C W x y z sc sol st dl st' E)
      as (st2 & ov & st3 & Hf2 & Hh2 & Ei & El).
    apply (Halphas x y z sc sol st dl st' E).
    destruct (init_shadow_without_surface C W x y z sc ov st2 st3 Hwf Hn Ei)
      as [Hfl | [Hf3 Hh3]].
    + apply (correct_lava_shadow_height_keeps C W st3 st' Mwb El Hfl).
    + rewrite Hf2, Hf in Hf3. rewrite Hh2 in Hh3. rewrite <- Hh3 in Hc.
      destruct (correct_lava_shadow_height_marks C W st3 f Mwb Hf3 Ht Hc)
        as (st4 & E4 & H4).
      rewrite El in E4. injection E4 as <-. exact H4.
Qed.



(** Mario asking for solidity 255: over the lava of LLL, over the lava of
    BITFS below -3000 and above 3400, and over a water box that has no
    water-surface floor, every vertex has alpha 200. *)
Lemma water_box_alpha_200_witness :
  (exists dl st',
     create_shadow_player sample_consts lava_world zero zero zero 614 255 lava_state
     = Ok (Some dl, st')
     /\ alphas (Some dl) = [200; 200; 200; 200])
  /\ (exists dl st',
        create_shadow_player sample_consts bitfs_low_world zero (of_int (-3000)) zero 614 255
          (lava_state_at (-3100)) = Ok (Some dl, st')
        /\ alphas (Some dl) = [200; 200; 200; 200])
  /\ (exists dl st',
        create_shadow_player sample_consts bitfs_high_world zero (of_int 3600) zero 614 255
          (lava_state_at 3500) = Ok (Some dl, st')
        /\ alphas (Some dl) = [200; 200; 200; 200])
  /\ (exists dl st',
        create_shadow_player sample_consts pool_world zero (of_int 200) zero 614 255
          ground_state = Ok (Some dl, st')
        /\ alphas (Some dl) = [200; 200; 200; 200]).
Proof.
  split; [|split; [|split]].
  - destruct (water_box_alpha_200 sample_consts lava_world eq_refl)
      as (_ & _ & _ & _ & H & _).
    destruct (create_shadow_player sample_consts lava_world zero zero zero 614 255 lava_state)
      as [[[dl |] st'] | k] eqn:Er; try (vm_compute in Er; discriminate).
    exists dl, st'. split; [reflexivity|].
    apply (H zero zero zero 614 255 lava_state dl st' lava_floor Er); try reflexivity.
    apply (f_equal (fun r => floor (s (state_of r st0)))) in Er.
    vm_compute in Er. symmetry. exact Er.
  - destruct (water_box_alpha_200 sample_consts bitfs_low_world eq_refl)
      as (_ & _ & _ & _ & _ & _ & _ & H).
    destruct (create_shadow_player sample_consts bitfs_low_world zero (of_int (-3000)) zero
                614 255 (lava_state_at (-3100)))
      as [[[dl |] st'] | k] eqn:Er; try (vm_compute in Er; discriminate).
    exists dl, st'. split; [reflexivity|].
    apply (H zero (of_int (-3000)) zero 614 255 (lava_state_at (-3100)) dl st' lava_floor Er).
    + reflexivity.
    + reflexivity.
    + reflexivity.
    + right. split; [reflexivity|]. left. vm_compute. reflexivity.
  - destruct (water_box_alpha_200 sample_consts bitfs_high_world eq_refl)
      as (_ & _ & _ & _ & _ & _ & H & _).
    destruct (create_shadow_player sample_consts bitfs_high_world zero (of_int 3600) zero
                614 255 (lava_state_at 3500))
      as [[[dl |] st'] | k] eqn:Er; try (vm_compute in Er; discriminate).
    exists dl, st'. split; [reflexivity|].
    apply (H zero (of_int 3600) zero 614 255 (lava_state_at 3500) dl st' lava_floor Er).
    + reflexivity.
    + apply (f_equal (fun r => floor (s (state_of r st0)))) in Er.
      vm_compute in Er. symmetry. exact Er.
    + reflexivity.
    + right.
      apply (f_equal (fun r => fgt (floorHeight (s (state_of r st0))) (of_int 3400))) in Er.
      vm_compute in Er. symmetry. exact Er.
  - destruct (water_box_alpha_200 sample_consts pool_world eq_refl)
      as (_ & _ & _ & _ & _ & H & _).
    destruct (create_shadow_player sample_consts pool_world zero (of_int 200) zero 614 255
                ground_state)
      as [[[dl |] st'] | k] eqn:Er; try (vm_compute in Er; discriminate).
    exists dl, st'. split; [reflexivity|].
    apply (H zero (of_int 200) zero 614 255 ground_state dl st' flat_floor Er).
    + reflexivity.
    + vm_compute. reflexivity.
    + reflexivity.
Defined.

(* ===================================================================== *)
(** ** What a build overwrites (claim C8) *)
(* ===================================================================== *)

(** C8 (as amended).  Every build stores the floor and the floor height
    it finds (lines 635-648) and leaves the other five fields to the
    strategy.  For the player and circle strategies with a non-zero
    requested solidity, two builds with the same arguments end alike
    whatever workspace and flags earlier builds left: the same outcome,
    and, when a display list is produced, the same final state, so that
    every field has been rewritten.  The square and hardcoded-rectangle
    strategies write none of [parentPos], [shadowScale], [floorPitch],
    [floorYaw] and [solidity], and their outcome does not depend on the
    earlier workspace either. *)
Theorem create_shadow_below_xyz_overwrites (C : Consts) (W : World)
    (x y z : f32) (sc sol ty : Z) :
  (forall cf, exists cf', forall w fl,
     create_shadow_below_xyz_floor C W x y z (mkState w fl cf)
     = Ok (fst (fst (floor_below W x y z)),
           mkState (with_floor (snd (fst (floor_below W x y z)))
                               (snd (floor_below W x y z)) w) fl cf'))
  /\ (ty = SHADOW_CIRCLE_PLAYER C \/ ty = SHADOW_CIRCLE C -> sol <> 0 ->
      forall w w' fl fl' cf,
        build_alike (create_shadow_below_xyz C W x y z sc sol ty (mkState w fl cf))
                    (create_shadow_below_xyz C W x y z sc sol ty (mkState w' fl' cf)))
  /\ (ty <> SHADOW_CIRCLE_PLAYER C -> ty <> SHADOW_CIRCLE C ->
      forall w w' fl fl' cf,
        output_of (create_shadow_below_xyz C W x y z sc sol ty (mkState w fl cf))
        = output_of (create_shadow_below_xyz C W x y z sc sol ty (mkState w' fl' cf))
        /\ forall o st',
             create_shadow_below_xyz C W x y z sc sol ty (mkState w fl cf) = Ok (o, st') ->
             s st' = with_floor (snd (fst (floor_below W x y z)))
                                (snd (floor_below W x y z)) w).
Proof.
  split; [|split].
  - intros cf. destruct (create_shadow_below_xyz_floor_run C W x y z cf) as [cf' E].
    exists cf'. intros w fl. apply E.
  - intros Hty Hs w w' fl fl' cf. now apply create_shadow_below_xyz_alike.
  - intros Hp Hc w w' fl fl' cf.
    apply (create_shadow_below_xyz_frame C W x y z sc sol ty w w' fl fl' cf Hp Hc).
Qed.

(** Two circle builds of solidity 255 from different earlier workspaces
    end alike. *)
Lemma create_shadow_below_xyz_overwrites_witness :
  build_alike
    (create_shadow_below_xyz sample_consts flat_world zero zero zero 614 255
       (SHADOW_CIRCLE sample_consts) st0)
    (create_shadow_below_xyz sample_consts flat_world zero zero zero 614 255
       (SHADOW_CIRCLE sample_consts)
       (mkState (mkShadow (mkVec3f one one one) one one (Some lava_floor) 5 6 7) 3 0)).
Proof.
  destruct (create_shadow_below_xyz_overwrites sample_consts flat_world
              zero zero zero 614 255 (SHADOW_CIRCLE sample_consts)) as (_ & H & _).
  apply H.
  - right. reflexivity.
  - discriminate.
Defined.

(** The second of two builds in a row carries the solidity of the first
    in its vertices when it asks for solidity 0 (the earlier workspace
    reaches the output), and a square build leaves five fields of the
    workspace as they were. *)
Lemma create_shadow_below_xyz_counterexample :
  match two_builds 200, two_builds 90 with
  | Ok dl1, Ok dl2 => alphas dl1 = [200; 200; 200; 200] /\ alphas dl2 = [90; 90; 90; 90]
  | _, _ => False
  end
  /\ (let C := sample_consts in
      match create_shadow_below_xyz C flat_world one one one 614 255
              (SHADOW_SQUARE_PERMANENT C) st0 with
      | Ok (Some _, st') =>
          parentPos (s st') = parentPos (s st0)
          /\ parentPos (s st') <> mkVec3f one one one
          /\ solidity (s st') = 77
      | _ => False
      end).
Proof. vm_compute. repeat split; congruence. Qed.

(* ===================================================================== *)
(** ** Witnesses of the remaining statements *)
(* ===================================================================== *)

(** Scale 614 at distances -3, 0 and 600. *)
Lemma scale_shadow_with_distance_spec_witness :
  scale_shadow_with_distance (of_int 614) (of_int (-3)) = of_int 614
  /\ fle (scale_shadow_with_distance (of_int 614) c600)
         (scale_shadow_with_distance (of_int 614) zero) = true.
Proof.
  destruct (scale_shadow_with_distance_spec (of_int 614)) as (A & _ & _ & _ & _ & F).
  split.
  - apply A. vm_compute. reflexivity.
  - apply F; vm_compute; reflexivity.
Defined.

(** Solidity 255 at distances 300 and 600. *)
Lemma dim_shadow_with_distance_spec_witness :
  dim_shadow_with_distance 255 c600 = Ok 120
  /\ exists v, dim_shadow_with_distance 255 (of_int 300) = Ok v /\ 120 <= v <= 255.
Proof.
  assert (Hu : is_u8 255) by (unfold is_u8; lia).
  destruct (dim_shadow_with_distance_spec 255 Hu) as [_ H].
  destruct (H ltac:(lia)) as (_ & _ & B & D & _).
  split.
  - apply B. vm_compute. reflexivity.
  - destruct (D (of_int 300)) as (v & E & _ & B'); try (vm_compute; reflexivity).
    exists v. auto.
Defined.

(** The fast ledge grab, frames 5 to 14, final solidity 255, at frame 9. *)
Lemma linearly_interpolate_solidity_positive_spec_witness :
  linearly_interpolate_solidity_positive 255 9 5 14 st0
  = Ok (tt, with_solidity (255 * (9 - 5) / (14 - 5)) st0).
Proof.
  assert (Hf : is_u8 255) by (unfold is_u8; lia).
  assert (H9 : is_s16 9) by (unfold is_s16; lia).
  assert (H5 : is_s16 5) by (unfold is_s16; lia).
  assert (H14 : is_s16 14) by (unfold is_s16; lia).
  destruct (linearly_interpolate_solidity_positive_spec 255 9 5 14 st0 Hf H9 H5 H14
              ltac:(lia)) as (_ & _ & R & _).
  apply R; lia.
Defined.

(** Climbing down a ledge, frames 0 to 5, initial solidity 255. *)
Lemma linearly_interpolate_solidity_negative_spec_witness :
  linearly_interpolate_solidity_negative 255 0 0 5 st0 = Ok (tt, with_solidity 255 st0)
  /\ linearly_interpolate_solidity_negative 255 5 0 5 st0 = Ok (tt, with_solidity 0 st0)
  /\ linearly_interpolate_solidity_negative 255 7 0 5 st0 = Ok (tt, with_solidity 0 st0).
Proof.
  assert (Hi : is_u8 255) by (unfold is_u8; lia).
  assert (H5 : is_s16 5) by (unfold is_s16; lia).
  destruct (linearly_interpolate_solidity_negative_spec 255 5 st0 Hi H5 ltac:(lia))
    as (A & B & _ & D).
  split; [exact A|]. split; [exact B|]. apply D. lia.
Defined.

(** An object at height 200 over water at height 100, the ground at
    height 0: with a water-surface floor, and without one. *)
Lemma init_shadow_water_box_witness :
  (exists n st1,
     init_shadow_resolve sample_consts water_world
       (with_parentPos zero (of_int 200) zero ground_state) = Ok (Some n, st1)
     /\ floor (s st1) = Some water_surface
     /\ solidity (s st1) = 200)
  /\ (exists st1,
        init_shadow_resolve sample_consts pool_world
          (with_parentPos zero (of_int 200) zero ground_state)
        = Ok (Some (mkVec3f zero one zero), st1)).
Proof.
  split.
  - destruct (init_shadow_water_box sample_consts water_world zero (of_int 200) zero
                614 255 ground_state flat_floor (of_int 100) (Some water_surface))
      as (n & st1 & E & _ & (_ & Hfl & _ & _ & Hs) & _);
      try (vm_compute; reflexivity).
    exists n, st1. auto.
  - destruct (init_shadow_water_box sample_consts pool_world zero (of_int 200) zero
                614 255 ground_state flat_floor (of_int 100) None)
      as (n & st1 & E & _ & (Hn & _) & _);
      try (vm_compute; reflexivity).
    exists st1. rewrite <- Hn. exact E.
Defined.

(** With the upstream constants, over flat ground. *)
Lemma hardcoded_rectangle_unguarded_witness :
  exists shadowType,
    ~ In (wrap_s8 (shadowType - SHADOW_RECTANGLE_HARDCODED_OFFSET sample_consts)) [0; 1]
    /\ create_shadow_below_xyz sample_consts flat_world zero zero zero 614 255
         shadowType st0 = UB UB_out_of_bounds.
Proof.
  destruct (hardcoded_rectangle_unguarded sample_consts) as (ty & _ & _ & Hidx & _ & H).
  exists ty. split; [exact Hidx|].
  eapply (H flat_world zero zero zero 614 255 st0 _ flat_floor).
  - vm_compute. reflexivity.
  - vm_compute. reflexivity.
  - vm_compute. reflexivity.
Defined.


(* ===================================================================== *)
(** ** Rotation and rectangles *)
(* ===================================================================== *)

Lemma post_ok {A} (Q : A -> State -> Prop) E r a st :
  post Q E r -> r = Ok (a, st) -> Q a st.
Proof. intros H ->. exact H. Qed.

Lemma post_bind {A B} (m : M A) (k : A -> M B) st
    (Q1 : A -> State -> Prop) (Q2 : B -> State -> Prop) E :
  post Q1 E (m st) -> (forall a st1, Q1 a st1 -> post Q2 E (k a st1)) ->
  post Q2 E (bind m k st).
Proof.
  unfold bind. destruct (m st) as [[a st1] | u]; cbn [post]; auto.
Qed.

Lemma post_weaken {A} (Q Q' : A -> State -> Prop) (E E' : UBKind -> Prop) r :
  post Q E r -> (forall a st, Q a st -> Q' a st) -> (forall k, E k -> E' k) ->
  post Q' E' r.
Proof. destruct r as [[a st] | k]; cbn [post]; auto. Qed.

Lemma OVF_pos : 0 < OVF.
Proof. rewrite OVF_eq. pose proof U_pos. nia. Qed.

Lemma round_units_opp (x : Q) : round_units (- x) = - round_units x.
Proof.
  destruct (Qlt_le_dec 0 x) as [P | N].
  - assert (E1 : Qle_bool 0 x = true) by (apply Qle_bool_iff; lra).
    assert (E2 : Qle_bool 0 (- x) = false).
    { destruct (Qle_bool 0 (- x)) eqn:E; [|reflexivity]. apply Qle_bool_iff in E. lra. }
    assert (E3 : Qle_bool 0 (- - x) = true) by (apply Qle_bool_iff; lra).
    assert (R : round_units (- - x) = round_units x) by (apply round_units_comp; ring).
    unfold round_units in *. rewrite E1, E2 in *. rewrite E3 in R. lia.
  - destruct (Qlt_le_dec x 0) as [P | Z0].
    + assert (E1 : Qle_bool 0 x = false).
      { destruct (Qle_bool 0 x) eqn:E; [|reflexivity]. apply Qle_bool_iff in E. lra. }
      assert (E2 : Qle_bool 0 (- x) = true) by (apply Qle_bool_iff; lra).
      unfold round_units. rewrite E1, E2. lia.
    + assert (A : round_units x = 0).
      { rewrite <- round_units_0. apply round_units_comp. lra. }
      assert (B : round_units (- x) = 0).
      { rewrite <- round_units_0. apply round_units_comp. lra. }
      lia.
Qed.

Lemma fround_opp (x : Q) : fround (- x) = fneg (fround x).
Proof.
  unfold fround. rewrite round_units_opp, Z.abs_opp.
  pose proof OVF_pos.
  destruct (Z.ltb_spec (Z.abs (round_units x)) OVF); cbn [fneg]; [reflexivity|].
  f_equal. destruct (Z.ltb_spec (- round_units x) 0), (Z.ltb_spec (round_units x) 0);
    try reflexivity; lia.
Qed.

Lemma fneg_involutive (a : f32) : fneg (fneg a) = a.
Proof. destruct a as [| sg | n]; cbn [fneg]; [reflexivity| now rewrite negb_involutive | now rewrite Z.opp_involutive]. Qed.

Lemma U_nonzero_Q : ~ (inject_Z U == 0)%Q.
Proof. apply inject_Z_nonzero, U_pos. Qed.

Lemma fmul_fneg_l (a b : f32) : fmul (fneg a) b = fneg (fmul a b).
Proof.
  destruct a as [| sa | n], b as [| sb | m]; cbn [fneg fmul]; try reflexivity.
  - now destruct sa, sb.
  - destruct (m =? 0); [reflexivity|]. cbn [fneg]. now destruct sa, (m <? 0).
  - destruct (Z.eqb_spec n 0) as [-> | Hn]; [reflexivity|].
    destruct (Z.eqb_spec (- n) 0); [lia|]. cbn [fneg]. f_equal.
    destruct (Z.ltb_spec (- n) 0), (Z.ltb_spec n 0); try lia; now destruct sb.
  - rewrite <- fround_opp. apply fround_comp.
    rewrite Z.mul_opp_l, inject_Z_opp. field. apply U_nonzero_Q.
Qed.

Lemma fadd_fneg (a b : f32) : fadd (fneg a) (fneg b) = fneg (fadd a b).
Proof.
  destruct a as [| sa | n], b as [| sb | m]; cbn [fneg fadd]; try reflexivity.
  - now destruct sa, sb.
  - rewrite <- fround_opp. apply fround_comp.
    rewrite <- inject_Z_opp. replace (- n + - m) with (- (n + m)) by ring. reflexivity.
Qed.

Lemma fsub_fneg (a b : f32) : fsub (fneg a) (fneg b) = fneg (fsub a b).
Proof. unfold fsub. apply fadd_fneg. Qed.

Lemma rotate_rectangle_fneg (W : World) (oldZ oldX : f32) :
  rotate_rectangle W (fneg oldZ) (fneg oldX)
  = (fneg (fst (rotate_rectangle W oldZ oldX)), fneg (snd (rotate_rectangle W oldZ oldX))).
Proof.
  unfold rotate_rectangle. cbn [fst snd].
  now rewrite !fmul_fneg_l, fsub_fneg, fadd_fneg.
Qed.

Lemma fround_zero : fround 0 = Fin 0.
Proof. change 0%Q with (inject_Z (0 * U)). now rewrite fround_int. Qed.

Lemma fmul_zero_r (n : Z) : fmul (Fin n) zero = zero.
Proof.
  unfold zero. cbn [fmul]. rewrite Z.mul_0_r.
  rewrite <- fround_zero. apply fround_comp. field. apply U_nonzero_Q.
Qed.

Lemma fadd_zero_r (a : f32) : is_f32 a = true -> fadd a zero = a.
Proof.
  destruct a as [| sg | n]; [reflexivity | reflexivity |].
  cbn [is_f32]. intros H. apply andb_prop in H. destruct H as [E L].
  apply Z.eqb_eq in E. apply Z.ltb_lt in L.
  unfold zero. cbn [fadd]. rewrite Z.add_0_r.
  rewrite fround_fin by (rewrite E; exact L). now rewrite E.
Qed.

Lemma fadd_zero_l (a : f32) : is_f32 a = true -> fadd zero a = a.
Proof.
  destruct a as [| sg | n]; [reflexivity | reflexivity |].
  cbn [is_f32]. intros H. apply andb_prop in H. destruct H as [E L].
  apply Z.eqb_eq in E. apply Z.ltb_lt in L.
  unfold zero. cbn [fadd]. rewrite Z.add_0_l.
  rewrite fround_fin by (rewrite E; exact L). now rewrite E.
Qed.

Lemma fmul_zero_r_fin (a : f32) : is_finite a = true -> fmul a zero = zero.
Proof. destruct a as [| |n]; try discriminate. intros _. apply fmul_zero_r. Qed.

(** X2.  At a yaw whose sine is 0 and whose cosine is 1,
    [rotate_rectangle] returns every finite binary32 point unchanged. *)
Theorem rotate_rectangle_zero_yaw (W : World) (oldZ oldX : f32) :
  sins W (oFaceAngleYaw W) = zero -> coss W (oFaceAngleYaw W) = one ->
  is_finite oldZ = true -> is_finite oldX = true ->
  is_f32 oldZ = true -> is_f32 oldX = true ->
  rotate_rectangle W oldZ oldX = (oldZ, oldX).
Proof.
  intros Hs Hc Fz Fx Hz Hx. unfold rotate_rectangle. rewrite Hs, Hc.
  rewrite !fmul_zero_r_fin, !fmul_one_r by assumption.
  unfold fsub. change (fneg zero) with zero.
  now rewrite fadd_zero_r, fadd_zero_l by assumption.
Qed.

Lemma rotate_rectangle_zero_yaw_witness :
  rotate_rectangle flat_world (of_int 230) (of_int (-360)) = (of_int 230, of_int (-360)).
Proof.
  apply rotate_rectangle_zero_yaw; try reflexivity; vm_compute; reflexivity.
Defined.

Section Quad.

Variable C : Consts.

Variable W : World.

Lemma make_shadow_vertex_at_xyz_vtx verts index relX relY relZ alpha st verts' st' :
  make_shadow_vertex_at_xyz C W verts index relX relY relZ alpha st = Ok (verts', st') ->
  st' = st
  /\ exists v, vtx_at C W (gShadowFlags st) index relX relY relZ alpha v
               /\ verts' = store_vtx verts (Z.to_nat index) v.
Proof.
  unfold make_shadow_vertex_at_xyz, vtx_at, stored_texture. run.
  destruct (f32_to_s16 (roundf W relY)) as [vy |]; [|discriminate].
  destruct (get_texture_coords C index) as [tx ty]. run.
  destruct (f32_to_s16 (roundf W relX)) as [vx |]; [|discriminate].
  destruct (f32_to_s16 (roundf W relZ)) as [vz |]; [|discriminate].
  intros E. inversion E; subst. split; [reflexivity|].
  eexists. split; [|reflexivity]. exists vx, vy, vz. auto.
Qed.

Lemma create_shadow_rectangle_inv hw hl relY sol st dl st' :
  create_shadow_rectangle C W hw hl relY sol st = Ok (Some dl, st') ->
  st' = st
  /\ alloc_verts W && alloc_gfx W = true
  /\ exists verts,
       dl = add_shadow_to_display_list verts SHADOW_SHAPE_SQUARE
       /\ Forall2 (fun c v =>
                     vtx_at C W (gShadowFlags st) (fst c)
                       (snd (rotate_rectangle W (fst (snd c)) (snd (snd c)))) relY
                       (fst (rotate_rectangle W (fst (snd c)) (snd (snd c)))) sol v)
            (rectangle_corners hw hl) verts.
Proof.
  unfold create_shadow_rectangle, rectangle_corners.
  destruct (alloc_verts W && alloc_gfx W); cbn [negb];
    [|intros E; apply ret_ok_inv in E; destruct E; discriminate].
  destruct (rotate_rectangle W (fneg hl) (fneg hw)) as [z0 x0] eqn:R0.
  destruct (rotate_rectangle W (fneg hl) hw) as [z1 x1] eqn:R1.
  destruct (rotate_rectangle W hl (fneg hw)) as [z2 x2] eqn:R2.
  destruct (rotate_rectangle W hl hw) as [z3 x3] eqn:R3.
  intros E.
  apply bind_ok_inv in E. destruct E as (l0 & st0 & E0 & E).
  apply make_shadow_vertex_at_xyz_vtx in E0. destruct E0 as (-> & v0 & A0 & ->).
  apply bind_ok_inv in E. destruct E as (l1 & st1 & E1 & E).
  apply make_shadow_vertex_at_xyz_vtx in E1. destruct E1 as (-> & v1 & A1 & ->).
  apply bind_ok_inv in E. destruct E as (l2 & st2 & E2 & E).
  apply make_shadow_vertex_at_xyz_vtx in E2. destruct E2 as (-> & v2 & A2 & ->).
  apply bind_ok_inv in E. destruct E as (l3 & st3 & E3 & E).
  apply make_shadow_vertex_at_xyz_vtx in E3. destruct E3 as (-> & v3 & A3 & ->).
  apply ret_ok_inv in E. destruct E as [E ->]. inversion E; subst. clear E.
  split; [reflexivity|]. split; [reflexivity|].
  exists [v0; v1; v2; v3]. split; [reflexivity|].
  repeat (apply Forall2_cons; [cbn [fst snd]; rewrite ?R0, ?R1, ?R2, ?R3; assumption|]).
  apply Forall2_nil.
Qed.

End Quad.

Lemma flt_irrefl (a : f32) : flt a a = false.
Proof.
  destruct a as [| [|] | n]; cbn [flt]; try reflexivity. apply Z.ltb_irrefl.
Qed.

Lemma f32_to_s16_fneg (a : f32) (v v' : Z) :
  f32_to_s16 a = Ok v -> f32_to_s16 (fneg a) = Ok v' -> v' = - v.
Proof.
  pose proof U_pos as HU.
  unfold f32_to_s16, f32_to_int. destruct a as [| sg | n]; cbn [fneg ftrunc]; try discriminate.
  rewrite Z.quot_opp_l by lia.
  destruct (_ && _); [|discriminate]. destruct (_ && _); [|discriminate].
  intros E1 E2. inversion E1; inversion E2; subst. reflexivity.
Qed.

Lemma roundf_model_odd (a : f32) : roundf_model (fneg a) = fneg (roundf_model a).
Proof.
  destruct a as [| sg | n]; cbn [fneg roundf_model]; try reflexivity.
  rewrite Z.sgn_opp, Z.abs_opp. f_equal. ring.
Qed.

Lemma Forall2_four {A B} (R : A -> B -> Prop) a0 a1 a2 a3 l :
  Forall2 R [a0; a1; a2; a3] l ->
  exists b0 b1 b2 b3, l = [b0; b1; b2; b3] /\ R a0 b0 /\ R a1 b1 /\ R a2 b2 /\ R a3 b3.
Proof.
  intros H.
  inversion H as [| ? b0 ? l0 H0 T0]; subst.
  inversion T0 as [| ? b1 ? l1 H1 T1]; subst.
  inversion T1 as [| ? b2 ? l2 H2 T2]; subst.
  inversion T2 as [| ? b3 ? l3 H3 T3]; subst.
  inversion T3; subst.
  exists b0, b1, b2, b3. auto.
Qed.

Section Rectangle.

Variable C : Consts.

Variable W : World.

Lemma get_shadow_height_solidity_eq x y z sol st :
  get_shadow_height_solidity C W x y z sol st
  = if flt (floorHeight (s st)) (FLOOR_LOWER_LIMIT_MISC C)
    then Ok ((true, floorHeight (s st), sol), st)
    else if water_under C W x y z (floorHeight (s st))
         then Ok ((false, find_water_level W x z, 200),
                  with_flags (flag_set (SHADOW_FLAG_WATER_BOX C) (gShadowFlags st)) st)
         else Ok ((false, floorHeight (s st), sol), st).
Proof.
  unfold get_shadow_height_solidity, water_under. run.
  destruct (flt (floorHeight (s st)) (FLOOR_LOWER_LIMIT_MISC C)); [reflexivity|].
  destruct (flt (find_water_level W x z) (FLOOR_LOWER_LIMIT_MISC C)); cbn [negb andb];
    [reflexivity|].
  destruct (fge y (find_water_level W x z) && fge (find_water_level W x z) (floorHeight (s st)));
    reflexivity.
Qed.

(** The height and solidity a square build works with. *)
Lemma create_shadow_square_inv x y z sc sol ty st dl st' :
  create_shadow_square C W x y z sc sol ty st = Ok (Some dl, st') ->
  exists h sol' hw,
    get_shadow_height_solidity C W x y z sol st = Ok ((false, h, sol'), st')
    /\ create_shadow_rectangle C W hw hw (fneg (fsub y h)) sol' st' = Ok (Some dl, st')
    /\ (ty = SHADOW_SQUARE_TOGGLABLE C -> ty <> SHADOW_SQUARE_PERMANENT C ->
        ty <> SHADOW_SQUARE_SCALABLE C ->
        hw = if fge (fsub y h) c600 then zero else of_int (Z.shiftr sc 1)).
Proof.
  unfold create_shadow_square. intros E.
  apply bind_ok_inv in E. destruct E as ([[ns h] sol'] & st1 & Eg & E).
  destruct ns; [apply ret_ok_inv in E; destruct E; discriminate|].
  assert (St : forall hw, create_shadow_rectangle C W hw hw (fneg (fsub y h)) sol' st1
                          = Ok (Some dl, st') -> st' = st1).
  { intros hw H. now apply create_shadow_rectangle_inv in H. }
  destruct (Z.eqb_spec ty (SHADOW_SQUARE_PERMANENT C)) as [E1 | N1].
  { pose proof (St _ E); subst st1. do 3 eexists. split; [exact Eg|]. split; [exact E|].
    intros; contradiction. }
  destruct (Z.eqb_spec ty (SHADOW_SQUARE_SCALABLE C)) as [E2 | N2].
  { pose proof (St _ E); subst st1. do 3 eexists. split; [exact Eg|]. split; [exact E|].
    intros; contradiction. }
  destruct (Z.eqb_spec ty (SHADOW_SQUARE_TOGGLABLE C)) as [E3 | N3].
  { pose proof (St _ E); subst st1. do 3 eexists. split; [exact Eg|]. split; [exact E|].
    reflexivity. }
  apply ret_ok_inv in E. destruct E; discriminate.
Qed.

Lemma create_shadow_hardcoded_rectangle_inv x y z sc sol ty st dl st' :
  create_shadow_hardcoded_rectangle C W x y z sc sol ty st = Ok (Some dl, st') ->
  exists h sol' hw hl,
    get_shadow_height_solidity C W x y z sol st = Ok ((false, h, sol'), st')
    /\ create_shadow_rectangle C W hw hl (fneg (fsub y h)) sol' st' = Ok (Some dl, st').
Proof.
  unfold create_shadow_hardcoded_rectangle. intros E.
  apply bind_ok_inv in E. destruct E as ([[ns h] sol'] & st1 & Eg & E).
  destruct ns; [apply ret_ok_inv in E; destruct E; discriminate|].
  apply bind_ok_inv in E. destruct E as (r & st2 & Er & E).
  apply lift_ok_inv in Er. destruct Er as [_ ->].
  destruct (scaleWithDistance r);
    (pose proof E as E'; apply create_shadow_rectangle_inv in E'; destruct E' as [-> _];
     do 4 eexists; split; [exact Eg | exact E]).
Qed.

(** The facts about the vertices of a rectangle that do not depend on
    the corner. *)
Lemma create_shadow_rectangle_uniform hw hl relY sol st dl st' :
  create_shadow_rectangle C W hw hl relY sol st = Ok (Some dl, st') ->
  st' = st
  /\ dl = add_shadow_to_display_list (vertices_of dl) SHADOW_SHAPE_SQUARE
  /\ length (vertices_of dl) = 4%nat
  /\ exists vy,
       f32_to_s16 (roundf W relY) = Ok vy
       /\ Forall (fun v =>
                    v_y v = (if flag_test (gShadowFlags st) (SHADOW_FLAG_RAISED C)
                             then wrap_s16 (vy + 5) else vy)
                    /\ v_r v = 255 /\ v_g v = 255 /\ v_b v = 255 /\ v_a v = sol)
            (vertices_of dl)
       /\ map (fun v => (v_tx v, v_ty v)) (vertices_of dl)
          = map (stored_texture C) [0; 1; 2; 3].
Proof.
  intros E. apply create_shadow_rectangle_inv in E.
  destruct E as (-> & _ & verts & -> & F).
  apply Forall2_four in F. destruct F as (v0 & v1 & v2 & v3 & -> & A0 & A1 & A2 & A3).
  cbn [fst snd] in *.
  destruct A0 as (x0 & y0 & z0 & _ & Y0 & _ & ->).
  destruct A1 as (x1 & y1 & z1 & _ & Y1 & _ & ->).
  destruct A2 as (x2 & y2 & z2 & _ & Y2 & _ & ->).
  destruct A3 as (x3 & y3 & z3 & _ & Y3 & _ & ->).
  assert (y1 = y0) as -> by congruence.
  assert (y2 = y0) as -> by congruence.
  assert (y3 = y0) as -> by congruence.
  split; [reflexivity|]. split; [reflexivity|]. split; [reflexivity|].
  exists y0. split; [exact Y0|]. split.
  - cbn [vertices_of add_shadow_to_display_list]. repeat constructor.
  - cbn [vertices_of add_shadow_to_display_list map v_tx v_ty].
    repeat (f_equal; try (symmetry; apply surjective_pairing)).
Qed.

End Rectangle.

(** X1.  [rotate_rectangle] is odd: negating both coordinates of a point
    negates both coordinates of its image, for every yaw and for all
    floats, infinities and NaN included. *)
Theorem rotate_rectangle_odd (W : World) (oldZ oldX : f32) :
  rotate_rectangle W (fneg oldZ) (fneg oldX)
  = (fneg (fst (rotate_rectangle W oldZ oldX)), fneg (snd (rotate_rectangle W oldZ oldX))).
Proof. apply rotate_rectangle_fneg. Qed.

(** X3.  A display list returned by [create_shadow_rectangle] is the
    square-shadow command sequence around four vertices; the four
    vertices have the same height and carry the solidity passed in as
    their alpha; the workspace and the flags are left as they were. *)
Theorem create_shadow_rectangle_flat (C : Consts) (W : World)
    (halfWidth halfLength relY : f32) (solidity : Z) (st : State) dl st' :
  create_shadow_rectangle C W halfWidth halfLength relY solidity st = Ok (Some dl, st') ->
  st' = st
  /\ dl = add_shadow_to_display_list (vertices_of dl) SHADOW_SHAPE_SQUARE
  /\ length (vertices_of dl) = 4%nat
  /\ exists vy, Forall (fun v => v_y v = vy /\ v_a v = solidity) (vertices_of dl).
Proof.
  intros E. apply create_shadow_rectangle_uniform in E.
  destruct E as (-> & D & L & vy & _ & F & _).
  repeat (split; [assumption || reflexivity|]).
  eexists. eapply Forall_impl; [|exact F]. cbv beta. intros v H. split; apply H.
Qed.

Lemma create_shadow_rectangle_flat_witness :
  exists dl,
    create_shadow_rectangle sample_consts flat_world (of_int 100) (of_int 50)
      (of_int (-20)) 180 ground_state = Ok (Some dl, ground_state)
    /\ exists vy, Forall (fun v => v_y v = vy /\ v_a v = 180) (vertices_of dl).
Proof.
  destruct (create_shadow_rectangle sample_consts flat_world (of_int 100) (of_int 50)
              (of_int (-20)) 180 ground_state) as [[[dl |] st'] | k] eqn:Er;
    try (vm_compute in Er; discriminate).
  destruct (create_shadow_rectangle_flat _ _ _ _ _ _ _ _ _ Er) as (-> & _ & _ & H).
  exists dl. split; [reflexivity | exact H].
Defined.

(** X4.  When [roundf] is odd, the rectangle [create_shadow_rectangle]
    emits is centred on its parent: vertex 3 is the reflection of vertex 0
    through the origin, and vertex 2 that of vertex 1. *)
Theorem create_shadow_rectangle_centred (C : Consts) (W : World)
    (halfWidth halfLength relY : f32) (solidity : Z) (st : State) dl st' :
  (forall a, roundf W (fneg a) = fneg (roundf W a)) ->
  create_shadow_rectangle C W halfWidth halfLength relY solidity st = Ok (Some dl, st') ->
  exists v0 v1 v2 v3,
    vertices_of dl = [v0; v1; v2; v3]
    /\ v_x v3 = - v_x v0 /\ v_z v3 = - v_z v0
    /\ v_x v2 = - v_x v1 /\ v_z v2 = - v_z v1.
Proof.
  intros Hodd E. apply create_shadow_rectangle_inv in E.
  destruct E as (-> & _ & verts & -> & F).
  apply Forall2_four in F. destruct F as (v0 & v1 & v2 & v3 & -> & A0 & A1 & A2 & A3).
  cbn [fst snd] in *.
  rewrite rotate_rectangle_fneg in A0. cbn [fst snd] in A0.
  rewrite <- (fneg_involutive halfWidth) in A1 at 1 2.
  rewrite rotate_rectangle_fneg in A1. cbn [fst snd] in A1.
  destruct (rotate_rectangle W halfLength halfWidth) as [z3 x3].
  destruct (rotate_rectangle W halfLength (fneg halfWidth)) as [z2 x2].
  cbn [fst snd] in *.
  destruct A0 as (a0 & y0 & c0 & X0 & _ & Z0 & ->).
  destruct A1 as (a1 & y1 & c1 & X1 & _ & Z1 & ->).
  destruct A2 as (a2 & y2 & c2 & X2 & _ & Z2 & ->).
  destruct A3 as (a3 & y3 & c3 & X3 & _ & Z3 & ->).
  rewrite Hodd in X0, Z0, X1, Z1.
  pose proof (f32_to_s16_fneg _ _ _ X3 X0).
  pose proof (f32_to_s16_fneg _ _ _ Z3 Z0).
  pose proof (f32_to_s16_fneg _ _ _ X2 X1).
  pose proof (f32_to_s16_fneg _ _ _ Z2 Z1).
  do 4 eexists. split; [reflexivity|]. cbn [v_x v_z]. lia.
Qed.

Lemma create_shadow_rectangle_centred_witness :
  exists dl v0 v1 v2 v3,
    create_shadow_rectangle sample_consts flat_world (of_int 100) (of_int 50)
      (of_int (-20)) 180 ground_state = Ok (Some dl, ground_state)
    /\ vertices_of dl = [v0; v1; v2; v3]
    /\ v_x v3 = - v_x v0 /\ v_z v3 = - v_z v0
    /\ v_x v2 = - v_x v1 /\ v_z v2 = - v_z v1.
Proof.
  destruct (create_shadow_rectangle sample_consts flat_world (of_int 100) (of_int 50)
              (of_int (-20)) 180 ground_state) as [[[dl |] st'] | k] eqn:Er;
    try (vm_compute in Er; discriminate).
  destruct (create_shadow_rectangle_centred sample_consts flat_world _ _ _ _ _ _ _
              roundf_model_odd Er) as (v0 & v1 & v2 & v3 & H).
  assert (st' = ground_state) as ->.
  { apply create_shadow_rectangle_inv in Er. apply Er. }
  exists dl, v0, v1, v2, v3. split; [reflexivity | exact H].
Defined.


(* ===================================================================== *)
(** ** The water queries *)
(* ===================================================================== *)

Lemma wrap_s8_congr (x y : Z) : x mod 256 = y mod 256 -> wrap_s8 x = wrap_s8 y.
Proof.
  intros H. unfold wrap_s8. f_equal.
  rewrite (Z.add_mod x) by lia. rewrite H. now rewrite <- Z.add_mod by lia.
Qed.

Lemma flag_set_idem (m fl : Z) : flag_set m (flag_set m fl) = flag_set m fl.
Proof.
  unfold flag_set. apply wrap_s8_congr.
  change 256 with (2 ^ 8). rewrite <- !Z.land_ones by lia.
  rewrite Z.land_lor_distr_l. rewrite land_wrap_s8 by (cbn; lia).
  rewrite <- Z.land_lor_distr_l. f_equal.
  rewrite <- Z.lor_assoc. now rewrite Z.lor_diag.
Qed.

Lemma lava_low : flt (of_int (-3062)) (of_int (-3000)) = true.
Proof. vm_compute. reflexivity. Qed.

Lemma lava_high :
  flt (of_int 3492) (of_int (-3000)) = false /\ fgt (of_int 3492) (of_int 3400) = true.
Proof. vm_compute. split; reflexivity. Qed.

(** X5.  [get_water_level_below_shadow] always returns.  The level it
    returns is the level found, or [FLOOR_LOWER_LIMIT_MISC] itself when the
    level found is below that limit, so it is never below the limit; the
    surface it hands back is the one the query found.  The workspace and
    the collision flags are unchanged; the flag byte is unchanged or gets
    [SHADOW_FLAG_WATER_BOX] set, the latter only when the level lies
    between the floor height and the height of the parent. *)
Theorem get_water_level_below_shadow_spec (C : Consts) (W : World) (st : State) :
  let q := find_water_level_and_floor W (vec_x (parentPos (s st)))
             (vec_z (parentPos (s st))) in
  let waterLevel := if flt (fst q) (FLOOR_LOWER_LIMIT_MISC C)
                    then FLOOR_LOWER_LIMIT_MISC C else fst q in
  exists st',
    get_water_level_below_shadow C W st = Ok ((waterLevel, snd q), st')
    /\ flt waterLevel (FLOOR_LOWER_LIMIT_MISC C) = false
    /\ s st' = s st
    /\ gCollisionFlags st' = gCollisionFlags st
    /\ (gShadowFlags st' = gShadowFlags st
        \/ (gShadowFlags st' = flag_set (SHADOW_FLAG_WATER_BOX C) (gShadowFlags st)
            /\ fle (floorHeight (s st)) waterLevel = true
            /\ fle waterLevel (vec_y (parentPos (s st))) = true)).
Proof.
  cbv zeta. unfold get_water_level_below_shadow. run.
  destruct (find_water_level_and_floor W _ _) as [wl wfl]. cbn [fst snd].
  destruct (flt wl (FLOOR_LOWER_LIMIT_MISC C)) eqn:E; run.
  - eexists. split; [reflexivity|]. rewrite flt_irrefl.
    cbn [s gShadowFlags gCollisionFlags]. auto.
  - destruct (fge (vec_y (parentPos (s st))) wl) eqn:E1;
      destruct (fle (floorHeight (s st)) wl) eqn:E2; run;
      eexists; (split; [reflexivity|]); cbn [s gShadowFlags gCollisionFlags]; auto.
    destruct st; repeat split; auto.
Qed.

(** X6.  [get_shadow_height_solidity] always returns, leaves the
    workspace and the collision flags alone, and answers TRUE exactly when
    the floor height is below [FLOOR_LOWER_LIMIT_MISC].  When it answers
    FALSE the height it reports is not below the limit.  Either it reports
    the floor height and the solidity it was given and changes nothing, or
    it reports a water level lying between the floor height and the
    object, with solidity 200, and sets [SHADOW_FLAG_WATER_BOX]. *)
Theorem get_shadow_height_solidity_spec (C : Consts) (W : World)
    (xPos yPos zPos : f32) (solidity : Z) (st : State) :
  exists r h sol' st',
    get_shadow_height_solidity C W xPos yPos zPos solidity st = Ok ((r, h, sol'), st')
    /\ s st' = s st
    /\ gCollisionFlags st' = gCollisionFlags st
    /\ r = flt (floorHeight (s st)) (FLOOR_LOWER_LIMIT_MISC C)
    /\ (r = false -> flt h (FLOOR_LOWER_LIMIT_MISC C) = false)
    /\ ((h = floorHeight (s st) /\ sol' = solidity /\ st' = st)
        \/ (r = false /\ h = find_water_level W xPos zPos /\ sol' = 200
            /\ fle (floorHeight (s st)) h = true /\ fle h yPos = true
            /\ gShadowFlags st'
               = flag_set (SHADOW_FLAG_WATER_BOX C) (gShadowFlags st))).
Proof.
  rewrite get_shadow_height_solidity_eq.
  destruct (flt (floorHeight (s st)) (FLOOR_LOWER_LIMIT_MISC C)) eqn:E.
  - do 4 eexists. split; [reflexivity|]. repeat split; auto. discriminate.
  - unfold water_under.
    destruct (flt (find_water_level W xPos zPos) (FLOOR_LOWER_LIMIT_MISC C)) eqn:E0; cbn [negb andb].
    + do 4 eexists. split; [reflexivity|]. repeat split; auto.
    + destruct (fge yPos (find_water_level W xPos zPos)) eqn:E1;
        destruct (fge (find_water_level W xPos zPos) (floorHeight (s st))) eqn:E2;
        cbn [andb]; do 4 eexists; (split; [reflexivity|]); repeat split; auto.
      right. repeat split; auto.
Qed.


(* ===================================================================== *)
(** ** Square shadows *)
(* ===================================================================== *)

Lemma fmul_zero_l (n : Z) : fmul zero (Fin n) = zero.
Proof.
  unfold zero. cbn [fmul]. rewrite Z.mul_0_l.
  rewrite <- fround_zero. apply fround_comp. field. apply U_nonzero_Q.
Qed.

Lemma rotate_rectangle_zero (W : World) :
  is_finite (sins W (oFaceAngleYaw W)) = true ->
  is_finite (coss W (oFaceAngleYaw W)) = true ->
  rotate_rectangle W zero zero = (zero, zero).
Proof.
  unfold rotate_rectangle.
  destruct (sins W (oFaceAngleYaw W)) as [| |sy]; try discriminate.
  destruct (coss W (oFaceAngleYaw W)) as [| |cy]; try discriminate.
  intros _ _. rewrite !fmul_zero_l. unfold fsub. change (fneg zero) with zero.
  now rewrite fadd_zero_l by reflexivity.
Qed.

Lemma f32_to_s16_zero : f32_to_s16 zero = Ok 0.
Proof.
  unfold f32_to_s16, f32_to_int, zero, ftrunc. pose proof U_pos.
  rewrite Z.quot_0_l by lia. reflexivity.
Qed.

Section Squares.

Variable C : Consts.

Variable W : World.

(** The alphas of a rectangle. *)
Lemma create_shadow_rectangle_alphas hw hl relY sol st dl st' :
  create_shadow_rectangle C W hw hl relY sol st = Ok (Some dl, st') ->
  alphas (Some dl) = [sol; sol; sol; sol].
Proof.
  intros E. apply create_shadow_rectangle_inv in E.
  destruct E as (_ & _ & verts & -> & F).
  apply Forall2_four in F. destruct F as (v0 & v1 & v2 & v3 & -> & A0 & A1 & A2 & A3).
  destruct A0 as (? & ? & ? & _ & _ & _ & ->).
  destruct A1 as (? & ? & ? & _ & _ & _ & ->).
  destruct A2 as (? & ? & ? & _ & _ & _ & ->).
  destruct A3 as (? & ? & ? & _ & _ & _ & ->).
  reflexivity.
Qed.

Lemma square_strategies_alphas x y z sc sol ty st dl st' :
  (create_shadow_square C W x y z sc sol ty st = Ok (Some dl, st')
   \/ create_shadow_hardcoded_rectangle C W x y z sc sol ty st = Ok (Some dl, st')) ->
  let a := if water_under C W x y z (floorHeight (s st)) then 200 else sol in
  alphas (Some dl) = [a; a; a; a]
  /\ dl = add_shadow_to_display_list (vertices_of dl) SHADOW_SHAPE_SQUARE.
Proof.
  intros H.
  assert (G : exists h sol' hw hl,
             get_shadow_height_solidity C W x y z sol st = Ok ((false, h, sol'), st')
             /\ create_shadow_rectangle C W hw hl (fneg (fsub y h)) sol' st'
                = Ok (Some dl, st')).
  { destruct H as [H | H].
    - apply create_shadow_square_inv in H. destruct H as (h & sol' & hw & G & R & _).
      exists h, sol', hw, hw. auto.
    - now apply create_shadow_hardcoded_rectangle_inv in H. }
  destruct G as (h & sol' & hw & hl & G & R).
  cbv zeta. split.
  - rewrite (create_shadow_rectangle_alphas _ _ _ _ _ _ _ R).
    rewrite get_shadow_height_solidity_eq in G.
    destruct (flt (floorHeight (s st)) (FLOOR_LOWER_LIMIT_MISC C)); [discriminate|].
    destruct (water_under C W x y z (floorHeight (s st))); inversion G; reflexivity.
  - apply create_shadow_rectangle_uniform in R. apply R.
Qed.

End Squares.

(** X7.  The square and hardcoded-rectangle shadows are never dimmed
    with distance: in every display list [create_shadow_below_xyz] returns
    for a type other than the player and the circle type, the four alphas
    are the requested solidity, or 200 when the object is over water (the
    test of lines 565-568), and the list is a square-shape list. *)
Theorem square_shadow_alpha (C : Consts) (W : World) (x y z : f32) (sc sol ty : Z)
    (st : State) dl st' :
  ty <> SHADOW_CIRCLE_PLAYER C -> ty <> SHADOW_CIRCLE C ->
  create_shadow_below_xyz C W x y z sc sol ty st = Ok (Some dl, st') ->
  let a := if water_under C W x y z (snd (floor_below W x y z)) then 200 else sol in
  alphas (Some dl) = [a; a; a; a]
  /\ dl = add_shadow_to_display_list (vertices_of dl) SHADOW_SHAPE_SQUARE.
Proof.
  intros Hp Hc. destruct st as [w fl cf].
  destruct (create_shadow_below_xyz_run C W x y z sc sol ty cf) as [cf' E].
  rewrite E. clear E.
  destruct (floor_below W x y z) as [[found fl0] h]. cbn [snd].
  destruct found; [|discriminate]. destruct fl0 as [f |]; [|discriminate].
  unfold type_switch.
  destruct (Z.eqb_spec ty (SHADOW_CIRCLE_PLAYER C)); [contradiction|].
  destruct (Z.eqb_spec ty (SHADOW_CIRCLE C)); [contradiction|].
  intros H.
  apply (square_strategies_alphas C W x y z sc sol ty
           (mkState (with_floor (Some f) h w) (ice_flags C f) cf') dl st').
  destruct (_ || _); auto.
Qed.

Lemma square_shadow_alpha_witness :
  (exists dl st',
     create_shadow_below_xyz sample_consts water_world zero (of_int 200) zero 614 255
       (SHADOW_SQUARE_PERMANENT sample_consts) st0 = Ok (Some dl, st')
     /\ alphas (Some dl) = [200; 200; 200; 200])
  /\ (exists dl st',
        create_shadow_below_xyz sample_consts flat_world zero (of_int 700) zero 614 255
          (50 + 1) st0 = Ok (Some dl, st')
        /\ alphas (Some dl) = [255; 255; 255; 255]).
Proof.
  split.
  - destruct (create_shadow_below_xyz sample_consts water_world zero (of_int 200) zero 614 255
                (SHADOW_SQUARE_PERMANENT sample_consts) st0) as [[[dl |] st'] | k] eqn:Er;
      try (vm_compute in Er; discriminate).
    exists dl, st'. split; [reflexivity|].
    apply (square_shadow_alpha sample_consts water_world zero (of_int 200) zero 614 255
             (SHADOW_SQUARE_PERMANENT sample_consts) st0 dl st');
      [discriminate | discriminate | exact Er].
  - destruct (create_shadow_below_xyz sample_consts flat_world zero (of_int 700) zero 614 255
                (50 + 1) st0) as [[[dl |] st'] | k] eqn:Er;
      try (vm_compute in Er; discriminate).
    exists dl, st'. split; [reflexivity|].
    apply (square_shadow_alpha sample_consts flat_world zero (of_int 700) zero 614 255
             (50 + 1) st0 dl st'); [discriminate | discriminate | exact Er].
Defined.

(** X8.  A togglable square shadow 600 units or more above the height
    it is drawn at is still emitted, but with radius 0: all four vertices
    lie at the origin of the x-z plane (for a finite yaw sine and cosine
    and [roundf 0 = 0]). *)
Theorem togglable_square_collapses (C : Consts) (W : World) (x y z : f32) (sc sol : Z)
    (st : State) dl st' :
  is_finite (sins W (oFaceAngleYaw W)) = true ->
  is_finite (coss W (oFaceAngleYaw W)) = true ->
  roundf W zero = zero ->
  SHADOW_SQUARE_TOGGLABLE C <> SHADOW_SQUARE_PERMANENT C ->
  SHADOW_SQUARE_TOGGLABLE C <> SHADOW_SQUARE_SCALABLE C ->
  fge (fsub y (if water_under C W x y z (floorHeight (s st))
               then find_water_level W x z else floorHeight (s st))) c600 = true ->
  create_shadow_square C W x y z sc sol (SHADOW_SQUARE_TOGGLABLE C) st = Ok (Some dl, st') ->
  length (vertices_of dl) = 4%nat
  /\ Forall (fun v => v_x v = 0 /\ v_z v = 0) (vertices_of dl).
Proof.
  intros Hs Hc Hr N1 N2 Hd E.
  apply create_shadow_square_inv in E. destruct E as (h & sol' & hw & G & R & Hhw).
  specialize (Hhw eq_refl N1 N2).
  assert (Eh : h = if water_under C W x y z (floorHeight (s st))
                   then find_water_level W x z else floorHeight (s st)).
  { rewrite get_shadow_height_solidity_eq in G.
    destruct (flt (floorHeight (s st)) (FLOOR_LOWER_LIMIT_MISC C)); [discriminate|].
    destruct (water_under C W x y z (floorHeight (s st))); inversion G; reflexivity. }
  rewrite <- Eh in Hd. rewrite Hd in Hhw. subst hw.
  apply create_shadow_rectangle_inv in R. destruct R as (_ & _ & verts & -> & F).
  apply Forall2_four in F. destruct F as (v0 & v1 & v2 & v3 & -> & A0 & A1 & A2 & A3).
  cbn [fst snd] in *. change (fneg zero) with zero in *.
  rewrite rotate_rectangle_zero in * by assumption. cbn [fst snd] in *.
  assert (Z0 : forall vx, f32_to_s16 (roundf W zero) = Ok vx -> vx = 0).
  { intros vx. rewrite Hr, f32_to_s16_zero. congruence. }
  destruct A0 as (? & ? & ? & X0 & _ & Z0' & ->).
  destruct A1 as (? & ? & ? & X1 & _ & Z1 & ->).
  destruct A2 as (? & ? & ? & X2 & _ & Z2 & ->).
  destruct A3 as (? & ? & ? & X3 & _ & Z3 & ->).
  split; [reflexivity|].
  cbn [vertices_of add_shadow_to_display_list]. repeat constructor; cbn [v_x v_z]; auto.
Qed.

Lemma togglable_square_collapses_witness :
  exists dl st',
    create_shadow_square sample_consts flat_world zero (of_int 600) zero 614 255
      (SHADOW_SQUARE_TOGGLABLE sample_consts) ground_state = Ok (Some dl, st')
    /\ length (vertices_of dl) = 4%nat
    /\ Forall (fun v => v_x v = 0 /\ v_z v = 0) (vertices_of dl).
Proof.
  destruct (create_shadow_square sample_consts flat_world zero (of_int 600) zero 614 255
              (SHADOW_SQUARE_TOGGLABLE sample_consts) ground_state)
    as [[[dl |] st'] | k] eqn:Er; try (vm_compute in Er; discriminate).
  exists dl, st'. split; [reflexivity|].
  apply (togglable_square_collapses sample_consts flat_world zero (of_int 600) zero 614 255
           ground_state dl st');
    [ reflexivity | reflexivity | vm_compute; reflexivity | discriminate | discriminate
    | vm_compute; reflexivity | exact Er ].
Defined.


(* ===================================================================== *)
(** ** The flat-ground circle, animations and lava *)
(* ===================================================================== *)

(** X9.  A display list returned by
    [create_shadow_circle_assuming_flat_ground] is a circle-shape list
    whose four vertices form an axis-aligned quad at one height, with the
    solidity passed in as alpha whatever the flags are; the floor height
    is not below the limit, and the workspace and the flags are left as
    they were. *)
Theorem create_shadow_circle_assuming_flat_ground_spec (C : Consts) (W : World)
    (xPos yPos zPos : f32) (shadowScale solidity : Z) (st : State) dl st' :
  create_shadow_circle_assuming_flat_ground C W xPos yPos zPos shadowScale solidity st
  = Ok (Some dl, st') ->
  st' = st
  /\ flt (floorHeight (s st)) (FLOOR_LOWER_LIMIT_MISC C) = false
  /\ dl = add_shadow_to_display_list (vertices_of dl) SHADOW_SHAPE_CIRCLE
  /\ exists v0 v1 v2 v3,
       vertices_of dl = [v0; v1; v2; v3]
       /\ v_x v0 = v_x v2 /\ v_x v1 = v_x v3 /\ v_z v0 = v_z v1 /\ v_z v2 = v_z v3
       /\ Forall (fun v => v_y v = v_y v0 /\ v_a v = solidity) [v0; v1; v2; v3].
Proof.
  unfold create_shadow_circle_assuming_flat_ground. intros E.
  apply bind_ok_inv in E. destruct E as (st1 & st2 & E0 & E).
  inversion E0; subst st1 st2. clear E0.
  destruct (flt (floorHeight (s st)) (FLOOR_LOWER_LIMIT_MISC C));
    [apply ret_ok_inv in E; destruct E; discriminate|].
  destruct (negb (alloc_verts W && alloc_gfx W));
    [apply ret_ok_inv in E; destruct E; discriminate|].
  apply bind_ok_inv in E. destruct E as (l0 & s0 & E0 & E).
  apply make_shadow_vertex_at_xyz_vtx in E0. destruct E0 as (-> & v0 & A0 & ->).
  apply bind_ok_inv in E. destruct E as (l1 & s1 & E1 & E).
  apply make_shadow_vertex_at_xyz_vtx in E1. destruct E1 as (-> & v1 & A1 & ->).
  apply bind_ok_inv in E. destruct E as (l2 & s2 & E2 & E).
  apply make_shadow_vertex_at_xyz_vtx in E2. destruct E2 as (-> & v2 & A2 & ->).
  apply bind_ok_inv in E. destruct E as (l3 & s3 & E3 & E).
  apply make_shadow_vertex_at_xyz_vtx in E3. destruct E3 as (-> & v3 & A3 & ->).
  apply ret_ok_inv in E. destruct E as [E ->]. inversion E; subst. clear E.
  destruct A0 as (x0 & y0 & z0 & X0 & Y0 & Z0 & ->).
  destruct A1 as (x1 & y1 & z1 & X1 & Y1 & Z1 & ->).
  destruct A2 as (x2 & y2 & z2 & X2 & Y2 & Z2 & ->).
  destruct A3 as (x3 & y3 & z3 & X3 & Y3 & Z3 & ->).
  assert (y1 = y0) as -> by congruence.
  assert (y2 = y0) as -> by congruence.
  assert (y3 = y0) as -> by congruence.
  assert (x2 = x0) as -> by congruence.
  assert (x3 = x1) as -> by congruence.
  assert (z1 = z0) as -> by congruence.
  assert (z3 = z2) as -> by congruence.
  repeat (split; [reflexivity|]).
  do 4 eexists. split; [reflexivity|]. cbn [v_x v_y v_z v_a].
  repeat (split; [reflexivity|]). repeat constructor.
Qed.

Lemma create_shadow_circle_assuming_flat_ground_spec_witness :
  exists dl,
    create_shadow_circle_assuming_flat_ground sample_consts flat_world zero (of_int 50) zero
      614 255 (with_flags 1 ground_state) = Ok (Some dl, with_flags 1 ground_state)
    /\ alphas (Some dl) = [255; 255; 255; 255].
Proof.
  destruct (create_shadow_circle_assuming_flat_ground sample_consts flat_world zero
              (of_int 50) zero 614 255 (with_flags 1 ground_state))
    as [[[dl |] st'] | k] eqn:Er; try (vm_compute in Er; discriminate).
  destruct (create_shadow_circle_assuming_flat_ground_spec _ _ _ _ _ _ _ _ _ _ Er)
    as (-> & _ & D & v0 & v1 & v2 & v3 & Ev & _ & _ & _ & _ & F).
  exists dl. split; [reflexivity|].
  unfold alphas. rewrite D. cbn [add_shadow_to_display_list]. rewrite Ev.
  inversion F as [| ? ? [_ a0] F1]; subst.
  inversion F1 as [| ? ? [_ a1] F2]; subst.
  inversion F2 as [| ? ? [_ a2] F3]; subst.
  inversion F3 as [| ? ? [_ a3] F4]; subst.
  cbn [map]. now rewrite a0, a1, a2, a3.
Defined.

(** Values of the ease-in ramp. *)
Lemma ramp_bounds (final a b : Z) : 0 <= final -> 0 <= a <= b -> 0 < b -> 0 <= final * a / b <= final.
Proof.
  intros Hf Ha Hb. split.
  - apply Z.div_pos; nia.
  - apply Z.div_le_upper_bound; nia.
Qed.

Lemma positive_value (final curr start end_ : Z) (st : State) :
  is_u8 final -> 0 <= curr <= 32767 -> 0 <= start -> start < end_ -> end_ <= 32767 ->
  exists v,
    linearly_interpolate_solidity_positive final curr start end_ st
    = Ok (tt, with_solidity v st)
    /\ 0 <= v <= final
    /\ (curr < start -> v = 0)
    /\ (end_ <= curr -> v = final).
Proof.
  intros Hf Hc Hs Hlt He. pose proof Hf as Hf'. unfold is_u8 in Hf'.
  destruct (Z_lt_le_dec curr start).
  { exists 0. rewrite positive_before by lia. repeat split; try lia. }
  destruct (Z_lt_le_dec end_ curr).
  { exists final. rewrite positive_after by lia. repeat split; try lia. }
  exists (final * (curr - start) / (end_ - start)).
  rewrite positive_ramp by (auto; unfold is_s16; lia).
  split; [reflexivity|]. split; [apply ramp_bounds; lia|]. split; [lia|].
  intros H. assert (curr = end_) as -> by lia. apply Z.div_mul. lia.
Qed.

Lemma negative_value (initial curr : Z) (st : State) :
  is_u8 initial -> 0 <= curr <= 32767 ->
  exists v,
    linearly_interpolate_solidity_negative initial curr 0 5 st
    = Ok (tt, with_solidity v st)
    /\ 0 <= v <= initial
    /\ (curr = 0 -> v = initial)
    /\ (5 <= curr -> v = 0).
Proof.
  intros Hi Hc. pose proof Hi as Hi'. unfold is_u8 in Hi'. pose proof U_pos as HU.
  destruct (Z_lt_le_dec 5 curr).
  { exists 0. unfold linearly_interpolate_solidity_negative.
    destruct (Z.leb_spec curr 5); [lia|]. rewrite andb_false_r.
    repeat split; try lia. }
  exists (Z.quot (easeout_raw initial (curr - 0) (5 - 0)) U).
  rewrite negative_ramp by (auto; unfold is_s16; lia).
  split; [reflexivity|]. rewrite !Z.sub_0_r.
  split; [apply quot_bounds, easeout_raw_bounds; auto; lia|]. split.
  - intros ->. rewrite easeout_raw_0 by (auto; lia). apply Z.quot_mul. lia.
  - intros H. assert (curr = 5) as -> by lia. rewrite easeout_raw_end by lia.
    apply Z.quot_0_l. lia.
Qed.

(** X10.  For a solidity in [0..255] and a non-negative animation frame
    [correct_shadow_solidity_for_animations] always returns: "no shadow"
    while Mario idles on a ledge and "not yet set" for the other
    animations, both without touching the state; during the three ledge
    animations "already set", with a stored solidity between 0 and the
    solidity given: 0 before frame 5 and the full solidity from frame 14
    on for the fast ledge grab, 0 before frame 21 and the full solidity
    from frame 33 on for the slow one, the full solidity at frame 0 and 0
    from frame 5 on when climbing down. *)
Theorem correct_shadow_solidity_for_animations_spec (W : World) (initialSolidity : Z)
    (st : State) :
  is_u8 initialSolidity -> 0 <= animFrame W <= 32767 ->
  exists a st',
    correct_shadow_solidity_for_animations W initialSolidity st = Ok (a, st')
    /\ match animID W with
       | MARIO_ANIM_IDLE_ON_LEDGE => a = SHADOW_SOLIDITY_NO_SHADOW /\ st' = st
       | MARIO_ANIM_FAST_LEDGE_GRAB =>
           a = SHADOW_SOILDITY_ALREADY_SET
           /\ exists v, st' = with_solidity v st /\ 0 <= v <= initialSolidity
                        /\ (animFrame W < 5 -> v = 0)
                        /\ (14 <= animFrame W -> v = initialSolidity)
       | MARIO_ANIM_SLOW_LEDGE_GRAB =>
           a = SHADOW_SOILDITY_ALREADY_SET
           /\ exists v, st' = with_solidity v st /\ 0 <= v <= initialSolidity
                        /\ (animFrame W < 21 -> v = 0)
                        /\ (33 <= animFrame W -> v = initialSolidity)
       | MARIO_ANIM_CLIMB_DOWN_LEDGE =>
           a = SHADOW_SOILDITY_ALREADY_SET
           /\ exists v, st' = with_solidity v st /\ 0 <= v <= initialSolidity
                        /\ (animFrame W = 0 -> v = initialSolidity)
                        /\ (5 <= animFrame W -> v = 0)
       | MARIO_ANIM_OTHER _ => a = SHADOW_SOLIDITY_NOT_YET_SET /\ st' = st
       end.
Proof.
  intros Hs Hf. unfold correct_shadow_solidity_for_animations.
  destruct (animID W).
  - do 2 eexists. split; [reflexivity|]. auto.
  - destruct (positive_value initialSolidity (animFrame W) 5 14 st) as (v & E & B);
      auto; try lia.
    unfold bind. rewrite E. do 2 eexists. split; [reflexivity|]. split; [reflexivity|].
    exists v. auto.
  - destruct (positive_value initialSolidity (animFrame W) 21 33 st) as (v & E & B);
      auto; try lia.
    unfold bind. rewrite E. do 2 eexists. split; [reflexivity|]. split; [reflexivity|].
    exists v. auto.
  - destruct (negative_value initialSolidity (animFrame W) st) as (v & E & B); auto.
    unfold bind. rewrite E. do 2 eexists. split; [reflexivity|]. split; [reflexivity|].
    exists v. auto.
  - do 2 eexists. split; [reflexivity|]. auto.
Qed.

Lemma correct_shadow_solidity_for_animations_spec_witness :
  exists st',
    correct_shadow_solidity_for_animations
      (make_world zero flat_floor no_water (LEVEL_OTHER 9) true MARIO_ANIM_FAST_LEDGE_GRAB 20)
      200 st0 = Ok (SHADOW_SOILDITY_ALREADY_SET, st')
    /\ solidity (s st') = 200.
Proof.
  destruct (correct_shadow_solidity_for_animations_spec
              (make_world zero flat_floor no_water (LEVEL_OTHER 9) true
                 MARIO_ANIM_FAST_LEDGE_GRAB 20) 200 st0)
    as (a & st' & E & -> & v & -> & _ & _ & Hv); [unfold is_u8; lia | cbn; lia |].
  eexists. split; [exact E|]. cbn. apply Hv. cbn. lia.
Defined.

(** X11.  With a floor in the workspace [correct_lava_shadow_height]
    always returns and changes at most the floor height and the flag
    byte.  It changes nothing unless the floor is burning; when it does
    change something, the floor height becomes one of -3062, 3492 and 5
    and [SHADOW_FLAG_WATER_BOX] is set.  Running it a second time changes
    nothing more. *)
Theorem correct_lava_shadow_height_spec (C : Consts) (W : World) (st : State) (f : Surface) :
  floor (s st) = Some f ->
  exists st',
    correct_lava_shadow_height C W st = Ok (tt, st')
    /\ s st' = set_floorHeight (floorHeight (s st')) (s st)
    /\ gCollisionFlags st' = gCollisionFlags st
    /\ (st' = st
        \/ (type f = SURFACE_BURNING
            /\ In (floorHeight (s st')) lava_heights
            /\ gShadowFlags st'
               = flag_set (SHADOW_FLAG_WATER_BOX C) (gShadowFlags st)))
    /\ correct_lava_shadow_height C W st' = Ok (tt, st').
Proof.
  intros Hf. destruct st as [w fl cf]. cbn [s] in Hf.
  assert (Hw : set_floorHeight (floorHeight w) w = w) by (destruct w; reflexivity).
  pose proof lava_low as L1. destruct lava_high as [L2 L3].
  unfold correct_lava_shadow_height. run. rewrite Hf. run.
  destruct (gCurrLevelNum W) eqn:El; destruct (type f) eqn:Et; run;
    try (exists (mkState w fl cf); run; rewrite ?Hf; run; rewrite ?Et;
         repeat split; auto; fail).
  - destruct (flt (floorHeight w) (of_int (-3000))) eqn:E1; run.
    + eexists. split; [reflexivity|]. run. rewrite Hf. run. rewrite Et, L1. run.
      rewrite flag_set_idem. repeat split; auto.
      right. repeat split; auto. unfold lava_heights. simpl. auto.
    + destruct (fgt (floorHeight w) (of_int 3400)) eqn:E2; run.
      * eexists. split; [reflexivity|]. run. rewrite Hf. run. rewrite Et, L2, L3. run.
        rewrite flag_set_idem. repeat split; auto.
        right. repeat split; auto. unfold lava_heights. simpl. auto.
      * exists (mkState w fl cf). run. rewrite Hf. run. rewrite Et, E1, E2.
        repeat split; auto.
  - destruct (gCurrAreaIndex W =? 1) eqn:Ea; run.
    + eexists. split; [reflexivity|]. run. rewrite Hf. run. rewrite Et, ?Ea. run.
      rewrite flag_set_idem. repeat split; auto.
      right. repeat split; auto. unfold lava_heights. simpl. auto.
    + exists (mkState w fl cf). run. rewrite Hf. run. rewrite Et, ?Ea.
      repeat split; auto.
Qed.

Lemma correct_lava_shadow_height_spec_witness :
  exists st',
    correct_lava_shadow_height sample_consts lava_world lava_state = Ok (tt, st')
    /\ floorHeight (s st') = of_int 5
    /\ correct_lava_shadow_height sample_consts lava_world st' = Ok (tt, st').
Proof.
  destruct (correct_lava_shadow_height_spec sample_consts lava_world lava_state lava_floor
              eq_refl) as (st' & E & _ & _ & _ & I).
  exists st'. repeat split; auto.
  vm_compute in E. inversion E. reflexivity.
Defined.


(* ===================================================================== *)
(** ** What init_shadow leaves in the workspace *)
(* ===================================================================== *)

Section Init.

Variable C : Consts.

Variable W : World.

Lemma init_shadow_attenuate_post y sc ov n st :
  post (fun _ st' =>
          parentPos (s st') = parentPos (s st)
          /\ floorHeight (s st') = floorHeight (s st)
          /\ floor (s st') = floor (s st)
          /\ gShadowFlags st' = gShadowFlags st
          /\ gCollisionFlags st' = gCollisionFlags st
          /\ shadowScale (s st')
             = scale_shadow_with_distance (of_int sc) (fsub y (floorHeight (s st)))
          /\ (ov <> 0 ->
              exists v, dim_shadow_with_distance ov (fsub y (floorHeight (s st))) = Ok v
                        /\ solidity (s st') = wrap_u8 v)
          /\ (ov = 0 -> solidity (s st') = solidity (s st)))
       (fun k => k = UB_float_to_int)
       (init_shadow_attenuate C W y sc ov n st).
Proof.
  unfold init_shadow_attenuate. run.
  destruct (Z.eqb_spec ov 0) as [Eov | Nov]; run.
  - destruct (FLT_IS_NONZERO C _); run; cbn [post]; run;
      repeat (split; [reflexivity|]); (split; [contradiction | reflexivity]).
  - destruct (dim_shadow_with_distance ov _) as [v | k] eqn:D; run.
    + destruct (FLT_IS_NONZERO C _); run; cbn [post]; run;
        repeat (split; [reflexivity|]);
        (split; [intros _; exists v; split; reflexivity | contradiction]).
    + cbn [post]. unfold dim_shadow_with_distance in D.
      repeat match type of D with
             | (if ?b then _ else _) = _ => destruct b; try discriminate
             end.
      eapply f32_to_int_ub. exact D.
Qed.

Lemma init_shadow_attenuate_inv y sc ov n st st' :
  init_shadow_attenuate C W y sc ov n st = Ok (tt, st') ->
  parentPos (s st') = parentPos (s st)
  /\ floorHeight (s st') = floorHeight (s st)
  /\ floor (s st') = floor (s st)
  /\ gShadowFlags st' = gShadowFlags st
  /\ gCollisionFlags st' = gCollisionFlags st
  /\ shadowScale (s st')
     = scale_shadow_with_distance (of_int sc) (fsub y (floorHeight (s st)))
  /\ (ov <> 0 ->
      exists v, dim_shadow_with_distance ov (fsub y (floorHeight (s st))) = Ok v
                /\ solidity (s st') = wrap_u8 v)
  /\ (ov = 0 -> solidity (s st') = solidity (s st)).
Proof.
  intros E. exact (post_ok _ _ _ _ _ (init_shadow_attenuate_post y sc ov n st) E).
Qed.

Lemma init_shadow_resolve_post st :
  post (fun r st' =>
          parentPos (s st') = parentPos (s st)
          /\ shadowScale (s st') = shadowScale (s st)
          /\ floorPitch (s st') = floorPitch (s st)
          /\ floorYaw (s st') = floorYaw (s st)
          /\ gCollisionFlags st' = gCollisionFlags st
          /\ floor (s st') <> None
          /\ (solidity (s st') = solidity (s st) \/ solidity (s st') = 200)
          /\ (r = None -> s st' = s st))
       (fun k => k = UB_null_deref /\ floor (s st) = None)
       (init_shadow_resolve C W st).
Proof.
  unfold init_shadow_resolve.
  destruct (get_water_level_below_shadow_run C W st) as (wl & wfl & E).
  unfold bind at 1. rewrite E. clear E.
  set (st1 := if over_water_box C W _ _ _ _ then _ else st).
  assert (S1 : s st1 = s st /\ gCollisionFlags st1 = gCollisionFlags st).
  { unfold st1. destruct (over_water_box C W _ _ _ _); split; reflexivity. }
  clearbody st1. destruct st1 as [w1 fl1 cf1]. cbn [s gCollisionFlags] in S1.
  destruct S1 as [-> ->]. run.
  destruct (floor (s st)) as [f |] eqn:Ef; run; [|cbn [post]; auto].
  destruct (flag_test fl1 (SHADOW_FLAG_WATER_BOX C)); run.
  - destruct wfl as [wf |]; run; cbn [post]; run;
      repeat split; auto; try discriminate. rewrite Ef. discriminate.
  - destruct (fle (vec_y (normal f)) zero
              || flt (floorHeight (s st)) (FLOOR_LOWER_LIMIT_MISC C));
      run; cbn [post]; run; repeat split; auto; rewrite Ef; discriminate.
Qed.

Lemma init_shadow_resolve_inv st n st' :
  init_shadow_resolve C W st = Ok (Some n, st') ->
  parentPos (s st') = parentPos (s st)
  /\ gCollisionFlags st' = gCollisionFlags st
  /\ floor (s st') <> None
  /\ (solidity (s st') = solidity (s st) \/ solidity (s st') = 200).
Proof.
  intros E. pose proof (post_ok _ _ _ _ _ (init_shadow_resolve_post st) E) as H.
  cbv beta in H. tauto.
Qed.

Lemma init_shadow_resolve_none st :
  is_mask (SHADOW_FLAG_WATER_BOX C) = true ->
  post (fun r st' =>
          r = None ->
          st' = st
          /\ flag_test (gShadowFlags st) (SHADOW_FLAG_WATER_BOX C) = false
          /\ over_water_box C W (vec_x (parentPos (s st))) (vec_y (parentPos (s st)))
               (vec_z (parentPos (s st))) (floorHeight (s st)) = false
          /\ exists f, floor (s st) = Some f
                       /\ (fle (vec_y (normal f)) zero
                           || flt (floorHeight (s st)) (FLOOR_LOWER_LIMIT_MISC C)) = true)
       any_ub
       (init_shadow_resolve C W st).
Proof.
  intros Hm. unfold init_shadow_resolve.
  destruct (get_water_level_below_shadow_run C W st) as (wl & wfl & E).
  unfold bind at 1. rewrite E. clear E.
  destruct (over_water_box C W _ _ _ _) eqn:Ew; run.
  - destruct (floor (s st)) as [f |] eqn:Ef; run; [|exact I].
    rewrite flag_test_set_same by assumption.
    destruct wfl as [wf |]; run; cbn [post]; discriminate.
  - destruct (floor (s st)) as [f |] eqn:Ef; run; [|exact I].
    destruct (flag_test (gShadowFlags st) (SHADOW_FLAG_WATER_BOX C)) eqn:Ft; run.
    + destruct wfl as [wf |]; run; cbn [post]; discriminate.
    + destruct (fle (vec_y (normal f)) zero
                || flt (floorHeight (s st)) (FLOOR_LOWER_LIMIT_MISC C)) eqn:Eb;
        run; cbn [post]; [|discriminate].
      intros _. repeat split; eauto.
Qed.

(** What a successful [init_shadow] leaves in the workspace. *)
Lemma init_shadow_success x y z sc ov st st' :
  init_shadow C W x y z sc ov st = Ok (false, st') ->
  parentPos (s st') = mkVec3f x y z
  /\ shadowScale (s st')
     = scale_shadow_with_distance (of_int sc) (fsub y (floorHeight (s st')))
  /\ (ov <> 0 ->
      exists v, dim_shadow_with_distance ov (fsub y (floorHeight (s st'))) = Ok v
                /\ solidity (s st') = wrap_u8 v)
  /\ (ov = 0 -> solidity (s st') = solidity (s st) \/ solidity (s st') = 200)
  /\ floor (s st') <> None
  /\ gCollisionFlags st' = gCollisionFlags st.
Proof.
  unfold init_shadow. intros E.
  apply bind_ok_inv in E. destruct E as ([] & st1 & E1 & E).
  inversion E1; subst st1. clear E1.
  apply bind_ok_inv in E. destruct E as (r & st2 & E2 & E).
  destruct r as [n |]; [|apply ret_ok_inv in E; destruct E; discriminate].
  apply bind_ok_inv in E. destruct E as ([] & st3 & E3 & E).
  apply ret_ok_inv in E. destruct E as [_ ->].
  apply init_shadow_resolve_inv in E2. cbn [s parentPos set_parentPos solidity gCollisionFlags] in E2.
  destruct E2 as (P2 & C2 & F2 & S2).
  apply init_shadow_attenuate_inv in E3.
  destruct E3 as (P3 & H3 & F3 & _ & C3 & Sc & D3 & K3).
  rewrite P3, H3, F3, C3, Sc.
  repeat split; auto; try congruence.
  intros E0. rewrite (K3 E0). exact S2.
Qed.

Lemma dim_shadow_with_distance_nan u : 121 <= u -> dim_shadow_with_distance u NaN = UB UB_float_to_int.
Proof.
  intros H. unfold dim_shadow_with_distance.
  destruct (Z.ltb_spec u 121); [lia|]. cbn [fle fge].
  unfold c600. cbn [fle].
  destruct (of_int (120 - u)); cbn [fmul fdiv fadd]; reflexivity.
Qed.

Lemma dim_shadow_with_distance_bounds u d v :
  is_u8 u -> dim_shadow_with_distance u d = Ok v -> Z.min u 120 <= v <= u.
Proof.
  unfold is_u8. intros Hu E.
  destruct (Z_lt_le_dec u 121) as [Hlt | Hge].
  - unfold dim_shadow_with_distance in E. destruct (Z.ltb_spec u 121); [|lia].
    inversion E. lia.
  - destruct d as [| sg | n].
    + rewrite dim_shadow_with_distance_nan in E by assumption. discriminate.
    + rewrite (dim_shadow_with_distance_val u ltac:(lia)) in E by discriminate.
      pose proof (dim_val_bounds u ltac:(lia) (Inf sg) ltac:(discriminate)) as B.
      assert (v = dim_val u (Inf sg)) as -> by congruence. lia.
    + rewrite (dim_shadow_with_distance_val u ltac:(lia)) in E by discriminate.
      pose proof (dim_val_bounds u ltac:(lia) (Fin n) ltac:(discriminate)) as B.
      assert (v = dim_val u (Fin n)) as -> by congruence. lia.
Qed.

Lemma of_int_s16 (z : Z) : Z.abs z < 2 ^ 24 -> of_int z = Fin (z * U) /\ is_f32 (of_int z) = true.
Proof.
  intros H. unfold of_int. rewrite fround_int by assumption. split; [reflexivity|].
  cbn [is_f32]. rewrite round_units_int by assumption. rewrite Z.eqb_refl.
  pose proof (int_below_OVF z ltac:(lia)).
  destruct (Z.ltb_spec (Z.abs (z * U)) OVF); [reflexivity | lia].
Qed.

Lemma scale_shadow_with_distance_bounds sc d :
  0 <= sc < 2 ^ 24 -> d <> NaN ->
  fle (fmul (of_int sc) half) (scale_shadow_with_distance (of_int sc) d) = true
  /\ fle (scale_shadow_with_distance (of_int sc) d) (of_int sc) = true.
Proof.
  intros Hsc Hd. pose proof U_pos as HU.
  destruct (of_int_s16 sc ltac:(lia)) as [E V].
  assert (P : fle zero (of_int sc) = true).
  { rewrite E. unfold zero. cbn [fle]. apply Z.leb_le. nia. }
  split.
  - change (fmul (of_int sc) half) with (scale_shadow_with_distance (of_int sc) (Inf false)).
    apply scale_shadow_with_distance_mono; auto. destruct d as [| [|] |]; try reflexivity.
    congruence.
  - change (of_int sc) with (scale_shadow_with_distance (of_int sc) (Inf true)) at 2.
    apply scale_shadow_with_distance_mono; auto. destruct d as [| [|] |]; try reflexivity.
    congruence.
Qed.

End Init.

(** X12.  When [init_shadow] succeeds with a non-zero [overwriteSolidity]
    [ov] in [0..255], the solidity it leaves in the workspace is at most the
    solidity asked for and at least the smaller of it and 120. *)
Theorem init_shadow_solidity_bounds (C : Consts) (W : World) (x y z : f32) (sc ov : Z)
    (st st' : State) :
  is_u8 ov -> ov <> 0 ->
  init_shadow C W x y z sc ov st = Ok (false, st') ->
  Z.min ov 120 <= solidity (s st') <= ov.
Proof.
  intros Hu Hn E. apply init_shadow_success in E.
  destruct E as (_ & _ & Hs & _). destruct (Hs Hn) as (v & D & ->).
  pose proof (dim_shadow_with_distance_bounds _ _ _ Hu D) as B.
  unfold is_u8 in Hu. unfold wrap_u8. rewrite Z.mod_small by lia. exact B.
Qed.

Lemma init_shadow_solidity_bounds_witness :
  exists st',
    init_shadow sample_consts flat_world zero (of_int 300) zero 614 255 ground_state
    = Ok (false, st')
    /\ 120 <= solidity (s st') <= 255.
Proof.
  destruct (init_shadow sample_consts flat_world zero (of_int 300) zero 614 255 ground_state)
    as [[[|] st'] | k] eqn:Er; try (vm_compute in Er; discriminate).
  exists st'. split; [reflexivity|].
  apply (init_shadow_solidity_bounds sample_consts flat_world zero (of_int 300) zero 614 255
           ground_state st'); [unfold is_u8; lia | discriminate | exact Er].
Defined.

(** X13.  When [init_shadow] succeeds for a scale in [0..32767] and the
    distance to the floor is a number, the scale it leaves in the
    workspace lies between half the scale asked for and the scale asked
    for. *)
Theorem init_shadow_scale_bounds (C : Consts) (W : World) (x y z : f32) (sc ov : Z)
    (st st' : State) :
  0 <= sc <= 32767 ->
  init_shadow C W x y z sc ov st = Ok (false, st') ->
  fsub y (floorHeight (s st')) <> NaN ->
  fle (fmul (of_int sc) half) (shadowScale (s st')) = true
  /\ fle (shadowScale (s st')) (of_int sc) = true.
Proof.
  intros Hsc E Hd. apply init_shadow_success in E.
  destruct E as (_ & -> & _). apply scale_shadow_with_distance_bounds; auto. lia.
Qed.

Lemma init_shadow_scale_bounds_witness :
  exists st',
    init_shadow sample_consts flat_world zero (of_int 300) zero 614 255 ground_state
    = Ok (false, st')
    /\ fle (fmul (of_int 614) half) (shadowScale (s st')) = true
    /\ fle (shadowScale (s st')) (of_int 614) = true.
Proof.
  destruct (init_shadow sample_consts flat_world zero (of_int 300) zero 614 255 ground_state)
    as [[[|] st'] | k] eqn:Er; try (vm_compute in Er; discriminate).
  exists st'. split; [reflexivity|].
  apply (init_shadow_scale_bounds sample_consts flat_world zero (of_int 300) zero 614 255
           ground_state st'); [lia | exact Er |].
  apply (f_equal (fun r => fsub (of_int 300) (floorHeight (s (state_of r st0))))) in Er.
  cbn [state_of] in Er. rewrite <- Er. vm_compute. discriminate.
Defined.

(** X14.  A failing [init_shadow] (result TRUE) has changed nothing but
    [parentPos]: it fails only when no water box is marked or found and
    the floor normal points down or sideways or the floor lies below the
    limit, and it returns before any other field is written. *)
Theorem init_shadow_failure (C : Consts) (W : World) (x y z : f32) (sc ov : Z)
    (st st' : State) :
  is_mask (SHADOW_FLAG_WATER_BOX C) = true ->
  init_shadow C W x y z sc ov st = Ok (true, st') ->
  st' = with_parentPos x y z st
  /\ flag_test (gShadowFlags st) (SHADOW_FLAG_WATER_BOX C) = false
  /\ over_water_box C W x y z (floorHeight (s st)) = false
  /\ exists f, floor (s st) = Some f
               /\ (fle (vec_y (normal f)) zero
                   || flt (floorHeight (s st)) (FLOOR_LOWER_LIMIT_MISC C)) = true.
Proof.
  intros Hm. unfold init_shadow. intros E.
  apply bind_ok_inv in E. destruct E as ([] & st1 & E1 & E).
  assert (st1 = with_parentPos x y z st) as ->
    by (unfold upd_s in E1; injection E1 as <-; reflexivity).
  clear E1.
  apply bind_ok_inv in E. destruct E as (r & st2 & E2 & E).
  destruct r as [n |].
  - apply bind_ok_inv in E. destruct E as ([] & st3 & _ & E).
    apply ret_ok_inv in E. destruct E; discriminate.
  - apply ret_ok_inv in E. destruct E as [_ ->].
    apply (post_ok _ _ _ _ _ (init_shadow_resolve_none C W _ Hm) E2). reflexivity.
Qed.

Lemma init_shadow_failure_witness :
  init_shadow sample_consts deep_world zero zero zero 614 255
    (mkState (with_floor (Some flat_floor) (of_int (-10500)) (s st0)) 0 0)
  = Ok (true, with_parentPos zero zero zero
                (mkState (with_floor (Some flat_floor) (of_int (-10500)) (s st0)) 0 0)).
Proof.
  destruct (init_shadow sample_consts deep_world zero zero zero 614 255
              (mkState (with_floor (Some flat_floor) (of_int (-10500)) (s st0)) 0 0))
    as [[[|] st'] | k] eqn:Er; try (vm_compute in Er; discriminate).
  destruct (init_shadow_failure sample_consts deep_world zero zero zero 614 255 _ st'
              eq_refl Er) as (-> & _).
  reflexivity.
Defined.


(* ===================================================================== *)
(** ** Invariants of a build *)
(* ===================================================================== *)

Lemma player_carpet_eq (C : Consts) (W : World) st f :
  floor (s st) = Some f ->
  player_carpet C W st = Ok (tt, with_flags (carpet_flags C W f (gShadowFlags st)) st).
Proof.
  intros Hf. unfold player_carpet, carpet_flags, with_flags. destruct st as [w fl cf].
  cbn [s] in Hf.
  destruct (gCurrLevelNum W); run; try reflexivity.
  rewrite Hf. run.
  destruct (type f); destruct (gFlyingCarpetState W); reflexivity.
Qed.

Section Invariant.

Variable C : Consts.

Variable W : World.

Variable F : Z -> Prop.

Variable cf : Z.

Variable E : UBKind -> Prop.

Hypothesis HF : water_closed C F.

Hypothesis HE : E UB_float_to_int.

Lemma keeps_cast lo hi a st :
  build_inv F cf st ->
  post (fun _ st' => build_inv F cf st') E (lift (f32_to_int lo hi a) st).
Proof.
  intros I. unfold lift. destruct (f32_to_int lo hi a) as [v | k] eqn:D; cbn [post].
  - exact I.
  - now rewrite (f32_to_int_ub _ _ _ _ D).
Qed.

Lemma keeps_positive final curr start end_ st :
  build_inv F cf st ->
  post (fun _ st' => build_inv F cf st') E
       (linearly_interpolate_solidity_positive final curr start end_ st).
Proof.
  intros I. unfold linearly_interpolate_solidity_positive.
  destruct (_ && _); [exact I|]. destruct (_ <? _); [exact I|].
  eapply post_bind; [apply keeps_cast; exact I|]. intros v st1 I1. exact I1.
Qed.

Lemma keeps_negative initial curr start end_ st :
  build_inv F cf st ->
  post (fun _ st' => build_inv F cf st') E
       (linearly_interpolate_solidity_negative initial curr start end_ st).
Proof.
  intros I. unfold linearly_interpolate_solidity_negative.
  destruct (_ && _); [|exact I].
  eapply post_bind; [apply keeps_cast; exact I|]. intros v st1 I1. exact I1.
Qed.

Lemma keeps_animations sol st :
  build_inv F cf st ->
  post (fun _ st' => build_inv F cf st') E
       (correct_shadow_solidity_for_animations W sol st).
Proof.
  intros I. unfold correct_shadow_solidity_for_animations.
  destruct (animID W); try exact I;
    (eapply post_bind; [first [apply keeps_positive | apply keeps_negative]; exact I|]);
    intros v st1 I1; exact I1.
Qed.

Lemma keeps_water_query st :
  build_inv F cf st ->
  post (fun _ st' => build_inv F cf st' /\ s st' = s st) E
       (get_water_level_below_shadow C W st).
Proof.
  intros I. destruct (get_water_level_below_shadow_run C W st) as (wl & wfl & ->).
  cbn [post]. destruct (over_water_box C W _ _ _ _); [|split; [exact I | reflexivity]].
  split; [|reflexivity]. destruct I as (I1 & I2 & I3). repeat split; auto.
  now apply HF.
Qed.

Lemma keeps_resolve st :
  build_inv F cf st ->
  post (fun _ st' => build_inv F cf st') E (init_shadow_resolve C W st).
Proof.
  intros I. unfold init_shadow_resolve.
  eapply post_bind; [apply keeps_water_query; exact I|].
  intros [wl wfl] st1 [(I1 & I2 & I3) S1]. run.
  destruct (floor (s st1)) as [f |] eqn:Ef; [|contradiction]. run.
  destruct (flag_test (gShadowFlags st1) (SHADOW_FLAG_WATER_BOX C)); run.
  - destruct wfl as [wf |]; run; cbn [post]; repeat split; run; auto.
    + discriminate.
    + apply HF. now apply HF.
    + now rewrite Ef.
    + now apply HF.
  - destruct (_ || _); cbn [post]; repeat split; auto; now rewrite Ef.
Qed.

Lemma keeps_attenuate y sc ov n st :
  build_inv F cf st ->
  post (fun _ st' => build_inv F cf st') E (init_shadow_attenuate C W y sc ov n st).
Proof.
  intros (I1 & I2 & I3).
  eapply post_weaken; [apply init_shadow_attenuate_post | | intros k ->; exact HE].
  cbv beta. intros _ st' (_ & _ & Hf & Hfl & Hc & _).
  repeat split; [congruence | now rewrite Hf | now rewrite Hfl].
Qed.

Lemma keeps_init_shadow x y z sc ov st :
  build_inv F cf st ->
  post (fun _ st' => build_inv F cf st') E (init_shadow C W x y z sc ov st).
Proof.
  intros I. unfold init_shadow.
  eapply post_bind with (Q1 := fun _ st' => build_inv F cf st'); [exact I|].
  intros [] st1 I1.
  eapply post_bind; [apply keeps_resolve; exact I1|]. intros r st2 I2.
  destruct r as [n |]; [|exact I2].
  eapply post_bind; [apply keeps_attenuate; exact I2|]. intros [] st3 I3. exact I3.
Qed.

Lemma keeps_vertex_at verts index relX relY relZ alpha st :
  build_inv F cf st ->
  post (fun _ st' => build_inv F cf st') E
       (make_shadow_vertex_at_xyz C W verts index relX relY relZ alpha st).
Proof.
  intros I. unfold make_shadow_vertex_at_xyz.
  eapply post_bind; [apply keeps_cast; exact I|]. intros vy st1 I1.
  destruct (get_texture_coords C index) as [tx ty].
  eapply post_bind with (Q1 := fun _ st' => build_inv F cf st'); [exact I1|].
  intros st2 st3 I3.
  eapply post_bind; [apply keeps_cast; exact I3|]. intros vx st4 I4.
  eapply post_bind; [apply keeps_cast; exact I4|]. intros vz st5 I5. exact I5.
Qed.

Lemma keeps_calculate index st :
  build_inv F cf st ->
  post (fun _ st' => build_inv F cf st') E (calculate_vertex_xyz C W index st).
Proof.
  intros I. unfold calculate_vertex_xyz. run.
  destruct (get_vertex_coords index) as [xc zc].
  destruct (flag_test _ _); run; [exact I|].
  destruct I as (I1 & I2 & I3).
  destruct (floor (s st)) as [f |] eqn:Ef; [|contradiction]. run.
  cbn [post]. repeat split; auto. now rewrite Ef.
Qed.

Lemma keeps_vertex verts index st :
  build_inv F cf st ->
  post (fun _ st' => build_inv F cf st') E (make_shadow_vertex C W verts index st).
Proof.
  intros I. unfold make_shadow_vertex.
  eapply post_bind with (Q1 := fun _ st' => build_inv F cf st'); [exact I|].
  intros st1 st2 I2.
  eapply post_bind; [apply keeps_calculate; exact I2|]. intros [[px py] pz] st3 I3.
  apply keeps_vertex_at. exact I3.
Qed.

Lemma keeps_vertices verts st :
  build_inv F cf st ->
  post (fun _ st' => build_inv F cf st') E (make_shadow_vertices C W verts st).
Proof.
  intros I. unfold make_shadow_vertices.
  eapply post_bind; [apply keeps_vertex; exact I|]. intros v0 st1 I1.
  eapply post_bind; [apply keeps_vertex; exact I1|]. intros v1 st2 I2.
  eapply post_bind; [apply keeps_vertex; exact I2|]. intros v2 st3 I3.
  apply keeps_vertex. exact I3.
Qed.

Lemma keeps_lava st :
  build_inv F cf st ->
  post (fun _ st' => build_inv F cf st') E (correct_lava_shadow_height C W st).
Proof.
  intros I. pose proof I as (I1 & I2 & I3). apply HF in I3.
  unfold correct_lava_shadow_height. run.
  destruct (floor (s st)) as [f |] eqn:Ef; [|contradiction]. run.
  destruct (gCurrLevelNum W); destruct (type f); run; try exact I.
  - destruct (flt _ _); run; [cbn [post]; unfold build_inv; run; rewrite ?Ef; tauto|].
    destruct (fgt _ _); run; [cbn [post]; unfold build_inv; run; rewrite ?Ef; tauto | exact I].
  - destruct (_ =? _); run; [cbn [post]; unfold build_inv; run; rewrite ?Ef; tauto | exact I].
Qed.

Lemma keeps_player_tail x y z sc sol st :
  build_inv F cf st ->
  post (fun _ st' => build_inv F cf st') E (player_tail C W x y z sc sol st).
Proof.
  intros I. unfold player_tail.
  eapply post_bind; [apply keeps_animations; exact I|]. intros a st1 I1.
  assert (H : forall ov,
    post (fun _ st' => build_inv F cf st') E
      ((noShadow <- init_shadow C W x y z sc ov ;;
        if noShadow then ret None
        else if negb (alloc_verts W && alloc_gfx W) then ret None
        else
          correct_lava_shadow_height C W ;;
          verts <- make_shadow_vertices C W fresh_verts ;;
          ret (Some (add_shadow_to_display_list verts SHADOW_SHAPE_CIRCLE))) st1)).
  { intros ov.
    eapply post_bind; [apply keeps_init_shadow; exact I1|]. intros ns st2 I2.
    destruct ns; [exact I2|]. destruct (negb _); [exact I2|].
    eapply post_bind; [apply keeps_lava; exact I2|]. intros [] st3 I3.
    eapply post_bind; [apply keeps_vertices; exact I3|]. intros verts st4 I4. exact I4. }
  destruct a; [exact I1 | apply H | apply H].
Qed.

Lemma keeps_circle x y z sc sol st :
  build_inv F cf st ->
  post (fun _ st' => build_inv F cf st') E (create_shadow_circle C W x y z sc sol st).
Proof.
  intros I. unfold create_shadow_circle.
  eapply post_bind; [apply keeps_init_shadow; exact I|]. intros ns st2 I2.
  destruct ns; [exact I2|]. destruct (negb _); [exact I2|].
  eapply post_bind; [apply keeps_vertices; exact I2|]. intros verts st4 I4. exact I4.
Qed.

Lemma keeps_height_solidity x y z sol st :
  build_inv F cf st ->
  post (fun _ st' => build_inv F cf st') E (get_shadow_height_solidity C W x y z sol st).
Proof.
  intros I. rewrite get_shadow_height_solidity_eq.
  destruct (flt _ _); [exact I|]. destruct (water_under C W x y z _); [|exact I].
  cbn [post]. destruct I as (I1 & I2 & I3). repeat split; auto. now apply HF.
Qed.

Lemma keeps_rectangle hw hl relY sol st :
  build_inv F cf st ->
  post (fun _ st' => build_inv F cf st') E (create_shadow_rectangle C W hw hl relY sol st).
Proof.
  intros I. unfold create_shadow_rectangle.
  destruct (negb _); [exact I|].
  destruct (rotate_rectangle W (fneg hl) (fneg hw)) as [z0 x0].
  destruct (rotate_rectangle W (fneg hl) hw) as [z1 x1].
  destruct (rotate_rectangle W hl (fneg hw)) as [z2 x2].
  destruct (rotate_rectangle W hl hw) as [z3 x3].
  eapply post_bind; [apply keeps_vertex_at; exact I|]. intros v0 st1 I1.
  eapply post_bind; [apply keeps_vertex_at; exact I1|]. intros v1 st2 I2.
  eapply post_bind; [apply keeps_vertex_at; exact I2|]. intros v2 st3 I3.
  eapply post_bind; [apply keeps_vertex_at; exact I3|]. intros v3 st4 I4. exact I4.
Qed.

Lemma keeps_square x y z sc sol ty st :
  build_inv F cf st ->
  post (fun _ st' => build_inv F cf st') E (create_shadow_square C W x y z sc sol ty st).
Proof.
  intros I. unfold create_shadow_square.
  eapply post_bind; [apply keeps_height_solidity; exact I|]. intros [[ns h] sol'] st1 I1.
  destruct ns; [exact I1|].
  repeat match goal with
         | |- context [if ?b then _ else _] => destruct b
         end; first [apply keeps_rectangle; exact I1 | exact I1].
Qed.

Lemma keeps_hardcoded x y z sc sol ty st :
  (~ 0 <= hardcoded_index C ty < 2 -> E UB_out_of_bounds) ->
  build_inv F cf st ->
  post (fun _ st' => build_inv F cf st') E
       (create_shadow_hardcoded_rectangle C W x y z sc sol ty st).
Proof.
  intros Hidx I. unfold create_shadow_hardcoded_rectangle. fold (hardcoded_index C ty).
  eapply post_bind; [apply keeps_height_solidity; exact I|]. intros [[ns h] sol'] st1 I1.
  destruct ns; [exact I1|].
  eapply post_bind with (Q1 := fun _ st' => build_inv F cf st').
  - unfold lift, rectangles_at.
    destruct (Z.leb_spec 0 (hardcoded_index C ty));
      destruct (Z.ltb_spec (hardcoded_index C ty) 2); cbn [andb];
      try (cbn [post]; apply Hidx; lia).
    destruct (nth_error _ _) eqn:En; cbn [post]; [exact I1|].
    exfalso. apply nth_error_None in En. unfold rectangles in En. cbn [length] in En. lia.
  - intros r st2 I2. destruct (scaleWithDistance r); apply keeps_rectangle; exact I2.
Qed.

End Invariant.


(* ===================================================================== *)
(** ** Undefined behaviour and missing floors *)
(* ===================================================================== *)

Section Build.

Variable C : Consts.

Variable W : World.

Lemma create_shadow_below_xyz_eq x y z sc sol ty w fl cf :
  create_shadow_below_xyz C W x y z sc sol ty (mkState w fl cf)
  = let '(found, fl0, h) := floor_below W x y z in
    if found then
      match fl0 with
      | None => UB UB_null_deref
      | Some f =>
          type_switch C W x y z sc sol ty
            (mkState (with_floor fl0 h w) (ice_flags C f) (collision_after C W cf))
      end
    else Ok (None, mkState (with_floor fl0 h w) fl (collision_after C W cf)).
Proof.
  assert (E : create_shadow_below_xyz_floor C W x y z (mkState w fl cf)
              = Ok (fst (fst (floor_below W x y z)),
                    mkState (with_floor (snd (fst (floor_below W x y z)))
                                        (snd (floor_below W x y z)) w) fl
                            (collision_after C W cf))).
  { unfold create_shadow_below_xyz_floor, floor_below, collision_after, uses_known_floor.
    destruct (node_is_mario W); [reflexivity|]. cbn [orb].
    destruct (negb (node_is_mirror_mario W)
              && match oFloor W with Some _ => true | None => false end);
      [reflexivity|].
    destruct (find_floor W x y z) as [h f]. reflexivity. }
  unfold create_shadow_below_xyz, bind. rewrite E.
  destruct (floor_below W x y z) as [[found fl0] h]. cbn [fst snd].
  destruct found; [|reflexivity].
  rewrite create_shadow_below_xyz_dispatch_run. reflexivity.
Qed.

Variable F : Z -> Prop.

Variable cf : Z.

Variable E : UBKind -> Prop.

Hypothesis HF : water_closed C F.

Hypothesis HE : E UB_float_to_int.

Lemma keeps_type_switch x y z sc sol ty st f :
  (~ In ty (recognised C) -> ~ 0 <= hardcoded_index C ty < 2 -> E UB_out_of_bounds) ->
  floor (s st) = Some f ->
  gCollisionFlags st = cf ->
  F (if ty =? SHADOW_CIRCLE_PLAYER C then carpet_flags C W f (gShadowFlags st)
     else gShadowFlags st) ->
  post (fun _ st' => build_inv F cf st') E (type_switch C W x y z sc sol ty st).
Proof.
  intros Hoob Hf Hc HFl.
  assert (Hn : floor (s st) <> None) by (rewrite Hf; discriminate).
  unfold type_switch, recognised in *.
  destruct (Z.eqb_spec ty (SHADOW_CIRCLE_PLAYER C)) as [E1 | N1].
  { rewrite create_shadow_player_split. unfold bind at 1.
    rewrite (player_carpet_eq C W st f Hf).
    apply keeps_player_tail; auto. repeat split; auto. }
  assert (I : build_inv F cf st) by (repeat split; auto).
  destruct (Z.eqb_spec ty (SHADOW_CIRCLE C)) as [E2 | N2].
  { apply keeps_circle; auto. }
  destruct (Z.eqb_spec ty (SHADOW_SQUARE_PERMANENT C)) as [E3 | N3];
    [apply keeps_square; auto|].
  destruct (Z.eqb_spec ty (SHADOW_SQUARE_SCALABLE C)) as [E4 | N4];
    [apply keeps_square; auto|].
  destruct (Z.eqb_spec ty (SHADOW_SQUARE_TOGGLABLE C)) as [E5 | N5];
    [apply keeps_square; auto|].
  cbn [orb]. apply keeps_hardcoded; auto.
  apply Hoob. cbn [In]. intuition congruence.
Qed.

End Build.

Lemma water_closed_trivial (C : Consts) : water_closed C (fun _ => True).
Proof. intros fl _. auto. Qed.

Lemma create_shadow_below_xyz_post (C : Consts) (W : World) (E : UBKind -> Prop)
    x y z sc sol ty st :
  E UB_float_to_int ->
  (~ In ty (recognised C) -> ~ 0 <= hardcoded_index C ty < 2 -> E UB_out_of_bounds) ->
  (node_is_mario W = true -> mario_floor W = None -> E UB_null_deref) ->
  post (fun _ st' => gCollisionFlags st' = collision_after C W (gCollisionFlags st)) E
       (create_shadow_below_xyz C W x y z sc sol ty st).
Proof.
  intros HE Hoob Hnull. destruct st as [w fl cf].
  rewrite create_shadow_below_xyz_eq. cbn [gCollisionFlags].
  unfold floor_below.
  assert (T : forall f h,
    post (fun _ st' => gCollisionFlags st' = collision_after C W cf) E
      (type_switch C W x y z sc sol ty
         (mkState (with_floor (Some f) h w) (ice_flags C f) (collision_after C W cf)))).
  { intros f h.
    eapply post_weaken;
      [eapply (keeps_type_switch C W (fun _ => True)) with (f := f);
       [apply water_closed_trivial | exact HE | exact Hoob | reflexivity | reflexivity
       | exact I]
      | intros a st' H; apply H | auto]. }
  destruct (node_is_mario W) eqn:Em.
  { destruct (mario_floor W) as [f |] eqn:Ef; [apply T | cbn [post]; auto]. }
  destruct (negb (node_is_mirror_mario W)
            && match oFloor W with Some _ => true | None => false end) eqn:Eo.
  { destruct (oFloor W) as [f |]; [apply T | now rewrite andb_false_r in Eo]. }
  destruct (find_floor W x y z) as [h [f |]]; [apply T | reflexivity].
Qed.

(** X15.  [create_shadow_below_xyz] dereferences a null floor pointer
    exactly when the object is Mario and [gMarioState->floor] is null: the
    Mario branch of lines 636-638 has no null check, the other two
    branches have one, and no strategy loses the floor later. *)
Theorem null_floor_dereferenced_iff (C : Consts) (W : World) (x y z : f32)
    (sc sol ty : Z) (st : State) :
  create_shadow_below_xyz C W x y z sc sol ty st = UB UB_null_deref
  <-> node_is_mario W = true /\ mario_floor W = None.
Proof.
  split.
  - intros H.
    destruct (node_is_mario W) eqn:Em; destruct (mario_floor W) as [f |] eqn:Ef; auto;
      exfalso;
      pose proof (create_shadow_below_xyz_post C W (fun k => k <> UB_null_deref)
                    x y z sc sol ty st) as P;
      rewrite H in P; cbn [post] in P; apply P; try discriminate; try reflexivity;
      congruence.
  - intros [Hm Hf]. destruct st as [w fl cf]. rewrite create_shadow_below_xyz_eq.
    unfold floor_below. rewrite Hm, Hf. reflexivity.
Qed.

Lemma null_floor_dereferenced_iff_witness :
  create_shadow_below_xyz sample_consts floorless_mario_world zero zero zero 614 255
    (SHADOW_CIRCLE_PLAYER sample_consts) st0 = UB UB_null_deref.
Proof. apply null_floor_dereferenced_iff. split; reflexivity. Defined.

(** X16.  For the five shadow types with a case of their own, and for
    the types whose index into [rectangles] is 0 or 1, no run of
    [create_shadow_below_xyz] reads outside the [rectangles] table. *)
Theorem rectangles_read_in_bounds (C : Consts) (W : World) (x y z : f32)
    (sc sol ty : Z) (st : State) :
  In ty (recognised C) \/ 0 <= hardcoded_index C ty < 2 ->
  create_shadow_below_xyz C W x y z sc sol ty st <> UB UB_out_of_bounds.
Proof.
  intros Hty H.
  pose proof (create_shadow_below_xyz_post C W (fun k => k <> UB_out_of_bounds)
                x y z sc sol ty st) as P.
  rewrite H in P. cbn [post] in P. apply P; try discriminate; try reflexivity.
  intros N1 N2. destruct Hty; contradiction.
Qed.

Lemma rectangles_read_in_bounds_witness :
  create_shadow_below_xyz sample_consts flat_world zero (of_int 100) zero 614 255 51 st0
  <> UB UB_out_of_bounds.
Proof.
  apply rectangles_read_in_bounds. right. change (0 <= 1 < 2). lia.
Defined.

(** X18.  When no floor is known for the object and [find_floor] finds
    none, [create_shadow_below_xyz] returns the null display list; it has
    stored the null floor and the height [find_floor] returned, has set
    [COLLISION_FLAG_RETURN_FIRST], and has not reset the flag byte. *)
Theorem no_floor_no_shadow (C : Consts) (W : World) (x y z : f32)
    (sc sol ty : Z) (st : State) :
  uses_known_floor W = false -> snd (find_floor W x y z) = None ->
  create_shadow_below_xyz C W x y z sc sol ty st
  = Ok (None,
        mkState (with_floor None (fst (find_floor W x y z)) (s st)) (gShadowFlags st)
                (Z.lor (gCollisionFlags st) (COLLISION_FLAG_RETURN_FIRST C))).
Proof.
  intros Hk Hn. destruct st as [w fl cf]. rewrite create_shadow_below_xyz_eq.
  unfold collision_after. rewrite Hk. unfold uses_known_floor in Hk.
  unfold floor_below. apply orb_false_elim in Hk. destruct Hk as [-> ->].
  destruct (find_floor W x y z) as [h f]. cbn [fst snd] in *. subst f. reflexivity.
Qed.

Lemma no_floor_no_shadow_witness :
  create_shadow_below_xyz sample_consts void_world zero zero zero 614 255
    (SHADOW_CIRCLE sample_consts) (mkState (s st0) 3 0)
  = Ok (None, mkState (with_floor None (of_int (-11000)) (s st0)) 3 1).
Proof.
  apply (no_floor_no_shadow sample_consts void_world zero zero zero 614 255
           (SHADOW_CIRCLE sample_consts) (mkState (s st0) 3 0)); reflexivity.
Defined.


(* ===================================================================== *)
(** ** The display lists *)
(* ===================================================================== *)

Lemma flag_test_set_lor_l m m' fl :
  is_mask m = true -> is_mask m' = true -> flag_test (flag_set (Z.lor m m') fl) m = true.
Proof.
  intros H H'. apply is_mask_range in H. apply is_mask_range in H'.
  unfold flag_test, flag_set. rewrite land_wrap_s8 by lia.
  replace (Z.land (Z.lor fl (Z.lor m m')) m) with m by (symmetry; bitwise).
  destruct (Z.eqb_spec m 0); [lia | reflexivity].
Qed.

Lemma flag_test_set_lor_r m m' fl :
  is_mask m = true -> is_mask m' = true -> flag_test (flag_set (Z.lor m m') fl) m' = true.
Proof.
  intros H H'. apply is_mask_range in H. apply is_mask_range in H'.
  unfold flag_test, flag_set. rewrite land_wrap_s8 by lia.
  replace (Z.land (Z.lor fl (Z.lor m m')) m') with m' by (symmetry; bitwise).
  destruct (Z.eqb_spec m' 0); [lia | reflexivity].
Qed.

Lemma stored_texture_corners (C : Consts) :
  map (stored_texture C) [0; 1; 2; 3] = texture_corners C.
Proof.
  unfold stored_texture, get_texture_coords, texture_corners.
  destruct (HD_SHADOWS C); reflexivity.
Qed.

Section Quads.

Variable C : Consts.

Variable W : World.

Lemma quad_of_facts fl a verts shape :
  quad_of C W fl a verts ->
  let dl := add_shadow_to_display_list verts shape in
  dl = add_shadow_to_display_list (vertices_of dl) shape
  /\ length (vertices_of dl) = 4%nat
  /\ Forall (fun v => v_r v = 255 /\ v_g v = 255 /\ v_b v = 255 /\ v_a v = a)
       (vertices_of dl)
  /\ map (fun v => (v_tx v, v_ty v)) (vertices_of dl) = texture_corners C
  /\ alphas (Some dl) = [a; a; a; a].
Proof.
  intros Q. apply Forall2_four in Q.
  destruct Q as (v0 & v1 & v2 & v3 & -> & A0 & A1 & A2 & A3).
  destruct A0 as (? & ? & ? & ? & ? & ? & ? & ? & ? & ->).
  destruct A1 as (? & ? & ? & ? & ? & ? & ? & ? & ? & ->).
  destruct A2 as (? & ? & ? & ? & ? & ? & ? & ? & ? & ->).
  destruct A3 as (? & ? & ? & ? & ? & ? & ? & ? & ? & ->).
  cbv zeta. cbn [vertices_of add_shadow_to_display_list].
  split; [reflexivity|]. split; [reflexivity|]. split; [repeat constructor|].
  split; [|reflexivity].
  rewrite <- stored_texture_corners. cbn [map v_tx v_ty].
  repeat (f_equal; try (symmetry; apply surjective_pairing)).
Qed.

Lemma calculate_vertex_xyz_water index st px py pz st' :
  flag_test (gShadowFlags st) (SHADOW_FLAG_WATER_BOX C) = true ->
  calculate_vertex_xyz C W index st = Ok ((px, py, pz), st') ->
  py = floorHeight (s st).
Proof.
  intros Hw. unfold calculate_vertex_xyz. run.
  destruct (get_vertex_coords index) as [xc zc]. rewrite Hw. run.
  intros E. injection E as _ <- _ _. reflexivity.
Qed.

Lemma make_shadow_vertex_vtx verts index st verts' st' :
  make_shadow_vertex C W verts index st = Ok (verts', st') ->
  st' = st
  /\ exists v relX relY relZ,
       vtx_at C W (gShadowFlags st) index relX relY relZ (emitted_alpha C st) v
       /\ verts' = store_vtx verts (Z.to_nat index) v
       /\ (flag_test (gShadowFlags st) (SHADOW_FLAG_WATER_BOX C) = true ->
           relY = fsub (floorHeight (s st)) (vec_y (parentPos (s st)))).
Proof.
  unfold make_shadow_vertex. intros E.
  apply bind_ok_inv in E. destruct E as (st1 & st2 & E1 & E).
  assert (st1 = st /\ st2 = st) as [-> ->] by (unfold get in E1; now injection E1 as <- <-).
  clear E1.
  apply bind_ok_inv in E. destruct E as ([[px py] pz] & st3 & E1 & E).
  pose proof (calculate_vertex_xyz_inv C W _ _ _ _ E1) as ->.
  apply make_shadow_vertex_at_xyz_vtx in E. destruct E as (-> & v & A & ->).
  split; [reflexivity|]. exists v. do 3 eexists. split; [exact A|].
  split; [reflexivity|]. intros Hw.
  now rewrite (calculate_vertex_xyz_water _ _ _ _ _ _ Hw E1).
Qed.

Lemma make_shadow_vertices_quad st verts st' :
  make_shadow_vertices C W fresh_verts st = Ok (verts, st') ->
  st' = st
  /\ Forall2 (fun i v =>
                exists relX relY relZ,
                  vtx_at C W (gShadowFlags st) i relX relY relZ (emitted_alpha C st) v
                  /\ (flag_test (gShadowFlags st) (SHADOW_FLAG_WATER_BOX C) = true ->
                      relY = fsub (floorHeight (s st)) (vec_y (parentPos (s st)))))
       [0; 1; 2; 3] verts.
Proof.
  unfold make_shadow_vertices. intros E.
  apply bind_ok_inv in E. destruct E as (l0 & s0 & E0 & E).
  apply make_shadow_vertex_vtx in E0.
  destruct E0 as (-> & v0 & x0 & y0 & z0 & A0 & -> & B0).
  apply bind_ok_inv in E. destruct E as (l1 & s1 & E1 & E).
  apply make_shadow_vertex_vtx in E1.
  destruct E1 as (-> & v1 & x1 & y1 & z1 & A1 & -> & B1).
  apply bind_ok_inv in E. destruct E as (l2 & s2 & E2 & E).
  apply make_shadow_vertex_vtx in E2.
  destruct E2 as (-> & v2 & x2 & y2 & z2 & A2 & -> & B2).
  apply make_shadow_vertex_vtx in E.
  destruct E as (-> & v3 & x3 & y3 & z3 & A3 & -> & B3).
  split; [reflexivity|].
  change (store_vtx _ _ v3) with [v0; v1; v2; v3].
  repeat (apply Forall2_cons; [do 3 eexists; split; eassumption|]).
  apply Forall2_nil.
Qed.

Lemma Forall2_weaken {A B} (R R' : A -> B -> Prop) l l' :
  (forall a b, R a b -> R' a b) -> Forall2 R l l' -> Forall2 R' l l'.
Proof. intros H F. induction F; constructor; auto. Qed.

(** What the tail shared by the circle and the player strategies
    returns. *)
Lemma circle_tail_inv (m : M bool) st dl st' :
  (noShadow <- m ;;
   if noShadow then ret None
   else if negb (alloc_verts W && alloc_gfx W) then ret None
   else
     verts <- make_shadow_vertices C W fresh_verts ;;
     ret (Some (add_shadow_to_display_list verts SHADOW_SHAPE_CIRCLE))) st
  = Ok (Some dl, st') ->
  m st = Ok (false, st')
  /\ alloc_verts W && alloc_gfx W = true
  /\ exists verts,
       dl = add_shadow_to_display_list verts SHADOW_SHAPE_CIRCLE
       /\ make_shadow_vertices C W fresh_verts st' = Ok (verts, st').
Proof.
  intros E. apply bind_ok_inv in E. destruct E as (ns & st1 & Em & E).
  destruct ns; [apply ret_ok_inv in E; destruct E; discriminate|].
  destruct (alloc_verts W && alloc_gfx W); cbn [negb] in E;
    [|apply ret_ok_inv in E; destruct E; discriminate].
  apply bind_ok_inv in E. destruct E as (verts & st2 & Ev & E).
  apply ret_ok_inv in E. destruct E as [E ->].
  pose proof (make_shadow_vertices_inv C W _ _ _ Ev) as (-> & _).
  assert (dl = add_shadow_to_display_list verts SHADOW_SHAPE_CIRCLE) as -> by congruence.
  split; [exact Em|]. split; [reflexivity|]. exists verts. auto.
Qed.

Lemma create_shadow_circle_quad x y z sc sol st dl st' :
  create_shadow_circle C W x y z sc sol st = Ok (Some dl, st') ->
  init_shadow C W x y z sc sol st = Ok (false, st')
  /\ alloc_verts W && alloc_gfx W = true
  /\ exists verts,
       dl = add_shadow_to_display_list verts SHADOW_SHAPE_CIRCLE
       /\ make_shadow_vertices C W fresh_verts st' = Ok (verts, st').
Proof. apply circle_tail_inv. Qed.

Lemma create_shadow_player_quad x y z sc sol st dl st' :
  create_shadow_player C W x y z sc sol st = Ok (Some dl, st') ->
  alloc_verts W && alloc_gfx W = true
  /\ exists verts,
       dl = add_shadow_to_display_list verts SHADOW_SHAPE_CIRCLE
       /\ make_shadow_vertices C W fresh_verts st' = Ok (verts, st').
Proof.
  unfold create_shadow_player. intros E.
  apply bind_ok_inv in E. destruct E as ([] & st1 & _ & E).
  apply bind_ok_inv in E. destruct E as (a & st2 & _ & E).
  assert (H : forall ov,
             (noShadow <- init_shadow C W x y z sc ov ;;
              if noShadow then ret None
              else if negb (alloc_verts W && alloc_gfx W) then ret None
              else
                correct_lava_shadow_height C W ;;
                verts <- make_shadow_vertices C W fresh_verts ;;
                ret (Some (add_shadow_to_display_list verts SHADOW_SHAPE_CIRCLE))) st2
             = Ok (Some dl, st') ->
             alloc_verts W && alloc_gfx W = true
             /\ exists verts,
                  dl = add_shadow_to_display_list verts SHADOW_SHAPE_CIRCLE
                  /\ make_shadow_vertices C W fresh_verts st' = Ok (verts, st')).
  { intros ov E'.
    apply bind_ok_inv in E'. destruct E' as (ns & st3 & _ & E').
    destruct ns; [apply ret_ok_inv in E'; destruct E'; discriminate|].
    destruct (alloc_verts W && alloc_gfx W); cbn [negb] in E';
      [|apply ret_ok_inv in E'; destruct E'; discriminate].
    apply bind_ok_inv in E'. destruct E' as ([] & st4 & _ & E').
    apply bind_ok_inv in E'. destruct E' as (verts & st5 & Ev & E').
    apply ret_ok_inv in E'. destruct E' as [E' ->].
    pose proof (make_shadow_vertices_inv C W _ _ _ Ev) as (-> & _).
    assert (dl = add_shadow_to_display_list verts SHADOW_SHAPE_CIRCLE) as -> by congruence.
    split; [reflexivity|]. exists verts. auto. }
  destruct a; [apply ret_ok_inv in E; destruct E; discriminate | |]; eapply H; exact E.
Qed.

Lemma vertices_quad_of st verts :
  make_shadow_vertices C W fresh_verts st = Ok (verts, st) ->
  quad_of C W (gShadowFlags st) (emitted_alpha C st) verts.
Proof.
  intros E. apply make_shadow_vertices_quad in E. destruct E as [_ F].
  unfold quad_of. eapply Forall2_weaken; [|exact F].
  cbv beta. intros i v (rx & ry & rz & A & _). eauto.
Qed.

Lemma rectangle_quad_of hw hl relY sol st dl st' :
  create_shadow_rectangle C W hw hl relY sol st = Ok (Some dl, st') ->
  st' = st
  /\ alloc_verts W && alloc_gfx W = true
  /\ exists verts,
       dl = add_shadow_to_display_list verts SHADOW_SHAPE_SQUARE
       /\ quad_of C W (gShadowFlags st) sol verts.
Proof.
  intros E. apply create_shadow_rectangle_inv in E.
  destruct E as (-> & Ha & verts & -> & F).
  split; [reflexivity|]. split; [exact Ha|]. exists verts. split; [reflexivity|].
  apply Forall2_four in F. destruct F as (v0 & v1 & v2 & v3 & -> & A0 & A1 & A2 & A3).
  cbn [fst snd] in *. unfold quad_of.
  repeat (apply Forall2_cons; [do 3 eexists; eassumption|]). apply Forall2_nil.
Qed.

(** Every strategy that returns a display list got both buffers and
    wrote a quad of its shape. *)
Lemma type_switch_quad x y z sc sol ty st dl st' :
  type_switch C W x y z sc sol ty st = Ok (Some dl, st') ->
  alloc_verts W && alloc_gfx W = true
  /\ exists verts a,
       dl = add_shadow_to_display_list verts (shape_of C ty)
       /\ quad_of C W (gShadowFlags st') a verts.
Proof.
  unfold type_switch, shape_of.
  destruct (Z.eqb_spec ty (SHADOW_CIRCLE_PLAYER C)) as [E1 | N1].
  { intros E. apply create_shadow_player_quad in E. destruct E as (Ha & verts & -> & Ev).
    split; [exact Ha|]. exists verts, (emitted_alpha C st'). split; [reflexivity|].
    now apply vertices_quad_of. }
  destruct (Z.eqb_spec ty (SHADOW_CIRCLE C)) as [E2 | N2].
  { intros E. apply create_shadow_circle_quad in E.
    destruct E as (_ & Ha & verts & -> & Ev).
    split; [exact Ha|]. exists verts, (emitted_alpha C st'). split; [reflexivity|].
    now apply vertices_quad_of. }
  cbn [orb]. intros E.
  assert (G : exists hw hl relY sol',
             create_shadow_rectangle C W hw hl relY sol' st' = Ok (Some dl, st')).
  { destruct (_ || _).
    - apply create_shadow_square_inv in E. destruct E as (h & sol' & hw & _ & R & _). eauto.
    - apply create_shadow_hardcoded_rectangle_inv in E.
      destruct E as (h & sol' & hw & hl & _ & R). eauto. }
  destruct G as (hw & hl & relY & sol' & R).
  apply rectangle_quad_of in R. destruct R as (_ & Ha & verts & -> & Q).
  split; [exact Ha|]. exists verts, sol'. auto.
Qed.

Lemma create_shadow_below_xyz_quad x y z sc sol ty st dl st' :
  create_shadow_below_xyz C W x y z sc sol ty st = Ok (Some dl, st') ->
  alloc_verts W && alloc_gfx W = true
  /\ exists verts a,
       dl = add_shadow_to_display_list verts (shape_of C ty)
       /\ quad_of C W (gShadowFlags st') a verts.
Proof.
  destruct st as [w fl cf]. rewrite create_shadow_below_xyz_eq.
  destruct (floor_below W x y z) as [[found fl0] h].
  destruct found; [|discriminate]. destruct fl0 as [f |]; [|discriminate].
  apply type_switch_quad.
Qed.

End Quads.

(** X19.  Every display list [create_shadow_below_xyz] returns is the
    four-command sequence of [add_shadow_to_display_list] around exactly
    four vertices: of circle shape for the player and circle types, of
    square shape for every other type.  The four vertices are white
    (255, 255, 255) and share one alpha. *)
Theorem display_list_shape (C : Consts) (W : World) (x y z : f32) (sc sol ty : Z)
    (st : State) dl st' :
  create_shadow_below_xyz C W x y z sc sol ty st = Ok (Some dl, st') ->
  dl = add_shadow_to_display_list (vertices_of dl) (shape_of C ty)
  /\ length (vertices_of dl) = 4%nat
  /\ exists a,
       Forall (fun v => v_r v = 255 /\ v_g v = 255 /\ v_b v = 255 /\ v_a v = a)
         (vertices_of dl).
Proof.
  intros E. apply create_shadow_below_xyz_quad in E.
  destruct E as (_ & verts & a & -> & Q).
  destruct (quad_of_facts C W _ _ _ (shape_of C ty) Q) as (D & L & F & _).
  split; [exact D|]. split; [exact L|]. exists a. exact F.
Qed.

Lemma display_list_shape_witness :
  exists dl st',
    create_shadow_below_xyz sample_consts flat_world zero (of_int 100) zero 614 255
      (SHADOW_SQUARE_SCALABLE sample_consts) st0 = Ok (Some dl, st')
    /\ dl = add_shadow_to_display_list (vertices_of dl) SHADOW_SHAPE_SQUARE
    /\ length (vertices_of dl) = 4%nat.
Proof.
  destruct (create_shadow_below_xyz sample_consts flat_world zero (of_int 100) zero 614 255
              (SHADOW_SQUARE_SCALABLE sample_consts) st0) as [[[dl |] st'] | k] eqn:Er;
    try (vm_compute in Er; discriminate).
  exists dl, st'. split; [reflexivity|].
  destruct (display_list_shape _ _ _ _ _ _ _ _ _ _ _ Er) as (D & L & _). auto.
Defined.

(** X20.  In every display list [create_shadow_below_xyz] returns, the
    vertices 0 to 3 carry, in this order, the texture coordinates of the
    four corners shifted left by 5: -480 and 512 (-2016 and 2048 with
    [HD_SHADOWS]), the shift of a negative coordinate being the
    arithmetic one. *)
Theorem display_list_texture (C : Consts) (W : World) (x y z : f32) (sc sol ty : Z)
    (st : State) dl st' :
  create_shadow_below_xyz C W x y z sc sol ty st = Ok (Some dl, st') ->
  map (fun v => (v_tx v, v_ty v)) (vertices_of dl) = texture_corners C.
Proof.
  intros E. apply create_shadow_below_xyz_quad in E.
  destruct E as (_ & verts & a & -> & Q).
  apply (quad_of_facts C W _ _ _ (shape_of C ty) Q).
Qed.

Lemma display_list_texture_witness :
  exists dl st',
    create_shadow_below_xyz sample_consts flat_world zero (of_int 100) zero 614 255
      (SHADOW_CIRCLE sample_consts) st0 = Ok (Some dl, st')
    /\ map (fun v => (v_tx v, v_ty v)) (vertices_of dl)
       = [(-480, -480); (512, -480); (-480, 512); (512, 512)].
Proof.
  destruct (create_shadow_below_xyz sample_consts flat_world zero (of_int 100) zero 614 255
              (SHADOW_CIRCLE sample_consts) st0) as [[[dl |] st'] | k] eqn:Er;
    try (vm_compute in Er; discriminate).
  exists dl, st'. split; [reflexivity|].
  exact (display_list_texture _ _ _ _ _ _ _ _ _ _ _ Er).
Defined.

(** X21.  When either display-list allocation fails, no build returns a
    display list: the outcome is the null list, or an undefined behaviour
    met before the buffers are used. *)
Theorem display_list_needs_both_buffers (C : Consts) (W : World) (x y z : f32)
    (sc sol ty : Z) (st : State) :
  alloc_verts W = false \/ alloc_gfx W = false ->
  output_of (create_shadow_below_xyz C W x y z sc sol ty st) = Ok None
  \/ exists k, create_shadow_below_xyz C W x y z sc sol ty st = UB k.
Proof.
  intros Ha.
  destruct (create_shadow_below_xyz C W x y z sc sol ty st) as [[[dl |] st'] | k] eqn:Er;
    [|left; reflexivity | right; eauto].
  apply create_shadow_below_xyz_quad in Er. destruct Er as (Hb & _).
  apply andb_prop in Hb. destruct Hb, Ha; congruence.
Qed.


(* ===================================================================== *)
(** ** Flags, alphas and heights of the finished shadow *)
(* ===================================================================== *)

Lemma display_list_needs_both_buffers_witness :
  output_of (create_shadow_below_xyz sample_consts starved_world zero (of_int 100) zero
               614 255 (SHADOW_CIRCLE sample_consts) st0) = Ok None.
Proof.
  destruct (display_list_needs_both_buffers sample_consts starved_world zero (of_int 100)
              zero 614 255 (SHADOW_CIRCLE sample_consts) st0 (or_intror eq_refl))
    as [H | [k H]]; [exact H|].
  vm_compute in H. discriminate.
Defined.

Section Flags.

Variable C : Consts.

Variable W : World.

Hypothesis Hwf : wf_flags C = true.

Lemma ice_flags_tests f :
  flag_test (ice_flags C f) (SHADOW_FLAG_RAISED C) = false
  /\ flag_test (ice_flags C f) (SHADOW_FLAG_ICE_CARPET C) = is_ice f.
Proof.
  destruct (wf_flags_unpack C Hwf) as ((Mwb & Mws & Mic & Mra) & _ & _ & _ & _ & _ & Dir).
  unfold ice_flags, is_ice. destruct (type f); try (split; reflexivity).
  split.
  - rewrite flag_test_set_other by assumption. reflexivity.
  - now apply flag_test_set_same.
Qed.

Lemma carpet_flags_tests ty f :
  let fl := if ty =? SHADOW_CIRCLE_PLAYER C then carpet_flags C W f (ice_flags C f)
            else ice_flags C f in
  flag_test fl (SHADOW_FLAG_RAISED C)
  = match carpet_seen C W ty f with
    | FLYING_CARPET_MOVING_WITHOUT_MARIO => true
    | _ => false
    end
  /\ flag_test fl (SHADOW_FLAG_ICE_CARPET C)
     = is_ice f || match carpet_seen C W ty f with
                   | FLYING_CARPET_IDLE => false
                   | _ => true
                   end.
Proof.
  destruct (wf_flags_unpack C Hwf) as ((Mwb & Mws & Mic & Mra) & _ & _ & _ & _ & _ & Dir).
  assert (Dri : Z.land (SHADOW_FLAG_RAISED C) (SHADOW_FLAG_ICE_CARPET C) = 0)
    by (now rewrite Z.land_comm).
  destruct (ice_flags_tests f) as [R0 I0].
  cbv zeta. unfold carpet_seen, carpet_flags.
  destruct (ty =? SHADOW_CIRCLE_PLAYER C);
    [|rewrite R0, I0, orb_false_r; split; reflexivity].
  destruct (gCurrLevelNum W);
    try (rewrite R0, I0, orb_false_r; split; reflexivity).
  assert (G : flag_test
                match gFlyingCarpetState W with
                | FLYING_CARPET_IDLE => ice_flags C f
                | FLYING_CARPET_MOVING_WITHOUT_MARIO =>
                    flag_set (Z.lor (SHADOW_FLAG_ICE_CARPET C) (SHADOW_FLAG_RAISED C))
                      (ice_flags C f)
                | FLYING_CARPET_MOVING_WITH_MARIO =>
                    flag_set (SHADOW_FLAG_ICE_CARPET C) (ice_flags C f)
                end (SHADOW_FLAG_RAISED C)
              = match gFlyingCarpetState W with
                | FLYING_CARPET_MOVING_WITHOUT_MARIO => true
                | _ => false
                end
              /\ flag_test
                   match gFlyingCarpetState W with
                   | FLYING_CARPET_IDLE => ice_flags C f
                   | FLYING_CARPET_MOVING_WITHOUT_MARIO =>
                       flag_set (Z.lor (SHADOW_FLAG_ICE_CARPET C) (SHADOW_FLAG_RAISED C))
                         (ice_flags C f)
                   | FLYING_CARPET_MOVING_WITH_MARIO =>
                       flag_set (SHADOW_FLAG_ICE_CARPET C) (ice_flags C f)
                   end (SHADOW_FLAG_ICE_CARPET C)
                 = is_ice f || match gFlyingCarpetState W with
                               | FLYING_CARPET_IDLE => false
                               | _ => true
                               end).
  { destruct (gFlyingCarpetState W).
    - rewrite R0, I0, orb_false_r. split; reflexivity.
    - rewrite flag_test_set_lor_r, flag_test_set_lor_l by assumption.
      rewrite orb_true_r. split; reflexivity.
    - rewrite flag_test_set_other by assumption.
      rewrite flag_test_set_same by assumption. rewrite R0, orb_true_r.
      split; reflexivity. }
  destruct (type f) eqn:Et; try exact G.
  rewrite R0, I0, orb_false_r. split; reflexivity.
Qed.

End Flags.

(** X22.  For four distinct flag bits, after every build that found a
    floor and returned: [SHADOW_FLAG_RAISED] is set exactly for a player
    shadow in [LEVEL_RR] over a floor that is not the death plane
    while the carpet moves without Mario, and [SHADOW_FLAG_ICE_CARPET] is
    set exactly when the floor found is ice or, under the same
    conditions, the carpet moves at all. *)
Theorem flags_after_build (C : Consts) (W : World) (x y z : f32) (sc sol ty : Z)
    (st : State) (f : Surface) (h : f32) o st' :
  wf_flags C = true ->
  floor_below W x y z = (true, Some f, h) ->
  create_shadow_below_xyz C W x y z sc sol ty st = Ok (o, st') ->
  flag_test (gShadowFlags st') (SHADOW_FLAG_RAISED C)
  = match carpet_seen C W ty f with
    | FLYING_CARPET_MOVING_WITHOUT_MARIO => true
    | _ => false
    end
  /\ flag_test (gShadowFlags st') (SHADOW_FLAG_ICE_CARPET C)
     = is_ice f || match carpet_seen C W ty f with
                   | FLYING_CARPET_IDLE => false
                   | _ => true
                   end.
Proof.
  intros Hwf Hfl. destruct st as [w fl cf]. rewrite create_shadow_below_xyz_eq, Hfl.
  destruct (wf_flags_unpack C Hwf)
    as ((Mwb & Mws & Mic & Mra) & _ & Dbi & Dbr & Dsi & Dsr & _).
  destruct (carpet_flags_tests C W Hwf ty f) as [TR TI]. cbv zeta in TR, TI.
  intros E.
  assert (P : post (fun _ st1 =>
                      build_inv
                        (fun fl' =>
                           flag_test fl' (SHADOW_FLAG_RAISED C)
                           = match carpet_seen C W ty f with
                             | FLYING_CARPET_MOVING_WITHOUT_MARIO => true
                             | _ => false
                             end
                           /\ flag_test fl' (SHADOW_FLAG_ICE_CARPET C)
                              = is_ice f || match carpet_seen C W ty f with
                                            | FLYING_CARPET_IDLE => false
                                            | _ => true
                                            end)
                        (collision_after C W cf) st1)
                   any_ub
                   (type_switch C W x y z sc sol ty
                      (mkState (with_floor (Some f) h w) (ice_flags C f)
                               (collision_after C W cf)))).
  { eapply keeps_type_switch with (f := f);
      [ | exact I | intros; exact I | reflexivity | reflexivity | split; assumption ].
    intros fl0 [H1 H2].
    rewrite !flag_test_set_other, !flag_test_clear_other by assumption. auto. }
  rewrite E in P. cbn [post] in P. apply P.
Qed.

Lemma flags_after_build_witness :
  exists o st',
    create_shadow_below_xyz sample_consts carpet_world zero (of_int 100) zero 614 255
      (SHADOW_CIRCLE_PLAYER sample_consts) st0 = Ok (o, st')
    /\ flag_test (gShadowFlags st') (SHADOW_FLAG_RAISED sample_consts) = true
    /\ flag_test (gShadowFlags st') (SHADOW_FLAG_ICE_CARPET sample_consts) = true.
Proof.
  destruct (create_shadow_below_xyz sample_consts carpet_world zero (of_int 100) zero 614 255
              (SHADOW_CIRCLE_PLAYER sample_consts) st0) as [[o st'] | k] eqn:Er;
    try (vm_compute in Er; discriminate).
  exists o, st'. split; [reflexivity|].
  exact (flags_after_build sample_consts carpet_world zero (of_int 100) zero 614 255
           (SHADOW_CIRCLE_PLAYER sample_consts) st0 flat_floor zero o st'
           eq_refl eq_refl Er).
Defined.

(** X23.  In a display list [create_shadow_circle] returns for a
    non-zero solidity in [0..255], the four alphas are equal: 200 when
    the water-box flag is set at the end, else the solidity of the
    workspace, which lies between the smaller of the requested solidity
    and 120 and the requested solidity. *)
Theorem circle_shadow_alpha (C : Consts) (W : World) (x y z : f32) (sc sol : Z)
    (st : State) dl st' :
  is_u8 sol -> sol <> 0 ->
  create_shadow_circle C W x y z sc sol st = Ok (Some dl, st') ->
  exists a,
    alphas (Some dl) = [a; a; a; a]
    /\ a = (if flag_test (gShadowFlags st') (SHADOW_FLAG_WATER_BOX C)
            then 200 else solidity (s st'))
    /\ (a = 200 \/ Z.min sol 120 <= a <= sol).
Proof.
  intros Hu Hn E. apply create_shadow_circle_quad in E.
  destruct E as (Ei & _ & verts & -> & Ev).
  apply vertices_quad_of in Ev.
  destruct (quad_of_facts C W _ _ _ SHADOW_SHAPE_CIRCLE Ev) as (_ & _ & _ & _ & A).
  exists (emitted_alpha C st'). split; [exact A|]. split; [reflexivity|].
  unfold emitted_alpha. destruct (flag_test _ _); [now left|]. right.
  apply init_shadow_success in Ei. destruct Ei as (_ & _ & Hs & _).
  destruct (Hs Hn) as (v & D & ->).
  pose proof (dim_shadow_with_distance_bounds _ _ _ Hu D) as B.
  unfold is_u8 in Hu. unfold wrap_u8. rewrite Z.mod_small by lia. exact B.
Qed.

Lemma circle_shadow_alpha_witness :
  exists dl st' a,
    create_shadow_circle sample_consts flat_world zero (of_int 300) zero 614 255 ground_state
    = Ok (Some dl, st')
    /\ alphas (Some dl) = [a; a; a; a] /\ 120 <= a <= 255.
Proof.
  destruct (create_shadow_circle sample_consts flat_world zero (of_int 300) zero 614 255
              ground_state) as [[[dl |] st'] | k] eqn:Er;
    try (vm_compute in Er; discriminate).
  destruct (circle_shadow_alpha sample_consts flat_world zero (of_int 300) zero 614 255
              ground_state dl st') as (a & A & _ & B);
    [unfold is_u8; lia | discriminate | exact Er |].
  exists dl, st', a. split; [reflexivity|]. split; [exact A|]. lia.
Defined.

(** X24.  A circle shadow built with the water-box flag set lies flat on
    the water: its four vertices have the same height, the rounded
    difference between the floor height of the workspace (the water
    level) and the height of the object (5 higher with
    [SHADOW_FLAG_RAISED]), and alpha 200. *)
Theorem water_box_shadow_is_flat (C : Consts) (W : World) (x y z : f32) (sc sol : Z)
    (st : State) dl st' :
  create_shadow_circle C W x y z sc sol st = Ok (Some dl, st') ->
  flag_test (gShadowFlags st') (SHADOW_FLAG_WATER_BOX C) = true ->
  exists vy,
    f32_to_s16 (roundf W (fsub (floorHeight (s st')) y)) = Ok vy
    /\ Forall (fun v =>
                 v_y v = (if flag_test (gShadowFlags st') (SHADOW_FLAG_RAISED C)
                          then wrap_s16 (vy + 5) else vy)
                 /\ v_a v = 200)
         (vertices_of dl).
Proof.
  intros E Hw. apply create_shadow_circle_quad in E.
  destruct E as (Ei & _ & verts & -> & Ev).
  apply init_shadow_success in Ei. destruct Ei as (Hp & _).
  apply make_shadow_vertices_quad in Ev. destruct Ev as [_ F].
  apply Forall2_four in F. destruct F as (v0 & v1 & v2 & v3 & -> & A0 & A1 & A2 & A3).
  unfold emitted_alpha in *. rewrite Hw, Hp in *. cbn [vec_y] in *.
  destruct A0 as (? & ? & ? & (a0 & y0 & c0 & _ & Y0 & _ & ->) & R0).
  destruct A1 as (? & ? & ? & (a1 & y1 & c1 & _ & Y1 & _ & ->) & R1).
  destruct A2 as (? & ? & ? & (a2 & y2 & c2 & _ & Y2 & _ & ->) & R2).
  destruct A3 as (? & ? & ? & (a3 & y3 & c3 & _ & Y3 & _ & ->) & R3).
  rewrite (R0 eq_refl) in Y0. rewrite (R1 eq_refl) in Y1.
  rewrite (R2 eq_refl) in Y2. rewrite (R3 eq_refl) in Y3.
  assert (y1 = y0) as -> by congruence.
  assert (y2 = y0) as -> by congruence.
  assert (y3 = y0) as -> by congruence.
  exists y0. split; [exact Y0|].
  cbn [vertices_of add_shadow_to_display_list]. repeat constructor.
Qed.

Lemma water_box_shadow_is_flat_witness :
  exists dl st',
    create_shadow_circle sample_consts pool_world zero (of_int 200) zero 614 255 ground_state
    = Ok (Some dl, st')
    /\ Forall (fun v => v_y v = -100 /\ v_a v = 200) (vertices_of dl).
Proof.
  destruct (create_shadow_circle sample_consts pool_world zero (of_int 200) zero 614 255
              ground_state) as [[[dl |] st'] | k] eqn:Er;
    try (vm_compute in Er; discriminate).
  exists dl, st'. split; [reflexivity|].
  assert (Es : st' = state_of (create_shadow_circle sample_consts pool_world zero
                                 (of_int 200) zero 614 255 ground_state) st0)
    by (now rewrite Er).
  vm_compute in Es.
  destruct (water_box_shadow_is_flat sample_consts pool_world zero (of_int 200) zero 614 255
              ground_state dl st' Er) as (vy & Hy & F).
  { rewrite Es. vm_compute. reflexivity. }
  rewrite Es in Hy, F. vm_compute in Hy. injection Hy as <-. exact F.
Defined.


(* ===================================================================== *)
(** ** The player on a ledge *)
(* ===================================================================== *)

Lemma correct_lava_shadow_height_solidity (C : Consts) (W : World) st st' :
  correct_lava_shadow_height C W st = Ok (tt, st') -> solidity (s st') = solidity (s st).
Proof.
  unfold correct_lava_shadow_height. run.
  destruct (floor (s st)) as [f |]; run; [|discriminate].
  destruct (gCurrLevelNum W); destruct (type f); run;
    try (intros E; injection E as <-; reflexivity).
  - destruct (flt _ _); run; [intros E; injection E as <-; reflexivity|].
    destruct (fgt _ _); run; intros E; injection E as <-; reflexivity.
  - destruct (_ =? _); run; intros E; injection E as <-; reflexivity.
Qed.

Lemma ledge_animation_result (W : World) sol st a st1 :
  is_ledge_animation (animID W) = true ->
  correct_shadow_solidity_for_animations W sol st = Ok (a, st1) ->
  a = SHADOW_SOILDITY_ALREADY_SET.
Proof.
  unfold correct_shadow_solidity_for_animations. destruct (animID W); try discriminate;
    intros _ E; apply bind_ok_inv in E; destruct E as ([] & st2 & _ & E);
    apply ret_ok_inv in E; destruct E; congruence.
Qed.

(** The solidity the animation corrector stores does not depend on the
    state it runs in. *)
Lemma animations_solidity_indep (W : World) sol st st' a st1 :
  correct_shadow_solidity_for_animations W sol st = Ok (a, st1) ->
  exists st1',
    correct_shadow_solidity_for_animations W sol st' = Ok (a, st1')
    /\ (a = SHADOW_SOILDITY_ALREADY_SET -> solidity (s st1') = solidity (s st1)).
Proof.
  destruct (correct_shadow_solidity_for_animations_frame W sol) as (r & Hr & H).
  destruct st as [w fl cf], st' as [w' fl' cf']. rewrite !H.
  destruct r as [[a' [v |]] | k]; intros E; try discriminate;
    injection E as <- <-; eexists; (split; [reflexivity|]); [reflexivity|].
  intros ->. contradiction.
Qed.

(** X25.  While Mario idles on a ledge [create_shadow_player] returns
    the null display list without initialising the workspace: only the
    flying-carpet flags may have been added to the flag byte. *)
Theorem idle_on_ledge_no_shadow (C : Consts) (W : World) (x y z : f32) (sc sol : Z)
    (st : State) (f : Surface) :
  animID W = MARIO_ANIM_IDLE_ON_LEDGE ->
  floor (s st) = Some f ->
  create_shadow_player C W x y z sc sol st
  = Ok (None, with_flags (carpet_flags C W f (gShadowFlags st)) st).
Proof.
  intros Ha Hf. rewrite create_shadow_player_split. unfold bind at 1.
  rewrite (player_carpet_eq C W st f Hf).
  unfold player_tail, correct_shadow_solidity_for_animations. rewrite Ha. reflexivity.
Qed.

Lemma idle_on_ledge_no_shadow_witness :
  create_shadow_player sample_consts idle_ledge_world zero (of_int 100) zero 614 255
    ground_state = Ok (None, ground_state).
Proof.
  apply (idle_on_ledge_no_shadow sample_consts idle_ledge_world zero (of_int 100) zero
           614 255 ground_state flat_floor); reflexivity.
Defined.

(** X26.  During the three ledge animations the alpha of the player
    shadow is not dimmed with the distance to the floor: the four alphas
    of a display list [create_shadow_player] returns are equal, and are
    the solidity the animation corrector stored, or 200. *)
Theorem ledge_animation_alpha (C : Consts) (W : World) (x y z : f32) (sc sol : Z)
    (st : State) dl st' :
  is_ledge_animation (animID W) = true ->
  create_shadow_player C W x y z sc sol st = Ok (Some dl, st') ->
  exists a,
    alphas (Some dl) = [a; a; a; a]
    /\ (a = 200
        \/ exists st1,
             correct_shadow_solidity_for_animations W sol st
             = Ok (SHADOW_SOILDITY_ALREADY_SET, st1)
             /\ solidity (s st1) = a).
Proof.
  intros Ha E.
  pose proof (create_shadow_player_quad C W _ _ _ _ _ _ _ _ E) as (_ & verts & -> & Ev).
  apply vertices_quad_of in Ev.
  destruct (quad_of_facts C W _ _ _ SHADOW_SHAPE_CIRCLE Ev) as (_ & _ & _ & _ & A).
  exists (emitted_alpha C st'). split; [exact A|].
  unfold emitted_alpha. destruct (flag_test _ _); [now left|].
  rewrite create_shadow_player_split in E.
  apply bind_ok_inv in E. destruct E as ([] & st1 & _ & E).
  unfold player_tail in E.
  apply bind_ok_inv in E. destruct E as (a & st2 & Ea & E).
  pose proof (ledge_animation_result W _ _ _ _ Ha Ea) as ->.
  apply bind_ok_inv in E. destruct E as (ns & st3 & Ei & E).
  destruct ns; [apply ret_ok_inv in E; destruct E; discriminate|].
  destruct (negb _); [apply ret_ok_inv in E; destruct E; discriminate|].
  apply bind_ok_inv in E. destruct E as ([] & st4 & El & E).
  apply bind_ok_inv in E. destruct E as (verts' & st5 & Ev' & E).
  apply ret_ok_inv in E. destruct E as [_ ->].
  pose proof (make_shadow_vertices_inv C W _ _ _ Ev') as (-> & _).
  apply correct_lava_shadow_height_solidity in El.
  apply init_shadow_success in Ei. destruct Ei as (_ & _ & _ & Hs & _).
  destruct (animations_solidity_indep W sol st1 st _ _ Ea) as (st1' & Ea' & Hsol).
  rewrite El. destruct (Hs eq_refl) as [-> | ->]; [|now left].
  right. exists st1'. split; [exact Ea' | now apply Hsol].
Qed.

Lemma ledge_animation_alpha_witness :
  exists dl st',
    create_shadow_player sample_consts ledge_world zero (of_int 700) zero 614 255
      ground_state = Ok (Some dl, st')
    /\ alphas (Some dl) = [255; 255; 255; 255].
Proof.
  destruct (create_shadow_player sample_consts ledge_world zero (of_int 700) zero 614 255
              ground_state) as [[[dl |] st'] | k] eqn:Er;
    try (vm_compute in Er; discriminate).
  exists dl, st'. split; [reflexivity|].
  destruct (ledge_animation_alpha sample_consts ledge_world zero (of_int 700) zero 614 255
              ground_state dl st' eq_refl Er) as (a & A & [-> | (st1 & E1 & <-)]).
  - apply (f_equal (fun r => alphas (fst (match r with Ok p => p | UB _ => (None, st0) end))))
      in Er.
    cbn [fst] in Er. rewrite <- Er in A. vm_compute in A. discriminate.
  - vm_compute in E1. injection E1 as <-. exact A.
Defined.
